(** * Actuador: discrete PI controller, servo mapping and MQTT decoder

    Shallow embedding of [src/Actuador.ino] (ESP32-C6 firmware).

    The firmware computes with the C++ type [float].  On the target
    (RV32IMAC, soft float, FLT_EVAL_METHOD = 0) every [float] operation
    is an IEEE-754 binary32 operation rounded to nearest, ties to even.
    The embedding therefore uses the executable IEEE-754 specification
    of the standard library ([SpecFloat]) at precision 24 and maximal
    exponent 128: every arithmetic step of the source is one rounded
    operation of the model, including overflow to infinity and NaN.

    Globals of the sketch become fields of the record [state]; a
    function that writes globals becomes a function [state -> state].
    The serial console is a list of lines appended in program order.

    The two FreeRTOS tasks share the globals without a lock.  A run is
    the sequence of what they do to the globals: one period of
    [control_task] or one call of [mqttCallback], each taken as a whole.
    The link status read at the start of a period is an input of that
    period.  The LED and the loop of [mqtt_task] have models of their
    own, beside the controller state, which they do not touch.  The
    calls into the WiFi and MQTT libraries ([connectMQTT], the
    connection made by [setup]) and the console lines of [setup] and
    [mqtt_task] are left out. *)

From Stdlib Require Import ZArith Bool List Lia.
From Stdlib Require Import Strings.String Strings.Ascii Strings.Byte.
From Stdlib Require Import QArith Qabs.
From Stdlib Require Import Floats.SpecFloat.
Import ListNotations.

Local Open Scope Z_scope.

(* ================================================================== *)
(** ** binary32 and binary64 arithmetic *)
(* ================================================================== *)

Module F32.

Definition prec : Z := 24.
Definition emax : Z := 128.

Definition float32 : Type := spec_float.

(** The value of an integer constant ([25.0f], [100.0f], ...), and of
    an integer converted to [float] (rounded when it needs more than
    24 bits). *)
Definition of_Z (n : Z) : float32 := binary_normalize prec emax n 0 false.

Definition add : float32 -> float32 -> float32 := SFadd prec emax.
Definition sub : float32 -> float32 -> float32 := SFsub prec emax.
Definition mul : float32 -> float32 -> float32 := SFmul prec emax.
Definition div : float32 -> float32 -> float32 := SFdiv prec emax.
Definition opp : float32 -> float32 := SFopp.

(** C++ [a < b] and [a <= b]: false as soon as one side is NaN. *)
Definition ltb : float32 -> float32 -> bool := SFltb.
Definition leb : float32 -> float32 -> bool := SFleb.

(** [isfinite] of <math.h>. *)
Definition isfinite (x : float32) : bool :=
  match x with
  | S754_zero _ | S754_finite _ _ _ => true
  | S754_infinity _ | S754_nan => false
  end.

Definition is_nan (x : float32) : bool :=
  match x with
  | S754_nan => true
  | _ => false
  end.

(** A well-formed binary32 datum: mantissa and exponent in canonical
    form.  Every value held by a C++ [float] is of this kind. *)
Definition valid (x : float32) : bool := valid_binary prec emax x.

(** The binary32 nearest to the decimal constant [n/d] written in the
    source or in a scenario (what the literal [n/d f] denotes), for
    integers below 2^24. *)
Definition decimal (n d : Z) : float32 := div (of_Z n) (of_Z d).

(** Exact rational value of a finite datum. *)
Definition to_Q (x : float32) : option Q :=
  match x with
  | S754_zero _ => Some 0%Q
  | S754_finite s m e =>
      let v := (inject_Z (Zpos m) * Qpower 2 e)%Q in
      Some (if s then Qopp v else v)
  | _ => None
  end.

(** [x] lies within [tol] of the decimal [q]. *)
Definition near (x : float32) (q tol : Q) : bool :=
  match to_Q x with
  | Some v => Qle_bool (Qabs (v - q)) tol
  | None => false
  end.

(** [(int) roundf(x)]: nearest integer, halves away from zero; not
    defined by the language for NaN, infinities and values outside
    the range of [int]. *)
Definition roundf_int (x : float32) : option Z :=
  match x with
  | S754_zero _ => Some 0
  | S754_finite s m e =>
      let a := if 0 <=? e then Zpos m * 2 ^ e
               else (Zpos m + 2 ^ (- e - 1)) / 2 ^ (- e) in
      if a <? 2 ^ 31 then Some (if s then - a else a) else None
  | _ => None
  end.

End F32.

Import F32.

Declare Scope f32_scope.
Delimit Scope f32_scope with f32.
Bind Scope f32_scope with float32.
Infix "+" := F32.add : f32_scope.
Infix "-" := F32.sub : f32_scope.
Infix "*" := F32.mul : f32_scope.
Infix "/" := F32.div : f32_scope.
Notation "- x" := (F32.opp x) : f32_scope.
Infix "<?" := F32.ltb : f32_scope.
Infix "<=?" := F32.leb : f32_scope.

(* ================================================================== *)
(** ** Constants of the sketch *)
(* ================================================================== *)

Definition f0 : float32 := Eval vm_compute in of_Z 0.
Definition f1 : float32 := Eval vm_compute in of_Z 1.
Definition f2 : float32 := Eval vm_compute in of_Z 2.
Definition f5 : float32 := Eval vm_compute in of_Z 5.
Definition f25 : float32 := Eval vm_compute in of_Z 25.
Definition f50 : float32 := Eval vm_compute in of_Z 50.
Definition f100 : float32 := Eval vm_compute in of_Z 100.
Definition f180 : float32 := Eval vm_compute in of_Z 180.
Definition f250 : float32 := Eval vm_compute in of_Z 250.

Definition Tm : float32 := f1.
Definition SERVO_DEG_MIN : float32 := f0.
Definition SERVO_DEG_MAX : float32 := f180.

Definition MQTT_SUB_TOPIC_KP : string := "emu/kp_set".
Definition MQTT_SUB_TOPIC_TI : string := "emu/ti_set".
Definition MQTT_SUB_TOPIC_SP : string := "emu/t_sp".
Definition MQTT_SUB_TOPIC_PV : string := "emu/t_act".

(** [unsigned long] is 32 bits wide on the target. *)
Definition ULONG_MOD : Z := 2 ^ 32.

(* ================================================================== *)
(** ** Program state *)
(* ================================================================== *)

(** Lines written to the serial console by the control functions, the
    MQTT callback and the control task, one constructor per
    [Serial.println]/[Serial.printf] call site, with the values that
    are formatted into the line. *)
Inductive serial_line : Type :=
| LogCoefError
| LogCoef (kp ti tm kpos kneg : float32)
| LogAscii (s : list byte) (v : float32)
| LogBin8 (v : float32) (len : nat)
| LogBin4 (v : float32) (len : nat)
| LogTooShort (len : nat)
| LogInvalid
| LogNewSP (v : float32)
| LogNewPV (v : float32)
| LogUnhandled (topic : string)
| LogPIReset
| LogCsv (k : Z) (t sp pv u deg : float32).

(** One retained publication of [publishState]: position, then output. *)
Record publication : Type := { pub_pos : float32; pub_u : float32 }.

Record state : Type := mkState {
  Kp : float32;
  Ti : float32;
  Kpos : float32;
  Kneg : float32;
  u_logic : float32;
  pos_deg : float32;
  temp_setpoint : float32;
  temp_actual : float32;
  error_k_1 : float32;
  sampleIndex : Z;
  initial_state_reset : bool;
  servo_angle : option Z;
  published : list publication;
  serial : list serial_line
}.

Definition set_Kp (v : float32) (s : state) : state :=
  mkState v (Ti s) (Kpos s) (Kneg s) (u_logic s) (pos_deg s)
    (temp_setpoint s) (temp_actual s) (error_k_1 s) (sampleIndex s)
    (initial_state_reset s) (servo_angle s) (published s) (serial s).

Definition set_Ti (v : float32) (s : state) : state :=
  mkState (Kp s) v (Kpos s) (Kneg s) (u_logic s) (pos_deg s)
    (temp_setpoint s) (temp_actual s) (error_k_1 s) (sampleIndex s)
    (initial_state_reset s) (servo_angle s) (published s) (serial s).

Definition set_Kpos (v : float32) (s : state) : state :=
  mkState (Kp s) (Ti s) v (Kneg s) (u_logic s) (pos_deg s)
    (temp_setpoint s) (temp_actual s) (error_k_1 s) (sampleIndex s)
    (initial_state_reset s) (servo_angle s) (published s) (serial s).

Definition set_Kneg (v : float32) (s : state) : state :=
  mkState (Kp s) (Ti s) (Kpos s) v (u_logic s) (pos_deg s)
    (temp_setpoint s) (temp_actual s) (error_k_1 s) (sampleIndex s)
    (initial_state_reset s) (servo_angle s) (published s) (serial s).

Definition set_u_logic (v : float32) (s : state) : state :=
  mkState (Kp s) (Ti s) (Kpos s) (Kneg s) v (pos_deg s)
    (temp_setpoint s) (temp_actual s) (error_k_1 s) (sampleIndex s)
    (initial_state_reset s) (servo_angle s) (published s) (serial s).

Definition set_pos_deg (v : float32) (s : state) : state :=
  mkState (Kp s) (Ti s) (Kpos s) (Kneg s) (u_logic s) v
    (temp_setpoint s) (temp_actual s) (error_k_1 s) (sampleIndex s)
    (initial_state_reset s) (servo_angle s) (published s) (serial s).

Definition set_temp_setpoint (v : float32) (s : state) : state :=
  mkState (Kp s) (Ti s) (Kpos s) (Kneg s) (u_logic s) (pos_deg s)
    v (temp_actual s) (error_k_1 s) (sampleIndex s)
    (initial_state_reset s) (servo_angle s) (published s) (serial s).

Definition set_temp_actual (v : float32) (s : state) : state :=
  mkState (Kp s) (Ti s) (Kpos s) (Kneg s) (u_logic s) (pos_deg s)
    (temp_setpoint s) v (error_k_1 s) (sampleIndex s)
    (initial_state_reset s) (servo_angle s) (published s) (serial s).

Definition set_error_k_1 (v : float32) (s : state) : state :=
  mkState (Kp s) (Ti s) (Kpos s) (Kneg s) (u_logic s) (pos_deg s)
    (temp_setpoint s) (temp_actual s) v (sampleIndex s)
    (initial_state_reset s) (servo_angle s) (published s) (serial s).

Definition set_sampleIndex (v : Z) (s : state) : state :=
  mkState (Kp s) (Ti s) (Kpos s) (Kneg s) (u_logic s) (pos_deg s)
    (temp_setpoint s) (temp_actual s) (error_k_1 s) v
    (initial_state_reset s) (servo_angle s) (published s) (serial s).

Definition set_initial_state_reset (v : bool) (s : state) : state :=
  mkState (Kp s) (Ti s) (Kpos s) (Kneg s) (u_logic s) (pos_deg s)
    (temp_setpoint s) (temp_actual s) (error_k_1 s) (sampleIndex s)
    v (servo_angle s) (published s) (serial s).

Definition set_servo_angle (v : option Z) (s : state) : state :=
  mkState (Kp s) (Ti s) (Kpos s) (Kneg s) (u_logic s) (pos_deg s)
    (temp_setpoint s) (temp_actual s) (error_k_1 s) (sampleIndex s)
    (initial_state_reset s) v (published s) (serial s).

Definition publish (p : publication) (s : state) : state :=
  mkState (Kp s) (Ti s) (Kpos s) (Kneg s) (u_logic s) (pos_deg s)
    (temp_setpoint s) (temp_actual s) (error_k_1 s) (sampleIndex s)
    (initial_state_reset s) (servo_angle s) (published s ++ [p]) (serial s).

Definition println (l : serial_line) (s : state) : state :=
  mkState (Kp s) (Ti s) (Kpos s) (Kneg s) (u_logic s) (pos_deg s)
    (temp_setpoint s) (temp_actual s) (error_k_1 s) (sampleIndex s)
    (initial_state_reset s) (servo_angle s) (published s) (serial s ++ [l]).

(* ================================================================== *)
(** ** Control functions *)
(* ================================================================== *)

(** [float scaleToDegrees(float u)] *)
Definition scaleToDegrees (u : float32) : float32 :=
  let u := if (u <? f0)%f32 then f0 else u in
  let u := if (f100 <? u)%f32 then f100 else u in
  let span := (SERVO_DEG_MAX - SERVO_DEG_MIN)%f32 in
  (SERVO_DEG_MIN + (u / f100) * span)%f32.

(** [void recalculateCoefficients()] *)
Definition recalculateCoefficients (s : state) : state :=
  if ((Ti s <=? f0)%f32 || (Kp s <=? f0)%f32)%bool then
    println LogCoefError s
  else
    let T_factor := (Tm / (f2 * Ti s))%f32 in
    let s := set_Kpos (Kp s * (f1 + T_factor))%f32 s in
    let s := set_Kneg (- Kp s * (f1 - T_factor))%f32 s in
    println (LogCoef (Kp s) (Ti s) Tm (Kpos s) (Kneg s)) s.

(** [void setServoDegrees(float deg)] *)
Definition setServoDegrees (deg : float32) (s : state) : state :=
  let deg := if (deg <? SERVO_DEG_MIN)%f32 then SERVO_DEG_MIN else deg in
  let deg := if (SERVO_DEG_MAX <? deg)%f32 then SERVO_DEG_MAX else deg in
  let s := set_pos_deg deg s in
  set_servo_angle (option_map (fun r => 180 - r) (roundf_int deg)) s.

(** [static void publishState()], on an established link. *)
Definition publishState (s : state) : state :=
  publish {| pub_pos := pos_deg s; pub_u := u_logic s |} s.

(** [void applyControl()] *)
Definition applyControl (s : state) : state :=
  let e_k := (temp_setpoint s - temp_actual s)%f32 in
  let u_new := (u_logic s + Kpos s * e_k + Kneg s * error_k_1 s)%f32 in
  let u_new := if (u_new <? f0)%f32 then f0 else u_new in
  let u_new := if (f100 <? u_new)%f32 then f100 else u_new in
  let s := set_error_k_1 e_k s in
  let s := set_u_logic u_new s in
  let deg := scaleToDegrees u_new in
  setServoDegrees deg s.

(* ================================================================== *)
(** ** Library functions used by the decoder *)
(* ================================================================== *)

(** The callback relies on the Arduino [String] class and on the C
    library: [String::trim] strips [isspace] characters at both ends,
    [String::toFloat] is [(float) atof(buffer)], and [atof] is
    [strtod]: it skips leading white space, converts the longest
    leading part of the text that spells a number (decimal, hexadecimal
    with binary exponent, [inf], [nan]) to the nearest binary64, and
    returns 0.0 when no conversion can be performed. *)
Module CLib.

Definition dprec : Z := 53.
Definition demax : Z := 1024.

Definition code (b : byte) : Z := Z.of_N (Byte.to_N b).

Definition isspace (b : byte) : bool :=
  (code b =? 32) || ((9 <=? code b) && (code b <=? 13)).

Definition isdigit (b : byte) : bool :=
  (48 <=? code b) && (code b <=? 57).

Definition digit_val (b : byte) : Z := code b - 48.

Definition hex_val (b : byte) : option Z :=
  let c := code b in
  if isdigit b then Some (c - 48)
  else if (97 <=? c) && (c <=? 102) then Some (c - 87)
  else if (65 <=? c) && (c <=? 70) then Some (c - 55)
  else None.

(** ASCII lower-casing, for the case-insensitive spellings. *)
Definition lower (b : byte) : Z :=
  let c := code b in
  if (65 <=? c) && (c <=? 90) then c + 32 else c.

Fixpoint skip_space (s : list byte) : list byte :=
  match s with
  | b :: r => if isspace b then skip_space r else s
  | [] => []
  end.

(** Reads a run of decimal digits: accumulated value, number of
    digits read, remaining text. *)
Fixpoint digits (acc cnt : Z) (s : list byte) : Z * Z * list byte :=
  match s with
  | b :: r =>
      if isdigit b then digits (10 * acc + digit_val b) (cnt + 1) r
      else (acc, cnt, s)
  | [] => (acc, cnt, [])
  end.

Fixpoint hex_digits (acc cnt : Z) (s : list byte) : Z * Z * list byte :=
  match s with
  | b :: r =>
      match hex_val b with
      | Some d => hex_digits (16 * acc + d) (cnt + 1) r
      | None => (acc, cnt, s)
      end
  | [] => (acc, cnt, [])
  end.

(** Optional sign: [true] for a minus. *)
Definition sign (s : list byte) : bool * list byte :=
  match s with
  | b :: r =>
      if code b =? 45 then (true, r)
      else if code b =? 43 then (false, r)
      else (false, s)
  | [] => (false, [])
  end.

(** Optional exponent part introduced by one of the two letters
    [lo]/[up]; it counts only when at least one digit follows. *)
Definition exponent (lo up : Z) (s : list byte) : Z :=
  match s with
  | b :: r =>
      if (code b =? lo) || (code b =? up) then
        let '(neg, r) := sign r in
        let '(v, n, _) := digits 0 0 r in
        if n =? 0 then 0 else if neg then - v else v
      else 0
  | [] => 0
  end.

(** Mantissa and decimal exponent of a decimal number, when the text
    starts with one: digits with an optional point, at least one
    digit in all, then the optional exponent. *)
Definition decimal_number (s : list byte) : option (Z * Z) :=
  let '(ip, ni, r1) := digits 0 0 s in
  let '(m, nf, r2) :=
    match r1 with
    | b :: r => if code b =? 46 then digits ip 0 r else (ip, 0, r1)
    | [] => (ip, 0, r1)
    end in
  if ni + nf =? 0 then None
  else Some (m, exponent 101 69 r2 - nf).

(** Mantissa and binary exponent of a hexadecimal number ([0x...]). *)
Definition hex_number (s : list byte) : option (Z * Z) :=
  match s with
  | z :: x :: s =>
      if (code z =? 48) && (lower x =? 120) then
        let '(ip, ni, r1) := hex_digits 0 0 s in
        let '(m, nf, r2) :=
          match r1 with
          | b :: r => if code b =? 46 then hex_digits ip 0 r else (ip, 0, r1)
          | [] => (ip, 0, r1)
          end in
        if ni + nf =? 0 then None
        else Some (m, exponent 112 80 r2 - 4 * nf)
      else None
  | _ => None
  end.

Definition spells (w : list Z) (s : list byte) : bool :=
  forallb (fun p => fst p =? lower (snd p)) (combine w s)
  && (List.length w <=? List.length s)%nat.

(** The binary64 nearest to [m * 10^e] ([m >= 0], sign apart). *)
Definition double_of_decimal (neg : bool) (m e : Z) : spec_float :=
  if m =? 0 then S754_zero neg
  else if 0 <=? e then
    binary_normalize dprec demax (cond_Zopp neg (m * 10 ^ e)) 0 neg
  else
    let '(q, e', l) := SFdiv_core_binary dprec demax m 0 (10 ^ (- e)) 0 in
    binary_round_aux dprec demax neg q e' l.

(** The binary64 nearest to [m * 2^e] ([m >= 0], sign apart). *)
Definition double_of_binary (neg : bool) (m e : Z) : spec_float :=
  binary_normalize dprec demax (cond_Zopp neg m) e neg.

(** [strtod], value only. *)
Definition strtod (s : list byte) : spec_float :=
  let '(neg, r) := sign (skip_space s) in
  match hex_number r with
  | Some (m, e) => double_of_binary neg m e
  | None =>
      match decimal_number r with
      | Some (m, e) => double_of_decimal neg m e
      | None =>
          if spells [105; 110; 102] r then S754_infinity neg
          else if spells [110; 97; 110] r then S754_nan
          else S754_zero false
      end
  end.

Definition atof (s : list byte) : spec_float := strtod s.

(** Conversion [(float) d] of a binary64 to binary32. *)
Definition double_to_float (d : spec_float) : float32 :=
  match d with
  | S754_finite s m e => binary_round F32.prec F32.emax s m e
  | _ => d
  end.

Fixpoint drop_space_end (s : list byte) : list byte :=
  match s with
  | b :: r =>
      match drop_space_end r with
      | [] => if isspace b then [] else [b]
      | r' => b :: r'
      end
  | [] => []
  end.

(** [String::trim] *)
Definition trim (s : list byte) : list byte :=
  drop_space_end (skip_space s).

(** [String::toFloat] *)
Definition toFloat (s : list byte) : float32 := double_to_float (atof s).

(** Little-endian integer held by a run of bytes. *)
Fixpoint le_int (bs : list byte) : Z :=
  match bs with
  | b :: r => code b + 256 * le_int r
  | [] => 0
  end.

(** The IEEE-754 datum with [mw] fraction bits and [ew] exponent
    bits encoded by the integer [x]. *)
Definition of_bits (mw ew : Z) (x : Z) : spec_float :=
  let frac := x mod 2 ^ mw in
  let biased := (x / 2 ^ mw) mod 2 ^ ew in
  let neg := Z.testbit x (mw + ew) in
  let bias := 2 ^ (ew - 1) - 1 in
  if biased =? 0 then
    match frac with
    | Zpos m => S754_finite neg m (1 - bias - mw)
    | _ => S754_zero neg
    end
  else if biased =? 2 ^ ew - 1 then
    if frac =? 0 then S754_infinity neg else S754_nan
  else
    match frac + 2 ^ mw with
    | Zpos m => S754_finite neg m (biased - bias - mw)
    | _ => S754_nan
    end.

(** [memcpy (&d, payload, 8)] into a [double], and
    [memcpy (&f, payload, 4)] into a [float] (little-endian target). *)
Definition double_of_bytes (bs : list byte) : spec_float :=
  of_bits 52 11 (le_int (firstn 8 bs)).

Definition float_of_bytes (bs : list byte) : float32 :=
  of_bits 23 8 (le_int (firstn 4 bs)).

End CLib.

(* ================================================================== *)
(** ** MQTT callback *)
(* ================================================================== *)

(** The character test of the scan loop: a digit, or one of
    [. - + e E] and the space. *)
Definition numeric_char (b : byte) : bool :=
  let c := CLib.code b in
  CLib.isdigit b || (c =? 46) || (c =? 45) || (c =? 43)
  || (c =? 101) || (c =? 69) || (c =? 32).

(** The flag [isAsciiNumber] after the scan of the first
    [min(length, 64)] bytes. *)
Definition isAsciiNumber (payload : list byte) : bool :=
  forallb numeric_char (firstn 64 payload).

(** The first part of the callback: the decoded value and the line
    logged, or nothing when the payload is too short. *)
Definition decode (payload : list byte) : option float32 * serial_line :=
  let len := List.length payload in
  if isAsciiNumber payload then
    let s := CLib.trim payload in
    let value := CLib.toFloat s in
    (Some value, LogAscii s value)
  else if (8 <=? len)%nat then
    let value := CLib.double_to_float (CLib.double_of_bytes payload) in
    (Some value, LogBin8 value len)
  else if (4 <=? len)%nat then
    let value := CLib.float_of_bytes payload in
    (Some value, LogBin4 value len)
  else (None, LogTooShort len).

(** The second part: what is done with a decoded value. *)
Definition dispatch (topic : string) (value : float32) (s : state) : state :=
  if negb (isfinite value) then println LogInvalid s
  else if String.eqb topic MQTT_SUB_TOPIC_KP then
    if (f0 <? value)%f32 then recalculateCoefficients (set_Kp value s) else s
  else if String.eqb topic MQTT_SUB_TOPIC_TI then
    if (f0 <? value)%f32 then recalculateCoefficients (set_Ti value s) else s
  else if String.eqb topic MQTT_SUB_TOPIC_SP then
    println (LogNewSP value) (set_temp_setpoint value s)
  else if String.eqb topic MQTT_SUB_TOPIC_PV then
    println (LogNewPV value) (set_temp_actual value s)
  else println (LogUnhandled topic) s.

(** [static void mqttCallback(char* topic, byte* payload, unsigned int length)] *)
Definition mqttCallback (topic : string) (payload : list byte) (s : state) : state :=
  match decode payload with
  | (Some value, line) => dispatch topic value (println line s)
  | (None, line) => println line s
  end.

(* ================================================================== *)
(** ** Control task and start-up *)
(* ================================================================== *)

(** The block of [control_task] guarded by
    [sampleIndex == 5 && !initial_state_reset]. *)
Definition pi_reset (s : state) : state :=
  let s := println LogPIReset s in
  let s := set_u_logic f50 s in
  let s := set_error_k_1 f0 s in
  let s := set_initial_state_reset true s in
  set_temp_actual (temp_setpoint s) s.

(** The rest of a period with the link up: control step, publication,
    CSV line, sample counter. *)
Definition control_body (s : state) : state :=
  let s := applyControl s in
  let s := publishState s in
  let k := sampleIndex s in
  let s := set_sampleIndex ((k + 1) mod ULONG_MOD) s in
  let t := (of_Z k * Tm)%f32 in
  println (LogCsv k t (temp_setpoint s) (temp_actual s) (u_logic s) (pos_deg s)) s.

(** One iteration of the loop of [control_task], after the wake-up;
    [link] is the value of
    [WiFi.status() == WL_CONNECTED && mqtt.connected()]. *)
Definition control_step (link : bool) (s : state) : state :=
  if link then
    let s := if (sampleIndex s =? 5) && negb (initial_state_reset s)
             then pi_reset s else s in
    control_body s
  else s.

(** [control_task] run for as many periods as [links] has entries. *)
Definition control_task (links : list bool) (s : state) : state :=
  fold_left (fun s link => control_step link s) links s.

(** The globals as initialised at load time. *)
Definition globals : state :=
  mkState f5 f250 f0 f0 f25 f0 f25 f25 f0 0 false None [] [].

(** The part of [setup()] that touches the controller. *)
Definition setup (s : state) : state :=
  let s := recalculateCoefficients s in
  let deg0 := scaleToDegrees (u_logic s) in
  setServoDegrees deg0 s.

Definition initial : state := setup globals.

(** What the two tasks do to the shared globals, in the order in which
    it happens: a control period, or a message handed to the callback. *)
Inductive event : Type :=
| Period (link : bool)
| Message (topic : string) (payload : list byte).

Definition step (s : state) (ev : event) : state :=
  match ev with
  | Period link => control_step link s
  | Message topic payload => mqttCallback topic payload s
  end.

Definition run (evs : list event) (s : state) : state := fold_left step evs s.

(** Number of periods of a run in which the link was up. *)
Definition periods_up (evs : list event) : Z :=
  Z.of_nat (List.length (filter (fun ev => match ev with Period true => true | _ => false end) evs)).

Definition is_reset_line (l : serial_line) : bool :=
  match l with LogPIReset => true | _ => false end.

(** Number of times the warm-start block has run, read off the console. *)
Definition resets (s : state) : Z :=
  Z.of_nat (List.length (filter is_reset_line (serial s))).

Definition bytes (s : string) : list byte := list_byte_of_string s.

(* ================================================================== *)
(** ** LED *)
(* ================================================================== *)

Definition RGB_BRIGHTNESS : Z := 64.

(** Conversion of an integer argument to [uint8_t]. *)
Definition uint8 (x : Z) : Z := x mod 256.

(** [volatile uint32_t current_color] and the level last written to the
    pin of the LED ([true] for HIGH). *)
Record led : Type := mkLed { current_color : Z; led_pin : bool }.

(** [void setLedColor(uint8_t r, uint8_t g, uint8_t b)] *)
Definition setLedColor (r g b : Z) (l : led) : led :=
  let r := uint8 r in
  let g := uint8 g in
  let b := uint8 b in
  let on := negb (r =? 0) || negb (g =? 0) || negb (b =? 0) in
  mkLed (Z.lor (Z.lor (Z.shiftl r 16) (Z.shiftl g 8)) b) on.

(** The three bytes [r_prev], [g_prev], [b_prev] that [control_task]
    reads out of [current_color] before the control step. *)
Definition saved_color (l : led) : Z * Z * Z :=
  (uint8 (Z.land (Z.shiftr (current_color l) 16) 255),
   uint8 (Z.land (Z.shiftr (current_color l) 8) 255),
   uint8 (Z.land (current_color l) 255)).

(** The activity pulse at the end of a period of [control_task]: the
    LED during the pause, and after it. *)
Definition led_pulse (l : led) : led * led :=
  let '(r_prev, g_prev, b_prev) := saved_color l in
  let during := setLedColor 0 0 RGB_BRIGHTNESS l in
  (during, setLedColor r_prev g_prev b_prev during).

(* ================================================================== *)
(** ** Communication task *)
(* ================================================================== *)

(** [millis()]: the time since start-up in milliseconds, as a 32-bit
    unsigned number. *)
Definition millis (t : Z) : Z := t mod 2 ^ 32.

(** The two locals of [mqtt_task]. *)
Record comms : Type := mkComms { lastPrint : Z; lastReconnect : Z }.

(** The status code of an established WiFi connection. *)
Definition WL_CONNECTED : Z := 3.

(** What one iteration of the loop of [mqtt_task] reads: the WiFi
    status, the state of the MQTT link, and the time, in milliseconds
    since start-up, at each of its four calls of [millis()] (a call
    that is not made leaves its reading unused). *)
Record tick : Type := mkTick {
  wifi_status : Z;
  mqtt_connected : bool;
  t_print : Z;
  t_print_set : Z;
  t_retry : Z;
  t_retry_set : Z
}.

(** What one iteration does, in program order: [setLedColor], the two
    console lines, [WiFi.reconnect()], [connectMQTT()], [mqtt.loop()]. *)
Inductive comms_action : Type :=
| DoLed (r g b : Z)
| DoLogNoWifi (st : Z)
| DoLogRetry
| DoReconnect
| DoConnectMQTT
| DoLoop.

(** One iteration of the loop of [mqtt_task], up to the final delay. *)
Definition mqtt_task_step (k : tick) (c : comms) : list comms_action * comms :=
  if negb (wifi_status k =? WL_CONNECTED) then
    let p := 2000 <? (millis (t_print k) - lastPrint c) mod 2 ^ 32 in
    let c := if p then mkComms (millis (t_print_set k)) (lastReconnect c) else c in
    let r := 5000 <? (millis (t_retry k) - lastReconnect c) mod 2 ^ 32 in
    let c' := if r then mkComms (lastPrint c) (millis (t_retry_set k)) else c in
    (DoLed RGB_BRIGHTNESS 0 0
       :: (if p then [DoLogNoWifi (wifi_status k)] else [])
       ++ (if r then [DoLogRetry; DoReconnect] else []),
     c')
  else
    (DoLed 0 RGB_BRIGHTNESS 0
       :: (if mqtt_connected k then [] else [DoConnectMQTT]) ++ [DoLoop],
     c).

(** The loop of [mqtt_task] run over the readings of as many
    iterations: what each iteration did. *)
Fixpoint mqtt_task (ks : list tick) (c : comms) : list (tick * list comms_action) :=
  match ks with
  | [] => []
  | k :: r =>
      let '(acts, c') := mqtt_task_step k c in
      (k, acts) :: mqtt_task r c'
  end.

(** A call of [WiFi.reconnect()]. *)

(* ================================================================== *)
(** ** Definitions that follow the wording of the design document *)
(* ================================================================== *)

(** Tustin coefficients, as the formula is written. *)
Definition tustin_b0 (gain integralTime : float32) : float32 :=
  (gain * (f1 + Tm / (f2 * integralTime)))%f32.

Definition tustin_b1 (gain integralTime : float32) : float32 :=
  (- gain * (f1 - Tm / (f2 * integralTime)))%f32.

(** [clamp(x, lo, hi)] *)
Definition clamp (x lo hi : float32) : float32 :=
  if (x <? lo)%f32 then lo else if (hi <? x)%f32 then hi else x.

(** The linear map to degrees, as the formula is written. *)
Definition degrees_of (u : float32) : float32 :=
  (SERVO_DEG_MIN + (u / f100) * (SERVO_DEG_MAX - SERVO_DEG_MIN))%f32.

(** The state of the worked scenario: b0 = 5.01, b1 = -4.99,
    setpoint 30, process variable 25, output 50, previous error 0. *)
Definition scenario : state :=
  mkState f5 f250 (decimal 501 100) (- decimal 499 100)%f32 f50 f0
    (of_Z 30) f25 f0 0 false None [] [].

(** The eight bytes of the binary64 12.0 (0x4028000000000000), least
    significant byte first. *)
Definition double_12 : list byte :=
  [Byte.x00; Byte.x00; Byte.x00; Byte.x00; Byte.x00; Byte.x00; Byte.x28; Byte.x40].

(** A character of the decoder's class that is not a digit. *)
Definition non_digit_char (b : byte) : bool :=
  numeric_char b && negb (CLib.isdigit b).

(** The range [0, 100] of the logical output. *)
Definition in_range (u : float32) : bool := (f0 <=? u)%f32 && (u <=? f100)%f32.

(** The decoder leaves every controller variable as it was. *)
Definition same_fields (s s' : state) : Prop :=
  Kp s' = Kp s /\ Ti s' = Ti s /\ Kpos s' = Kpos s /\ Kneg s' = Kneg s /\
  temp_setpoint s' = temp_setpoint s /\ temp_actual s' = temp_actual s /\
  u_logic s' = u_logic s /\ error_k_1 s' = error_k_1 s /\
  pos_deg s' = pos_deg s /\ sampleIndex s' = sampleIndex s /\
  initial_state_reset s' = initial_state_reset s.

(** The value of [u_new] in [applyControl] before saturation. *)
Definition raw_output (s : state) : float32 :=
  (u_logic s + Kpos s * (temp_setpoint s - temp_actual s) + Kneg s * error_k_1 s)%f32.

(** The controller memory: the fields written by the control task only. *)
Definition same_memory (s s' : state) : Prop :=
  u_logic s' = u_logic s /\ error_k_1 s' = error_k_1 s
  /\ sampleIndex s' = sampleIndex s
  /\ initial_state_reset s' = initial_state_reset s
  /\ resets s' = resets s.

(** A well-formed state: every [float] global holds a binary32 datum. *)
Definition wf_state (s : state) : bool :=
  valid (Kp s) && valid (Ti s) && valid (Kpos s) && valid (Kneg s)
  && valid (u_logic s) && valid (pos_deg s) && valid (temp_setpoint s)
  && valid (temp_actual s) && valid (error_k_1 s).

(** ** Definitions used to state the properties of a run *)

(** The tuning is sound: gain and integral time are finite and above
    zero, and the stored coefficients are the ones computed from them. *)
Definition tuned (s : state) : Prop :=
  isfinite (Kp s) = true /\ (f0 <? Kp s)%f32 = true
  /\ isfinite (Ti s) = true /\ (f0 <? Ti s)%f32 = true
  /\ Kpos s = tustin_b0 (Kp s) (Ti s) /\ Kneg s = tustin_b1 (Kp s) (Ti s).

(** The variables written by the control task and the servo only. *)
Definition same_actuator (s s' : state) : Prop :=
  u_logic s' = u_logic s /\ error_k_1 s' = error_k_1 s
  /\ pos_deg s' = pos_deg s /\ servo_angle s' = servo_angle s
  /\ published s' = published s /\ sampleIndex s' = sampleIndex s
  /\ initial_state_reset s' = initial_state_reset s.

(** The servo follows the output: the stored position is the output
    mapped to degrees, and the angle written to the servo is 180 minus
    the position rounded to an integer. *)
Definition actuator_coherent (s : state) : Prop :=
  pos_deg s = scaleToDegrees (u_logic s)
  /\ servo_angle s = option_map (fun r => 180 - r) (roundf_int (pos_deg s)).

(** Setpoint and process variable hold finite numbers. *)
Definition finite_inputs (s : state) : Prop :=
  isfinite (temp_setpoint s) = true /\ isfinite (temp_actual s) = true.

(** One row of the CSV log: [k,t,SP,PV,U_logic,Deg]. *)
Record csv_row : Type := {
  row_k : Z; row_t : float32; row_sp : float32;
  row_pv : float32; row_u : float32; row_deg : float32
}.

(** The row printed by a console line, if it is one of the log. *)
Definition csv_of_line (l : serial_line) : list csv_row :=
  match l with
  | LogCsv k t sp pv u deg => [Build_csv_row k t sp pv u deg]
  | _ => []
  end.

(** The rows of the CSV log, read off the console. *)
Definition csv_rows (s : state) : list csv_row := flat_map csv_of_line (serial s).

(** A line that only the MQTT callback and the coefficient engine print. *)
Definition message_line (l : serial_line) : bool :=
  match l with
  | LogPIReset | LogCsv _ _ _ _ _ _ => false
  | _ => true
  end.

(** The error line of [recalculateCoefficients]. *)
Definition is_coef_error (l : serial_line) : bool :=
  match l with LogCoefError => true | _ => false end.

(** The datum [x] is the integer [k], exactly. *)
Definition is_integer (x : float32) (k : Z) : Prop :=
  match x with
  | S754_zero _ => k = 0
  | S754_finite false m e => Z.pos m * 2 ^ Z.max e 0 = k * 2 ^ Z.max (- e) 0
  | _ => False
  end.

(** The number written by a run of decimal digits. *)
Definition decimal_value (s : list byte) : Z :=
  fold_left (fun acc b => 10 * acc + CLib.digit_val b) s 0.

(** The LED as [setLedColor] leaves it: a colour of three bytes, and
    the pin high exactly when the colour is not black. *)
Definition led_wf (l : led) : Prop :=
  0 <= current_color l < 2 ^ 24 /\ led_pin l = negb (current_color l =? 0).

Definition is_reconnect (a : comms_action) : bool :=
  match a with DoReconnect => true | _ => false end.

(** The readings of the clock are in the order of the calls, from the
    time [t0] on. *)
Fixpoint chronological (t0 : Z) (ks : list tick) : bool :=
  match ks with
  | [] => true
  | k :: r =>
      (t0 <=? t_print k) && (t_print k <=? t_print_set k)
      && (t_print_set k <=? t_retry k) && (t_retry k <=? t_retry_set k)
      && chronological (t_retry_set k) r
  end.

(* ================================================================== *)
(** ** Integer reading of the rounding steps *)
(* ================================================================== *)

(** The proofs about rounding read the intermediate results of
    [binary_round_aux] as integers.  A truncated mantissa [m] with its
    location (exact, below, at or above the midpoint of the next unit)
    is the number [4 m + c], [c] in [0..3]: an order-preserving code of
    the real number that is being rounded. *)
Definition loc_code (l : location) : Z :=
  match l with
  | loc_Exact => 0
  | loc_Inexact Lt => 1
  | loc_Inexact Eq => 2
  | loc_Inexact Gt => 3
  end.

Definition rec_code (r : shr_record) : Z :=
  4 * shr_m r + (if shr_r r then 2 else 0) + (if shr_s r then 1 else 0).

(** One right shift of a mantissa with round and sticky bits, on the
    code: halving with rounding to odd. *)
Definition ro_half (t : Z) : Z := 2 * (t / 4) + (if t mod 4 =? 0 then 0 else 1).

Definition ro_shift (n : nat) (t : Z) : Z := Nat.iter n ro_half t.

(** Rounding to nearest, ties to even, of a code to a mantissa. *)
Definition rne_code (t : Z) : Z := (t + 1 + (t / 4) mod 2) / 4.

(** Last step of [binary_round_aux]: zero, overflow to infinity, or the
    finite datum. *)
Definition sf_final (prec emax : Z) (s : bool) (m e : Z) : spec_float :=
  match m with
  | Z0 => S754_zero s
  | Zpos p => if e <=? emax - prec then S754_finite s p e else S754_infinity s
  | Zneg _ => S754_nan
  end.

(** Code of the quotient [a / c] with the location of its remainder. *)
Definition div_code (c a : Z) : Z := 4 * (a / c) + loc_code (new_location c (a mod c)).

(** The sign of a datum that is not a NaN. *)
Definition sign_is (s : bool) (x : spec_float) : Prop :=
  match x with
  | S754_zero s' | S754_infinity s' | S754_finite s' _ _ => s' = s
  | S754_nan => False
  end.

(* ================================================================== *)
(** * Properties of rounding *)
(* ================================================================== *)

Lemma digits2_pos_size p : digits2_pos p = Pos.size p.
Proof. induction p; simpl; congruence. Qed.

Lemma Zdigits2_log2 m : 0 < m -> Zdigits2 m = Z.log2 m + 1.
Proof.
  destruct m as [|p|p]; try lia. intros _. simpl.
  destruct p; simpl; rewrite ?digits2_pos_size; lia.
Qed.

Lemma Zdigits2_nonneg m : 0 <= Zdigits2 m.
Proof. destruct m; simpl; lia. Qed.

Lemma Zdigits2_bounds m : 0 < m -> 2 ^ (Zdigits2 m - 1) <= m < 2 ^ Zdigits2 m.
Proof.
  intros H. rewrite Zdigits2_log2 by assumption.
  replace (Z.log2 m + 1 - 1) with (Z.log2 m) by lia.
  replace (Z.log2 m + 1) with (Z.succ (Z.log2 m)) by lia.
  apply Z.log2_spec; assumption.
Qed.

Lemma Zdigits2_lt_pow m d : 0 <= m -> 0 <= d -> m < 2 ^ d -> Zdigits2 m <= d.
Proof.
  intros Hm Hd H. destruct (Z.eq_dec m 0) as [->|Hn]; [simpl; lia|].
  assert (0 < m) by lia.
  destruct (Z.le_gt_cases (Zdigits2 m) d) as [|Hgt]; [assumption|].
  pose proof (Zdigits2_bounds m H0) as [Hlo _].
  assert (2 ^ d <= 2 ^ (Zdigits2 m - 1)) by (apply Z.pow_le_mono_r; lia).
  lia.
Qed.

Lemma Zdigits2_ge_pow m d : 0 <= d -> 2 ^ d <= m -> d + 1 <= Zdigits2 m.
Proof.
  intros Hd H.
  assert (0 < 2 ^ d) by (apply Z.pow_pos_nonneg; lia).
  assert (0 < m) by lia.
  destruct (Z.le_gt_cases (d + 1) (Zdigits2 m)) as [|Hlt]; [assumption|].
  pose proof (Zdigits2_bounds m H1) as [_ Hhi].
  pose proof (Zdigits2_nonneg m).
  assert (2 ^ Zdigits2 m <= 2 ^ d) by (apply Z.pow_le_mono_r; lia).
  lia.
Qed.

Lemma Zdigits2_le m1 m2 : 0 <= m1 <= m2 -> Zdigits2 m1 <= Zdigits2 m2.
Proof.
  intros [H1 H2]. destruct (Z.eq_dec m1 0) as [->|Hn].
  - apply Zdigits2_nonneg.
  - rewrite !Zdigits2_log2 by lia. pose proof (Z.log2_le_mono m1 m2 H2). lia.
Qed.

(** shr_1 in terms of codes *)
Lemma rec_code_shr_1 r : 0 <= shr_m r -> rec_code (shr_1 r) = ro_half (rec_code r).
Proof.
  destruct r as [m rb sb]. unfold rec_code, ro_half. intros Hm. cbn [shr_m] in Hm.
  destruct m as [|p|p]; [| |lia].
  - destruct rb, sb; reflexivity.
  - destruct p as [p|p|]; destruct rb, sb; cbn [shr_1 shr_m shr_r shr_s orb];
      match goal with |- context [?a / 4] =>
        destruct (Z.eqb_spec (a mod 4) 0); Z.div_mod_to_equations; lia
      end.
Qed.

Lemma shr_m_shr_1 r : 0 <= shr_m r -> 0 <= shr_m (shr_1 r).
Proof.
  destruct r as [m rb sb]. cbn [shr_m]. destruct m as [|p|p]; try lia; intros _.
  - simpl; lia.
  - destruct p; simpl; lia.
Qed.

Lemma rec_code_m r : rec_code r / 4 = shr_m r.
Proof.
  unfold rec_code. destruct (shr_r r), (shr_s r); Z.div_mod_to_equations; lia.
Qed.

Lemma ro_half_mono t1 t2 : t1 <= t2 -> ro_half t1 <= ro_half t2.
Proof.
  intros H. unfold ro_half.
  destruct (Z.eqb_spec (t1 mod 4) 0), (Z.eqb_spec (t2 mod 4) 0);
    Z.div_mod_to_equations; lia.
Qed.

Lemma ro_half_div4 t : ro_half t / 4 = t / 4 / 2.
Proof.
  unfold ro_half. destruct (Z.eqb_spec (t mod 4) 0); Z.div_mod_to_equations; lia.
Qed.

Lemma ro_shift_mono n t1 t2 : t1 <= t2 -> ro_shift n t1 <= ro_shift n t2.
Proof.
  intros H. induction n; simpl; [assumption|]. apply ro_half_mono, IHn.
Qed.

Lemma ro_shift_div4 n t : ro_shift n t / 4 = t / 4 / 2 ^ Z.of_nat n.
Proof.
  induction n.
  - simpl. rewrite Z.div_1_r. reflexivity.
  - change (ro_shift (S n) t) with (ro_half (ro_shift n t)). rewrite ro_half_div4, IHn.
    rewrite Nat2Z.inj_succ, Z.pow_succ_r by lia.
    rewrite Z.div_div by (try apply Z.pow_pos_nonneg; lia).
    f_equal. lia.
Qed.

Lemma ro_shift_add a b t : ro_shift (a + b) t = ro_shift a (ro_shift b t).
Proof. unfold ro_shift. induction a; simpl; congruence. Qed.

Lemma ro_shift_succ_r n t : ro_shift (S n) t = ro_shift n (ro_half t).
Proof.
  replace (S n) with (n + 1)%nat by lia. rewrite ro_shift_add. reflexivity.
Qed.

Lemma ro_shift_exact k m : ro_shift k (4 * (m * 2 ^ Z.of_nat k)) = 4 * m.
Proof.
  revert m. induction k; intros m.
  - change (ro_shift 0 (4 * (m * 2 ^ Z.of_nat 0))) with (4 * (m * 2 ^ 0)).
    rewrite Z.pow_0_r. lia.
  - rewrite ro_shift_succ_r.
    rewrite Nat2Z.inj_succ, Z.pow_succ_r by lia.
    replace (ro_half (4 * (m * (2 * 2 ^ Z.of_nat k)))) with (4 * (m * 2 ^ Z.of_nat k)).
    + apply IHk.
    + unfold ro_half. set (a := m * 2 ^ Z.of_nat k).
      replace (4 * (m * (2 * 2 ^ Z.of_nat k))) with (4 * (2 * a)) by (unfold a; lia).
      destruct (Z.eqb_spec ((4 * (2 * a)) mod 4) 0); Z.div_mod_to_equations; lia.
Qed.

Lemma iter_pos_nat {A} (f : A -> A) p x : iter_pos f p x = Nat.iter (Pos.to_nat p) f x.
Proof.
  revert x. induction p; intros x; cbn [iter_pos].
  - rewrite !IHp. rewrite Pos2Nat.inj_xI.
    replace (S (2 * Pos.to_nat p)) with (Pos.to_nat p + (Pos.to_nat p + 1))%nat by lia.
    rewrite !Nat.iter_add. reflexivity.
  - rewrite !IHp. rewrite Pos2Nat.inj_xO.
    replace (2 * Pos.to_nat p)%nat with (Pos.to_nat p + Pos.to_nat p)%nat by lia.
    rewrite Nat.iter_add. reflexivity.
  - reflexivity.
Qed.

Lemma rec_code_iter n r :
0 <= shr_m r ->
rec_code (Nat.iter n shr_1 r) = ro_shift n (rec_code r) /\ 0 <= shr_m (Nat.iter n shr_1 r).
Proof.
  intros H. induction n; simpl.
  - split; [reflexivity|assumption].
  - destruct IHn as [IH1 IH2]. split.
    + rewrite rec_code_shr_1 by assumption. rewrite IH1. reflexivity.
    + apply shr_m_shr_1; assumption.
Qed.

Lemma rec_code_of_loc m l : rec_code (shr_record_of_loc m l) = 4 * m + loc_code l.
Proof. destruct l as [|[| |]]; unfold rec_code; simpl; lia. Qed.

Lemma shr_m_of_loc m l : shr_m (shr_record_of_loc m l) = m.
Proof. destruct l as [|[| |]]; reflexivity. Qed.

Lemma rne_code_spec r : round_nearest_even (shr_m r) (loc_of_shr_record r) = rne_code (rec_code r).
Proof.
  destruct r as [m rb sb]. unfold rne_code, rec_code. cbn [shr_m shr_r shr_s].
  destruct rb, sb; cbn [loc_of_shr_record round_nearest_even];
    rewrite ?Z.even_spec; try (Z.div_mod_to_equations; lia).
  rewrite Zeven_mod. destruct (Z.eqb_spec (m mod 2) 0); Z.div_mod_to_equations; lia.
Qed.

Lemma rne_code_mono t1 t2 : t1 <= t2 -> rne_code t1 <= rne_code t2.
Proof. unfold rne_code. intros. Z.div_mod_to_equations. lia. Qed.

Lemma rne_code_bounds t : t / 4 <= rne_code t <= t / 4 + 1.
Proof. unfold rne_code. Z.div_mod_to_equations. lia. Qed.

Lemma shr_spec r e n :
0 <= shr_m r -> 0 <= n ->
rec_code (fst (shr r e n)) = ro_shift (Z.to_nat n) (rec_code r)
/\ snd (shr r e n) = e + n /\ 0 <= shr_m (fst (shr r e n)).
Proof.
  intros Hm Hn. destruct n as [|p|p]; [| |lia].
  - simpl. repeat split; [lia|assumption].
  - cbn [shr fst snd]. rewrite iter_pos_nat.
    destruct (rec_code_iter (Pos.to_nat p) r Hm) as [H1 H2].
    change (Z.to_nat (Z.pos p)) with (Pos.to_nat p). auto.
Qed.

Lemma shr_nop r e n : n <= 0 -> shr r e n = (r, e).
Proof. destruct n; try reflexivity. lia. Qed.

Section Round.
Variables prec emax : Z.
Hypothesis Hprec : 0 < prec.

Abbreviation emin := (emin prec emax).
Abbreviation fexp := (fexp prec emax).

Lemma fexp_ge_emin x : emin <= fexp x.
Proof. unfold SpecFloat.fexp. lia. Qed.

Lemma fexp_mono x y : x <= y -> fexp x <= fexp y.
Proof. unfold SpecFloat.fexp. lia. Qed.

(** Mantissa after the first shift has at most [prec] digits. *)
Lemma shifted_lt m e :
  0 <= m -> e <= fexp (Zdigits2 m + e) ->
  m / 2 ^ (fexp (Zdigits2 m + e) - e) < 2 ^ prec.
Proof.
  intros Hm Hpre. set (n := fexp (Zdigits2 m + e) - e).
  assert (Hn : 0 <= n) by (unfold n; lia).
  assert (H2n : 0 < 2 ^ n) by (apply Z.pow_pos_nonneg; lia).
  apply Z.div_lt_upper_bound; [assumption|].
  rewrite <- Z.pow_add_r by lia.
  destruct (Z.eq_dec m 0) as [->|Hne].
  - apply Z.pow_pos_nonneg; lia.
  - pose proof (Zdigits2_bounds m ltac:(lia)) as [_ Hhi].
    eapply Z.lt_le_trans; [exact Hhi|].
    apply Z.pow_le_mono_r; [lia|]. unfold n, SpecFloat.fexp. lia.
Qed.

Lemma shifted_ge m e :
  0 < m -> emin < fexp (Zdigits2 m + e) -> e <= fexp (Zdigits2 m + e) ->
  2 ^ (prec - 1) <= m / 2 ^ (fexp (Zdigits2 m + e) - e).
Proof.
  intros Hm Hnorm Hpre. set (n := fexp (Zdigits2 m + e) - e).
  assert (Hn : 0 <= n) by (unfold n; lia).
  assert (H2n : 0 < 2 ^ n) by (apply Z.pow_pos_nonneg; lia).
  assert (Hd : Zdigits2 m = n + prec) by (unfold n, SpecFloat.fexp in *; lia).
  apply Z.div_le_lower_bound; [assumption|].
  rewrite <- Z.pow_add_r by lia.
  pose proof (Zdigits2_bounds m Hm) as [Hlo _].
  replace (n + (prec - 1)) with (Zdigits2 m - 1) by lia. exact Hlo.
Qed.

Lemma bra_spec s m e l :
  0 <= m -> e <= fexp (Zdigits2 m + e) ->
  let E := fexp (Zdigits2 m + e) in
  let r := rne_code (ro_shift (Z.to_nat (E - e)) (4 * m + loc_code l)) in
  binary_round_aux prec emax s m e l =
    (if r <? 2 ^ prec then sf_final prec emax s r E
     else sf_final prec emax s (2 ^ (prec - 1)) (E + 1))
  /\ 0 <= r <= 2 ^ prec
  /\ (emin < E -> 0 < m -> 2 ^ (prec - 1) <= r).
Proof.
  intros Hm Hpre E r.
  assert (HE : emin <= E) by apply fexp_ge_emin.
  assert (Hn : 0 <= E - e) by (unfold E; lia).
  set (t := ro_shift (Z.to_nat (E - e)) (4 * m + loc_code l)) in *.
  assert (Ht4 : t / 4 = m / 2 ^ (E - e)).
  { unfold t. rewrite ro_shift_div4, Z2Nat.id by lia.
    f_equal. destruct l as [|[| |]]; cbn [loc_code]; Z.div_mod_to_equations; lia. }
  pose proof (rne_code_bounds t) as Hrb. fold r in Hrb.
  pose proof (shifted_lt m e Hm Hpre) as Hlt. fold E in Hlt.
  assert (H0 : 0 <= m / 2 ^ (E - e)).
  { apply Z.div_pos; [lia|]. apply Z.pow_pos_nonneg; lia. }
  assert (Hr : 0 <= r <= 2 ^ prec) by lia.
  assert (Hlow : emin < E -> 0 < m -> 2 ^ (prec - 1) <= r).
  { intros Hnorm Hpos. pose proof (shifted_ge m e Hpos Hnorm Hpre). fold E in H. lia. }
  split; [|split; assumption].
  unfold binary_round_aux, shr_fexp. fold E.
  pose proof (shr_spec (shr_record_of_loc m l) e (E - e)) as Hs1.
  rewrite shr_m_of_loc, rec_code_of_loc in Hs1. specialize (Hs1 Hm Hn).
  destruct (shr (shr_record_of_loc m l) e (E - e)) as [mrs' e'] eqn:Hshr1.
  cbn [fst snd] in Hs1. destruct Hs1 as (Hc1 & He1 & Hm1).
  rewrite rne_code_spec, Hc1. fold t. fold r.
  replace e' with E by lia.
  assert (H2p : 0 < 2 ^ (prec - 1)) by (apply Z.pow_pos_nonneg; lia).
  assert (H2pp : 2 ^ prec = 2 * 2 ^ (prec - 1)).
  { replace prec with (Z.succ (prec - 1)) at 1 by lia. apply Z.pow_succ_r. lia. }
  destruct (Z.ltb_spec r (2 ^ prec)) as [Hlt2|Hge2].
  - (* no renormalisation *)
    assert (Hd : Zdigits2 r <= prec) by (apply Zdigits2_lt_pow; lia).
    rewrite shr_nop by (unfold SpecFloat.fexp in *; lia).
    rewrite shr_m_of_loc. reflexivity.
  - assert (Hr2 : r = 2 ^ prec) by lia.
    assert (Hd : Zdigits2 r = prec + 1).
    { apply Z.le_antisymm.
      - apply Zdigits2_lt_pow; [lia|lia|]. rewrite Hr2.
        apply Z.pow_lt_mono_r; lia.
      - apply Zdigits2_ge_pow; lia. }
    rewrite Hd.
    replace (fexp (prec + 1 + E) - E) with 1 by (unfold SpecFloat.fexp in *; lia).
    pose proof (shr_spec (shr_record_of_loc r loc_Exact) E 1) as Hs2.
    rewrite shr_m_of_loc, rec_code_of_loc in Hs2.
    specialize (Hs2 ltac:(lia) ltac:(lia)).
    destruct (shr (shr_record_of_loc r loc_Exact) E 1) as [mrs'' e''] eqn:Hshr2.
    cbn [fst snd] in Hs2. destruct Hs2 as (Hc2 & He2 & Hm2).
    assert (Hmm : shr_m mrs'' = 2 ^ (prec - 1)).
    { rewrite <- rec_code_m, Hc2. change (Z.to_nat 1) with 1%nat.
      change (ro_shift 1 (4 * r + loc_code loc_Exact)) with (ro_half (4 * r + 0)).
      rewrite ro_half_div4. rewrite Hr2, H2pp.
      Z.div_mod_to_equations. lia. }
    rewrite Hmm, He2. reflexivity.
Qed.

Lemma sf_final_valid s r E :
  0 <= r -> (0 < r -> fexp (Zdigits2 r + E) = E) ->
  valid_binary prec emax (sf_final prec emax s r E) = true.
Proof.
  intros Hr Hc. destruct r as [|p|p]; [reflexivity| |lia].
  unfold sf_final. destruct (Z.leb_spec E (emax - prec)) as [Hle|Hgt]; [|reflexivity].
  cbn [valid_binary]. unfold bounded, canonical_mantissa.
  change (Z.pos (digits2_pos p)) with (Zdigits2 (Z.pos p)).
  rewrite Hc by lia. rewrite Z.eqb_refl. apply Z.leb_le in Hle. rewrite Hle. reflexivity.
Qed.

Lemma pre_pos_normal m e :
  0 <= m -> e <= fexp (Zdigits2 m + e) -> emin < fexp (Zdigits2 m + e) -> 0 < m.
Proof.
  intros Hm Hpre Hn. destruct (Z.eq_dec m 0) as [->|]; [|lia].
  simpl in *. unfold SpecFloat.fexp in *. lia.
Qed.

Lemma bra_valid s m e l :
  0 <= m -> e <= fexp (Zdigits2 m + e) ->
  valid_binary prec emax (binary_round_aux prec emax s m e l) = true.
Proof.
  intros Hm Hpre. destruct (bra_spec s m e l Hm Hpre) as (Heq & Hr & Hlow).
  rewrite Heq. clear Heq.
  set (E := fexp (Zdigits2 m + e)) in *.
  set (r := rne_code _) in *.
  assert (HE : emin <= E) by apply fexp_ge_emin.
  assert (H2p : 0 < 2 ^ (prec - 1)) by (apply Z.pow_pos_nonneg; lia).
  destruct (Z.ltb_spec r (2 ^ prec)) as [Hlt|Hge].
  - apply sf_final_valid; [lia|]. intros Hpos.
    assert (Hd : Zdigits2 r <= prec) by (apply Zdigits2_lt_pow; lia).
    destruct (Z.eq_dec E emin) as [He|He].
    + unfold SpecFloat.fexp. lia.
    + assert (Hm' : 0 < m) by (apply (pre_pos_normal m e); fold E; lia).
      specialize (Hlow ltac:(lia) Hm').
      pose proof (Zdigits2_ge_pow r (prec - 1) ltac:(lia) Hlow).
      unfold SpecFloat.fexp in *. lia.
  - apply sf_final_valid; [lia|]. intros _.
    assert (Hd : Zdigits2 (2 ^ (prec - 1)) = prec).
    { apply Z.le_antisymm.
      - apply Zdigits2_lt_pow; [lia|lia|]. apply Z.pow_lt_mono_r; lia.
      - pose proof (Zdigits2_ge_pow (2 ^ (prec - 1)) (prec - 1) ltac:(lia) ltac:(lia)). lia. }
    rewrite Hd. unfold SpecFloat.fexp in *. lia.
Qed.

Lemma bra_not_nan s m e l :
  0 <= m -> binary_round_aux prec emax s m e l <> S754_nan.
Proof.
  intros Hm. unfold binary_round_aux, shr_fexp.
  set (n1 := fexp (Zdigits2 m + e) - e).
  assert (H1 : 0 <= shr_m (fst (shr (shr_record_of_loc m l) e n1))).
  { destruct (Z.le_gt_cases n1 0).
    - rewrite shr_nop by assumption. cbn [fst]. rewrite shr_m_of_loc. assumption.
    - apply shr_spec; [rewrite shr_m_of_loc; assumption|lia]. }
  destruct (shr (shr_record_of_loc m l) e n1) as [mrs' e'].
  cbn [fst] in H1. rewrite rne_code_spec.
  set (r := rne_code (rec_code mrs')).
  assert (Hr : 0 <= r).
  { pose proof (rne_code_bounds (rec_code mrs')). rewrite rec_code_m in H. unfold r. lia. }
  set (n2 := fexp (Zdigits2 r + e') - e').
  assert (H2 : 0 <= shr_m (fst (shr (shr_record_of_loc r loc_Exact) e' n2))).
  { destruct (Z.le_gt_cases n2 0).
    - rewrite shr_nop by assumption. cbn [fst]. rewrite shr_m_of_loc. assumption.
    - apply shr_spec; [rewrite shr_m_of_loc; assumption|lia]. }
  destruct (shr (shr_record_of_loc r loc_Exact) e' n2) as [mrs'' e''].
  cbn [fst] in H2. destruct (shr_m mrs'') as [|p|p]; [discriminate| |lia].
  destruct (e'' <=? emax - prec); discriminate.
Qed.

(** Order of the results, read on mantissa and exponent. *)
Lemma sf_final_le r1 E1 r2 E2 :
  0 <= r1 -> 0 <= r2 ->
  r1 = 0 \/ (E1 = E2 /\ r1 <= r2) \/ (E1 < E2 /\ 0 < r2) ->
  SFleb (sf_final prec emax false r1 E1) (sf_final prec emax false r2 E2) = true.
Proof.
  intros H1 H2 H. unfold sf_final, SFleb.
  destruct r1 as [|p1|p1]; [| |lia]; destruct r2 as [|p2|p2]; try lia.
  - reflexivity.
  - destruct (E2 <=? emax - prec); reflexivity.
  - destruct (Z.leb_spec E1 (emax - prec)), (Z.leb_spec E2 (emax - prec));
      cbn [SFcompare]; try reflexivity.
    + destruct H as [H|[[-> H]|[H _]]]; [lia| |].
      * rewrite Z.compare_refl.
        change (Pos.compare_cont Eq p1 p2) with (Pos.compare p1 p2).
        destruct (Pos.compare_spec p1 p2); try reflexivity. lia.
      * apply Z.compare_lt_iff in H. rewrite H. reflexivity.
    + exfalso. lia.
Qed.

Lemma bra_mono m1 l1 m2 l2 e :
  0 <= m1 -> 0 <= m2 ->
  e <= fexp (Zdigits2 m1 + e) -> e <= fexp (Zdigits2 m2 + e) ->
  4 * m1 + loc_code l1 <= 4 * m2 + loc_code l2 ->
  SFleb (binary_round_aux prec emax false m1 e l1)
        (binary_round_aux prec emax false m2 e l2) = true.
Proof.
  intros Hm1 Hm2 Hp1 Hp2 Hle.
  assert (Hm : m1 <= m2).
  { destruct l1 as [|[| |]], l2 as [|[| |]]; cbn [loc_code] in Hle; lia. }
  destruct (bra_spec false m1 e l1 Hm1 Hp1) as (Heq1 & Hr1 & Hlow1).
  destruct (bra_spec false m2 e l2 Hm2 Hp2) as (Heq2 & Hr2 & Hlow2).
  rewrite Heq1, Heq2. clear Heq1 Heq2.
  set (E1 := fexp (Zdigits2 m1 + e)) in *.
  set (E2 := fexp (Zdigits2 m2 + e)) in *.
  set (r1 := rne_code (ro_shift (Z.to_nat (E1 - e)) (4 * m1 + loc_code l1))) in *.
  set (r2 := rne_code (ro_shift (Z.to_nat (E2 - e)) (4 * m2 + loc_code l2))) in *.
  assert (HE : E1 <= E2).
  { apply fexp_mono. pose proof (Zdigits2_le m1 m2 ltac:(lia)). lia. }
  assert (HE1 : emin <= E1) by apply fexp_ge_emin.
  assert (H2p : 0 < 2 ^ (prec - 1)) by (apply Z.pow_pos_nonneg; lia).
  assert (H2pp : 2 ^ prec = 2 * 2 ^ (prec - 1)).
  { replace prec with (Z.succ (prec - 1)) at 1 by lia. apply Z.pow_succ_r. lia. }
  assert (Hsame : E1 = E2 -> r1 <= r2).
  { intros HEq. unfold r1, r2. apply rne_code_mono.
    fold E1 E2. rewrite HEq. apply ro_shift_mono. assumption. }
  assert (Hnorm : E1 < E2 -> 2 ^ (prec - 1) <= r2).
  { intros Hlt. apply Hlow2; [lia|].
    apply (pre_pos_normal m2 e); fold E2; lia. }
  destruct (Z.ltb_spec r1 (2 ^ prec)), (Z.ltb_spec r2 (2 ^ prec));
    apply sf_final_le; try lia;
    (destruct (Z.eq_dec E1 E2) as [HEq|HNe];
     [specialize (Hsame HEq)|specialize (Hnorm ltac:(lia))]; lia).
Qed.

Lemma bra_refine s m' l' e' m l e :
  0 <= m' -> e' <= e ->
  4 * m + loc_code l = ro_shift (Z.to_nat (e - e')) (4 * m' + loc_code l') ->
  e <= fexp (Zdigits2 m + e) ->
  e' <= fexp (Zdigits2 m' + e')
  /\ binary_round_aux prec emax s m' e' l' = binary_round_aux prec emax s m e l.
Proof.
  intros Hm' Hee Hcode Hpre.
  set (j := e - e') in *.
  assert (H2j : 0 < 2 ^ j) by (apply Z.pow_pos_nonneg; lia).
  assert (Hmdiv : m = m' / 2 ^ j).
  { assert (H4 : (4 * m + loc_code l) / 4 = m)
      by (destruct l as [|[| |]]; cbn [loc_code]; Z.div_mod_to_equations; lia).
    rewrite <- H4, Hcode, ro_shift_div4, Z2Nat.id by lia. f_equal.
    destruct l' as [|[| |]]; cbn [loc_code]; Z.div_mod_to_equations; lia. }
  assert (Hm : 0 <= m) by (rewrite Hmdiv; apply Z.div_pos; lia).
  assert (HE : fexp (Zdigits2 m' + e') = fexp (Zdigits2 m + e)).
  { destruct (Z.eq_dec m 0) as [Hz|Hnz].
    - assert (Hlt : m' < 2 ^ j).
      { destruct (Z.lt_ge_cases m' (2 ^ j)); [assumption|].
        assert (1 <= m' / 2 ^ j) by (apply Z.div_le_lower_bound; lia). lia. }
      pose proof (Zdigits2_lt_pow m' j Hm' ltac:(lia) Hlt).
      rewrite Hz in *. cbn [Zdigits2] in *. unfold SpecFloat.fexp in *. lia.
    - assert (Hpos : 0 < m) by lia.
      pose proof (Zdigits2_bounds m Hpos) as [Hlo Hhi].
      pose proof (Zdigits2_nonneg m). set (d := Zdigits2 m) in *.
      assert (Hd1 : 1 <= d).
      { destruct (Z.le_gt_cases 1 d); [assumption|].
        assert (d = 0) by lia. rewrite H1 in Hhi. simpl in Hhi. lia. }
      assert (Hlo' : 2 ^ (d - 1 + j) <= m').
      { rewrite Z.pow_add_r by lia. rewrite Hmdiv in Hlo.
        pose proof (Z.mul_div_le m' (2 ^ j) H2j). nia. }
      assert (Hhi' : m' < 2 ^ (d + j)).
      { rewrite Z.pow_add_r by lia. rewrite Hmdiv in Hhi.
        pose proof (Z.div_mod m' (2 ^ j) ltac:(lia)).
        pose proof (Z.mod_pos_bound m' (2 ^ j) H2j). nia. }
      assert (Zdigits2 m' = d + j).
      { apply Z.le_antisymm.
        - apply Zdigits2_lt_pow; lia.
        - pose proof (Zdigits2_ge_pow m' (d - 1 + j) ltac:(lia) Hlo'). lia. }
      f_equal. lia. }
  split; [lia|].
  destruct (bra_spec s m' e' l' Hm' ltac:(lia)) as (Heq1 & _).
  destruct (bra_spec s m e l Hm Hpre) as (Heq2 & _).
  rewrite Heq1, Heq2, HE.
  set (E := fexp (Zdigits2 m + e)) in *.
  replace (Z.to_nat (E - e')) with (Z.to_nat (E - e) + Z.to_nat j)%nat by (unfold j; lia).
  rewrite ro_shift_add, <- Hcode. reflexivity.
Qed.

(** Two roundings compared through representations at a common,
    finer exponent. *)
Lemma bra_le m1 l1 e1 m2 l2 e2 m1' l1' m2' l2' e' :
  0 <= m1' -> 0 <= m2' -> e' <= e1 -> e' <= e2 ->
  4 * m1 + loc_code l1 = ro_shift (Z.to_nat (e1 - e')) (4 * m1' + loc_code l1') ->
  4 * m2 + loc_code l2 = ro_shift (Z.to_nat (e2 - e')) (4 * m2' + loc_code l2') ->
  e1 <= fexp (Zdigits2 m1 + e1) -> e2 <= fexp (Zdigits2 m2 + e2) ->
  4 * m1' + loc_code l1' <= 4 * m2' + loc_code l2' ->
  SFleb (binary_round_aux prec emax false m1 e1 l1)
        (binary_round_aux prec emax false m2 e2 l2) = true.
Proof.
  intros Hm1 Hm2 He1 He2 Hc1 Hc2 Hp1 Hp2 Hle.
  destruct (bra_refine false m1' l1' e' m1 l1 e1 Hm1 He1 Hc1 Hp1) as [Hp1' <-].
  destruct (bra_refine false m2' l2' e' m2 l2 e2 Hm2 He2 Hc2 Hp2) as [Hp2' <-].
  apply bra_mono; assumption.
Qed.
End Round.

Lemma loc_code_new_location c k :
0 < c -> 0 <= k < c ->
loc_code (new_location c k) =
  if k =? 0 then 0 else if 2 * k <? c then 1 else if 2 * k =? c then 2 else 3.
Proof.
  intros Hc Hk. unfold new_location, new_location_even, new_location_odd.
  rewrite Zeven_mod.
  destruct (Z.eqb_spec (c mod 2) 0) as [Hev|Hod];
    destruct (Z.eqb_spec k 0) as [Hk0|Hk0]; try reflexivity;
    destruct (Z.ltb_spec (2 * k) c); destruct (Z.eqb_spec (2 * k) c);
    try lia.
  all: try (destruct (Z.compare_spec (2 * k) c); cbn [loc_code]; try reflexivity; lia).
  all: try (destruct (Z.compare_spec (2 * k + 1) c); cbn [loc_code]; try reflexivity;
            Z.div_mod_to_equations; lia).
  all: Z.div_mod_to_equations; lia.
Qed.

Lemma div_code_mono c a1 a2 : 0 < c -> 0 <= a1 <= a2 -> div_code c a1 <= div_code c a2.
Proof.
  intros Hc Ha. unfold div_code.
  pose proof (Z.mod_pos_bound a1 c Hc). pose proof (Z.mod_pos_bound a2 c Hc).
  rewrite !loc_code_new_location by assumption.
  pose proof (Z.div_mod a1 c ltac:(lia)). pose proof (Z.div_mod a2 c ltac:(lia)).
  assert (a1 / c <= a2 / c) by (apply Z.div_le_mono; lia).
  destruct (Z.eq_dec (a1 / c) (a2 / c)) as [Heq|Hne].
  - rewrite Heq in *. assert (a1 mod c <= a2 mod c) by lia.
    destruct (Z.eqb_spec (a1 mod c) 0), (Z.eqb_spec (a2 mod c) 0),
      (Z.ltb_spec (2 * (a1 mod c)) c), (Z.ltb_spec (2 * (a2 mod c)) c),
      (Z.eqb_spec (2 * (a1 mod c)) c), (Z.eqb_spec (2 * (a2 mod c)) c); lia.
  - destruct (Z.eqb_spec (a1 mod c) 0), (Z.eqb_spec (a2 mod c) 0),
      (Z.ltb_spec (2 * (a1 mod c)) c), (Z.ltb_spec (2 * (a2 mod c)) c),
      (Z.eqb_spec (2 * (a1 mod c)) c), (Z.eqb_spec (2 * (a2 mod c)) c); lia.
Qed.

Lemma div_code_half c a : 0 < c -> 0 <= a -> ro_half (div_code c (2 * a)) = div_code c a.
Proof.
  intros Hc Ha. unfold div_code.
  pose proof (Z.mod_pos_bound a c Hc) as Hr. pose proof (Z.mod_pos_bound (2 * a) c Hc) as HR.
  rewrite !loc_code_new_location by assumption.
  pose proof (Z.div_mod a c ltac:(lia)) as Ea.
  set (q := a / c) in *. set (r := a mod c) in *.
  destruct (Z.ltb_spec (2 * r) c) as [Hlt|Hge].
  - assert (HQ : (2 * a) / c = 2 * q) by (symmetry; apply (Z.div_unique_pos _ _ _ (2 * r)); lia).
    assert (HRr : (2 * a) mod c = 2 * r) by (symmetry; apply (Z.mod_unique_pos _ _ (2 * q)); lia).
    rewrite HQ, HRr. unfold ro_half.
    destruct (Z.eqb_spec r 0), (Z.eqb_spec (2 * r) 0); try lia;
      destruct (Z.ltb_spec (2 * (2 * r)) c), (Z.eqb_spec (2 * (2 * r)) c);
      match goal with |- context [?t mod 4 =? 0] => destruct (Z.eqb_spec (t mod 4) 0) end;
      Z.div_mod_to_equations; lia.
  - assert (HQ : (2 * a) / c = 2 * q + 1)
      by (symmetry; apply (Z.div_unique_pos _ _ _ (2 * r - c)); lia).
    assert (HRr : (2 * a) mod c = 2 * r - c)
      by (symmetry; apply (Z.mod_unique_pos _ _ (2 * q + 1)); lia).
    rewrite HQ, HRr. unfold ro_half.
    destruct (Z.eqb_spec r 0), (Z.eqb_spec (2 * r - c) 0), (Z.eqb_spec (2 * r) c); try lia;
      destruct (Z.ltb_spec (2 * (2 * r - c)) c), (Z.eqb_spec (2 * (2 * r - c)) c);
      match goal with |- context [?t mod 4 =? 0] => destruct (Z.eqb_spec (t mod 4) 0) end;
      Z.div_mod_to_equations; lia.
Qed.

Lemma div_code_shift c a j :
0 < c -> 0 <= a -> ro_shift j (div_code c (a * 2 ^ Z.of_nat j)) = div_code c a.
Proof.
  intros Hc Ha. induction j.
  - change (2 ^ Z.of_nat 0) with 1. rewrite Z.mul_1_r. reflexivity.
  - rewrite ro_shift_succ_r. rewrite Nat2Z.inj_succ, Z.pow_succ_r by lia.
    replace (a * (2 * 2 ^ Z.of_nat j)) with (2 * (a * 2 ^ Z.of_nat j)) by lia.
    rewrite div_code_half; [exact IHj|assumption|].
    apply Z.mul_nonneg_nonneg; [assumption|]. apply Z.pow_nonneg. lia.
Qed.

Lemma div_eucl_div a b : Z.div_eucl a b = (a / b, a mod b).
Proof. unfold Z.div, Z.modulo. destruct (Z.div_eucl a b). reflexivity. Qed.

Lemma iter_xO m d : Z.pos (Pos.iter xO m d) = Z.pos m * 2 ^ Z.pos d.
Proof.
  induction d using Pos.peano_ind.
  - simpl. lia.
  - rewrite Pos.iter_succ, Pos2Z.inj_xO, IHd, Pos2Z.inj_succ, Z.pow_succ_r by lia. lia.
Qed.

Lemma Zdigits2_mul_pow2 m k : 0 < m -> 0 <= k -> Zdigits2 (m * 2 ^ k) = Zdigits2 m + k.
Proof.
  intros Hm Hk.
  assert (0 < 2 ^ k) by (apply Z.pow_pos_nonneg; lia).
  rewrite !Zdigits2_log2 by nia. rewrite Z.log2_mul_pow2 by lia. lia.
Qed.

Section Ops.
Variables prec emax : Z.
Hypothesis Hprec : 0 < prec.
Hypothesis Hemax : prec < emax.

Abbreviation emin := (emin prec emax).
Abbreviation fexp := (fexp prec emax).
Abbreviation valid := (valid_binary prec emax).

Lemma canonical_inv s m e :
  valid (S754_finite s m e) = true ->
  fexp (Zdigits2 (Z.pos m) + e) = e /\ e <= emax - prec.
Proof.
  cbn [valid_binary]. unfold bounded, canonical_mantissa.
  intros H. apply andb_prop in H. destruct H as [H1 H2].
  apply Z.eqb_eq in H1. apply Z.leb_le in H2. auto.
Qed.

(** Value order of two canonical data, on a common exponent. *)
Lemma canonical_le_scaled m1 e1 m2 e2 e' :
  valid (S754_finite false m1 e1) = true ->
  valid (S754_finite false m2 e2) = true ->
  SFleb (S754_finite false m1 e1) (S754_finite false m2 e2) = true ->
  e' <= e1 -> e' <= e2 ->
  Z.pos m1 * 2 ^ (e1 - e') <= Z.pos m2 * 2 ^ (e2 - e').
Proof.
  intros V1 V2 Hle H1 H2.
  apply canonical_inv in V1, V2. destruct V1 as [C1 _], V2 as [C2 _].
  unfold SFleb in Hle. cbn [SFcompare] in Hle.
  destruct (Z.compare_spec e1 e2) as [Heq|Hlt|Hgt]; [| |discriminate].
  - subst e2. change (Pos.compare_cont Eq m1 m2) with (Pos.compare m1 m2) in Hle.
    assert (0 < 2 ^ (e1 - e')) by (apply Z.pow_pos_nonneg; lia).
    destruct (Pos.compare_spec m1 m2); try discriminate; nia.
  - pose proof (Zdigits2_bounds (Z.pos m1) ltac:(lia)) as [_ Hhi].
    pose proof (Zdigits2_bounds (Z.pos m2) ltac:(lia)) as [Hlo _].
    assert (Hd1 : Zdigits2 (Z.pos m1) <= prec) by (unfold SpecFloat.fexp in C1; lia).
    assert (Hd2 : Zdigits2 (Z.pos m2) = prec) by (unfold SpecFloat.fexp in C1, C2; lia).
    assert (Z.pos m1 < 2 ^ prec).
    { eapply Z.lt_le_trans; [exact Hhi|]. apply Z.pow_le_mono_r; lia. }
    rewrite Hd2 in Hlo.
    assert (Z.pos m1 * 2 ^ (e1 - e') <= 2 ^ prec * 2 ^ (e1 - e')).
    { apply Z.mul_le_mono_nonneg_r; [apply Z.pow_nonneg|]; lia. }
    assert (2 ^ (prec - 1) * 2 ^ (e2 - e') <= Z.pos m2 * 2 ^ (e2 - e')).
    { apply Z.mul_le_mono_nonneg_r; [apply Z.pow_nonneg|]; lia. }
    assert (2 ^ prec * 2 ^ (e1 - e') <= 2 ^ (prec - 1) * 2 ^ (e2 - e')).
    { rewrite <- !Z.pow_add_r by lia. apply Z.pow_le_mono_r; lia. }
    lia.
Qed.

Lemma mul_pre mx ex my ey sx sy :
  valid (S754_finite sx mx ex) = true ->
  valid (S754_finite sy my ey) = true ->
  ex + ey <= fexp (Zdigits2 (Z.pos (mx * my)) + (ex + ey)).
Proof.
  intros V1 V2. apply canonical_inv in V1, V2. destruct V1 as [C1 _], V2 as [C2 _].
  pose proof (Zdigits2_bounds (Z.pos mx) ltac:(lia)) as [Hx _].
  pose proof (Zdigits2_bounds (Z.pos my) ltac:(lia)) as [Hy _].
  pose proof (Zdigits2_ge_pow (Z.pos mx) 0 ltac:(lia) ltac:(simpl; lia)) as Hdx.
  pose proof (Zdigits2_ge_pow (Z.pos my) 0 ltac:(lia) ltac:(simpl; lia)) as Hdy.
  set (dx := Zdigits2 (Z.pos mx)) in *. set (dy := Zdigits2 (Z.pos my)) in *.
  assert (Hd : dx + dy - 1 <= Zdigits2 (Z.pos (mx * my))).
  { pose proof (Zdigits2_ge_pow (Z.pos (mx * my)) (dx - 1 + (dy - 1)) ltac:(lia)) as H.
    rewrite Z.pow_add_r in H by lia. rewrite Pos2Z.inj_mul in *.
    assert (2 ^ (dx - 1) * 2 ^ (dy - 1) <= Z.pos mx * Z.pos my).
    { apply Z.mul_le_mono_nonneg; try assumption; apply Z.pow_nonneg; lia. }
    specialize (H H0). lia. }
  unfold SpecFloat.fexp, SpecFloat.emin in *. lia.
Qed.

Lemma binary_round_spec s m e :
  exists m' e',
    binary_round prec emax s m e = binary_round_aux prec emax s (Z.pos m') e' loc_Exact
    /\ e' <= fexp (Zdigits2 (Z.pos m') + e').
Proof.
  unfold binary_round, shl_align.
  set (E := fexp (Z.pos (digits2_pos m) + e)).
  destruct (E - e) as [|d|d] eqn:Hd.
  - exists m, e. split; [reflexivity|]. change (Zdigits2 (Z.pos m)) with (Z.pos (digits2_pos m)).
    fold E. lia.
  - exists m, e. split; [reflexivity|]. change (Zdigits2 (Z.pos m)) with (Z.pos (digits2_pos m)).
    fold E. lia.
  - exists (Pos.iter xO m d), E. split; [reflexivity|].
    rewrite iter_xO, Zdigits2_mul_pow2 by lia.
    change (Zdigits2 (Z.pos m)) with (Z.pos (digits2_pos m)).
    replace (Z.pos (digits2_pos m) + Z.pos d + E) with (Z.pos (digits2_pos m) + e) by lia.
    fold E. lia.
Qed.

Lemma binary_round_valid s m e : valid (binary_round prec emax s m e) = true.
Proof.
  destruct (binary_round_spec s m e) as (m' & e' & -> & Hpre).
  apply bra_valid; [assumption|lia|assumption].
Qed.

Lemma binary_round_not_nan s m e : binary_round prec emax s m e <> S754_nan.
Proof.
  destruct (binary_round_spec s m e) as (m' & e' & -> & Hpre).
  apply bra_not_nan. lia.
Qed.

Lemma binary_normalize_valid m e sz : valid (binary_normalize prec emax m e sz) = true.
Proof. destruct m; [reflexivity| |]; apply binary_round_valid. Qed.

Lemma SFadd_valid x y : valid x = true -> valid y = true -> valid (SFadd prec emax x y) = true.
Proof.
  intros Vx Vy.
  destruct x as [sx|sx| |sx mx ex], y as [sy|sy| |sy my ey];
    try destruct sx; try destruct sy; cbn [SFadd]; try assumption; try reflexivity;
    apply binary_normalize_valid.
Qed.

Lemma SFsub_valid x y : valid x = true -> valid y = true -> valid (SFsub prec emax x y) = true.
Proof.
  intros Vx Vy.
  destruct x as [sx|sx| |sx mx ex], y as [sy|sy| |sy my ey];
    try destruct sx; try destruct sy; cbn [SFsub negb]; try assumption; try reflexivity;
    apply binary_normalize_valid.
Qed.

Lemma SFmul_valid x y : valid x = true -> valid y = true -> valid (SFmul prec emax x y) = true.
Proof.
  intros Vx Vy.
  destruct x as [sx|sx| |sx mx ex], y as [sy|sy| |sy my ey];
    cbn [SFmul]; try reflexivity.
  apply bra_valid; [assumption|lia|]. eapply mul_pre; eassumption.
Qed.

(** The quotient and location computed by [SFdiv_core_binary]. *)
Lemma div_core_spec m1 e1 m2 e2 :
  0 < m1 -> 0 < m2 ->
  let e' := Z.min (fexp (Zdigits2 m1 + e1 - (Zdigits2 m2 + e2))) (e1 - e2) in
  let a := m1 * 2 ^ (e1 - e2 - e') in
  SFdiv_core_binary prec emax m1 e1 m2 e2 = (a / m2, e', new_location m2 (a mod m2))
  /\ e' <= fexp (Zdigits2 (a / m2) + e').
Proof.
  intros H1 H2 e' a.
  assert (Hs : 0 <= e1 - e2 - e') by (unfold e'; lia).
  assert (H2s : 0 < 2 ^ (e1 - e2 - e')) by (apply Z.pow_pos_nonneg; lia).
  split.
  - unfold SFdiv_core_binary. fold e'.
    assert (Hm' : match e1 - e2 - e' with
                  | Z.pos _ => Z.shiftl m1 (e1 - e2 - e')
                  | 0 => m1
                  | Z.neg _ => 0
                  end = a).
    { unfold a. destruct (e1 - e2 - e') as [|p|p] eqn:E; [|rewrite Z.shiftl_mul_pow2|]; lia. }
    rewrite Hm', div_eucl_div. reflexivity.
  - destruct (Z.le_gt_cases e' emin) as [Hle|Hgt].
    + pose proof (fexp_ge_emin prec emax (Zdigits2 (a / m2) + e')). lia.
    + set (D := Zdigits2 m1 + e1 - (Zdigits2 m2 + e2)) in *.
      assert (HD : e' <= D - prec) by (unfold e', SpecFloat.fexp in *; lia).
      pose proof (Zdigits2_bounds m1 H1) as [Hlo1 _].
      pose proof (Zdigits2_bounds m2 H2) as [_ Hhi2].
      pose proof (Zdigits2_ge_pow m1 0 ltac:(lia) ltac:(simpl; lia)) as Hd1.
      pose proof (Zdigits2_ge_pow m2 0 ltac:(lia) ltac:(simpl; lia)) as Hd2.
      assert (Hq : 2 ^ (prec - 1) <= a / m2).
      { apply Z.div_le_lower_bound; [assumption|].
        assert (m2 * 2 ^ (prec - 1) <= 2 ^ Zdigits2 m2 * 2 ^ (prec - 1)).
        { apply Z.mul_le_mono_nonneg_r; [apply Z.pow_nonneg|]; lia. }
        assert (2 ^ (Zdigits2 m1 - 1) * 2 ^ (e1 - e2 - e') <= a).
        { unfold a. apply Z.mul_le_mono_nonneg_r; [apply Z.pow_nonneg|]; lia. }
        assert (2 ^ Zdigits2 m2 * 2 ^ (prec - 1) <= 2 ^ (Zdigits2 m1 - 1) * 2 ^ (e1 - e2 - e')).
        { rewrite <- !Z.pow_add_r by lia. apply Z.pow_le_mono_r; [lia|]. unfold D in HD. lia. }
        lia. }
      pose proof (Zdigits2_ge_pow (a / m2) (prec - 1) ltac:(lia) Hq).
      unfold SpecFloat.fexp. lia.
Qed.

Lemma SFdiv_valid x y : valid x = true -> valid y = true -> valid (SFdiv prec emax x y) = true.
Proof.
  intros Vx Vy.
  destruct x as [sx|sx| |sx mx ex], y as [sy|sy| |sy my ey];
    cbn [SFdiv]; try reflexivity.
  destruct (div_core_spec (Z.pos mx) ex (Z.pos my) ey ltac:(lia) ltac:(lia)) as [-> Hpre].
  apply bra_valid; [assumption| |assumption].
  apply Z.div_pos; [|lia]. apply Z.mul_nonneg_nonneg; [lia|]. apply Z.pow_nonneg. lia.
Qed.
End Ops.

Lemma SFleb_zero_l s x : sign_is false x -> SFleb (S754_zero s) x = true.
Proof. destruct x as [sx|sx| |sx mx ex]; simpl; intros H; subst; try reflexivity. destruct H. Qed.

Lemma SFleb_inf_r x : sign_is false x -> SFleb x (S754_infinity false) = true.
Proof. destruct x as [sx|sx| |sx mx ex]; simpl; intros H; subst; try reflexivity. destruct H. Qed.

Section Mono.
Variables prec emax : Z.
Hypothesis Hprec : 0 < prec.
Hypothesis Hemax : prec < emax.

Abbreviation valid := (valid_binary prec emax).

Lemma bra_sign s m e l : 0 <= m -> sign_is s (binary_round_aux prec emax s m e l).
Proof.
  intros Hm. pose proof (bra_not_nan prec emax s m e l Hm) as Hn.
  revert Hn. unfold binary_round_aux.
  destruct (shr_fexp prec emax m e l) as [mrs' e'].
  destruct (shr_fexp prec emax _ e' loc_Exact) as [mrs'' e''].
  destruct (shr_m mrs'') as [|p|p]; [reflexivity| |congruence].
  destruct (e'' <=? emax - prec); reflexivity.
Qed.

Lemma SFmul_mono_r x1 x2 mc ec :
  valid x1 = true -> valid x2 = true -> valid (S754_finite false mc ec) = true ->
  SFleb (S754_zero false) x1 = true -> SFleb x1 x2 = true ->
  SFleb (SFmul prec emax x1 (S754_finite false mc ec))
        (SFmul prec emax x2 (S754_finite false mc ec)) = true.
Proof.
  intros V1 V2 Vc H0 Hle.
  destruct x1 as [s1|s1| |s1 m1 e1]; try discriminate;
    try (destruct s1; try discriminate);
    destruct x2 as [s2|s2| |s2 m2 e2]; try discriminate;
    try (destruct s2; try discriminate); cbn [SFmul xorb]; try reflexivity;
    try (apply SFleb_zero_l, bra_sign; lia);
    try (apply SFleb_inf_r, bra_sign; lia).
  set (e' := Z.min e1 e2 + ec).
  assert (Hs := canonical_le_scaled prec emax Hprec m1 e1 m2 e2 (Z.min e1 e2) V1 V2 Hle
                  ltac:(lia) ltac:(lia)).
  apply (bra_le prec emax Hprec _ _ _ _ _ _
           (Z.pos m1 * Z.pos mc * 2 ^ (e1 - Z.min e1 e2)) loc_Exact
           (Z.pos m2 * Z.pos mc * 2 ^ (e2 - Z.min e1 e2)) loc_Exact e').
  - assert (0 <= 2 ^ (e1 - Z.min e1 e2)) by (apply Z.pow_nonneg; lia). nia.
  - assert (0 <= 2 ^ (e2 - Z.min e1 e2)) by (apply Z.pow_nonneg; lia). nia.
  - unfold e'; lia.
  - unfold e'; lia.
  - cbn [loc_code]. rewrite !Z.add_0_r.
    replace (e1 + ec - e') with (e1 - Z.min e1 e2) by (unfold e'; lia).
    rewrite <- (Z2Nat.id (e1 - Z.min e1 e2)) at 2 by lia.
    rewrite ro_shift_exact. rewrite Pos2Z.inj_mul. reflexivity.
  - cbn [loc_code]. rewrite !Z.add_0_r.
    replace (e2 + ec - e') with (e2 - Z.min e1 e2) by (unfold e'; lia).
    rewrite <- (Z2Nat.id (e2 - Z.min e1 e2)) at 2 by lia.
    rewrite ro_shift_exact. rewrite Pos2Z.inj_mul. reflexivity.
  - eapply mul_pre; eassumption.
  - eapply mul_pre; eassumption.
  - cbn [loc_code]. nia.
Qed.

Lemma SFdiv_sign m e mc ec :
  sign_is false (SFdiv prec emax (S754_finite false m e) (S754_finite false mc ec)).
Proof.
  cbn [SFdiv xorb].
  destruct (div_core_spec prec emax Hprec (Z.pos m) e (Z.pos mc) ec ltac:(lia) ltac:(lia))
    as [-> _].
  apply bra_sign. apply Z.div_pos; [|lia].
  apply Z.mul_nonneg_nonneg; [lia|apply Z.pow_nonneg; lia].
Qed.

Lemma SFdiv_mono_fin m1 e1 m2 e2 mc ec :
  valid (S754_finite false m1 e1) = true -> valid (S754_finite false m2 e2) = true ->
  SFleb (S754_finite false m1 e1) (S754_finite false m2 e2) = true ->
  SFleb (SFdiv prec emax (S754_finite false m1 e1) (S754_finite false mc ec))
        (SFdiv prec emax (S754_finite false m2 e2) (S754_finite false mc ec)) = true.
Proof.
  intros V1 V2 Hle. cbn [SFdiv xorb].
  destruct (div_core_spec prec emax Hprec (Z.pos m1) e1 (Z.pos mc) ec ltac:(lia) ltac:(lia))
    as [-> Hp1].
  destruct (div_core_spec prec emax Hprec (Z.pos m2) e2 (Z.pos mc) ec ltac:(lia) ltac:(lia))
    as [-> Hp2].
  set (e1' := Z.min (fexp prec emax (Zdigits2 (Z.pos m1) + e1 - (Zdigits2 (Z.pos mc) + ec))) (e1 - ec)) in *.
  set (e2' := Z.min (fexp prec emax (Zdigits2 (Z.pos m2) + e2 - (Zdigits2 (Z.pos mc) + ec))) (e2 - ec)) in *.
  set (e' := Z.min e1' e2').
  assert (He1 : e1' <= e1 - ec) by (unfold e1'; lia).
  assert (He2 : e2' <= e2 - ec) by (unfold e2'; lia).
  set (a1 := Z.pos m1 * 2 ^ (e1 - ec - e1')) in *.
  set (a2 := Z.pos m2 * 2 ^ (e2 - ec - e2')) in *.
  assert (Ha1 : 0 <= a1) by (unfold a1; apply Z.mul_nonneg_nonneg; [lia|apply Z.pow_nonneg; lia]).
  assert (Ha2 : 0 <= a2) by (unfold a2; apply Z.mul_nonneg_nonneg; [lia|apply Z.pow_nonneg; lia]).
  set (b1 := a1 * 2 ^ (e1' - e')). set (b2 := a2 * 2 ^ (e2' - e')).
  assert (Hb1 : 0 <= b1) by (unfold b1; apply Z.mul_nonneg_nonneg; [lia|apply Z.pow_nonneg; unfold e'; lia]).
  assert (Hb2 : 0 <= b2) by (unfold b2; apply Z.mul_nonneg_nonneg; [lia|apply Z.pow_nonneg; unfold e'; lia]).
  assert (Hs := canonical_le_scaled prec emax Hprec m1 e1 m2 e2 (e' + ec) V1 V2 Hle
                  ltac:(unfold e'; lia) ltac:(unfold e'; lia)).
  assert (Hb : b1 <= b2).
  { unfold b1, b2, a1, a2. rewrite <- !Z.mul_assoc, <- !Z.pow_add_r by (unfold e'; lia).
    replace (e1 - ec - e1' + (e1' - e')) with (e1 - (e' + ec)) by lia.
    replace (e2 - ec - e2' + (e2' - e')) with (e2 - (e' + ec)) by lia.
    exact Hs. }
  apply (bra_le prec emax Hprec _ _ _ _ _ _
           (b1 / Z.pos mc) (new_location (Z.pos mc) (b1 mod Z.pos mc))
           (b2 / Z.pos mc) (new_location (Z.pos mc) (b2 mod Z.pos mc)) e').
  - apply Z.div_pos; lia.
  - apply Z.div_pos; lia.
  - unfold e'; lia.
  - unfold e'; lia.
  - fold (div_code (Z.pos mc) a1). fold (div_code (Z.pos mc) b1). unfold b1.
    rewrite <- (Z2Nat.id (e1' - e')) at 2 by (unfold e'; lia).
    rewrite div_code_shift by lia. reflexivity.
  - fold (div_code (Z.pos mc) a2). fold (div_code (Z.pos mc) b2). unfold b2.
    rewrite <- (Z2Nat.id (e2' - e')) at 2 by (unfold e'; lia).
    rewrite div_code_shift by lia. reflexivity.
  - exact Hp1.
  - exact Hp2.
  - fold (div_code (Z.pos mc) b1). fold (div_code (Z.pos mc) b2).
    apply div_code_mono; lia.
Qed.

Lemma SFdiv_mono_r x1 x2 mc ec :
  valid x1 = true -> valid x2 = true ->
  SFleb (S754_zero false) x1 = true -> SFleb x1 x2 = true ->
  SFleb (SFdiv prec emax x1 (S754_finite false mc ec))
        (SFdiv prec emax x2 (S754_finite false mc ec)) = true.
Proof.
  intros V1 V2 H0 Hle.
  destruct x1 as [s1|s1| |s1 m1 e1]; try discriminate;
    try (destruct s1; try discriminate);
    destruct x2 as [s2|s2| |s2 m2 e2]; try discriminate;
    try (destruct s2; try discriminate);
    try (apply SFdiv_mono_fin; assumption);
    try (apply SFleb_zero_l, SFdiv_sign);
    try (apply SFleb_inf_r, SFdiv_sign);
    reflexivity.
Qed.
End Mono.

Ltac cmp_cases :=
repeat match goal with
| H : context [Pos.compare_cont Eq ?a ?b] |- _ =>
    change (Pos.compare_cont Eq a b) with (Pos.compare a b) in H
| |- context [Pos.compare_cont Eq ?a ?b] =>
    change (Pos.compare_cont Eq a b) with (Pos.compare a b)
end;
repeat match goal with
| H : context [Z.compare ?a ?b] |- _ => destruct (Z.compare_spec a b); cbn [CompOpp] in *; try discriminate
| |- context [Z.compare ?a ?b] => destruct (Z.compare_spec a b); cbn [CompOpp] in *; try discriminate
| H : context [Pos.compare ?a ?b] |- _ => destruct (Pos.compare_spec a b); cbn [CompOpp] in *; try discriminate
| |- context [Pos.compare ?a ?b] => destruct (Pos.compare_spec a b); cbn [CompOpp] in *; try discriminate
end;
try reflexivity; try discriminate; try (exfalso; lia).

Ltac float_cases x :=
let s := fresh "s" in let m := fresh "m" in let e := fresh "e" in
destruct x as [s|s| |s m e]; try destruct s.

Lemma SFltb_leb x y : SFltb x y = true -> SFleb x y = true.
Proof. unfold SFltb, SFleb. destruct (SFcompare x y) as [[| |]|]; congruence. Qed.

Lemma SFleb_trans x y z : SFleb x y = true -> SFleb y z = true -> SFleb x z = true.
Proof.
  unfold SFleb. float_cases x; float_cases y; cbn [SFcompare]; try discriminate;
    float_cases z; cbn [SFcompare]; try discriminate; try reflexivity;
    intros H1 H2; cmp_cases.
Qed.

Lemma SFleb_ltb_trans x y z : SFleb x y = true -> SFltb y z = true -> SFltb x z = true.
Proof.
  unfold SFleb, SFltb. float_cases x; float_cases y; cbn [SFcompare]; try discriminate;
    float_cases z; cbn [SFcompare]; try discriminate; try reflexivity;
    intros H1 H2; cmp_cases.
Qed.

Lemma SFltb_leb_trans x y z : SFltb x y = true -> SFleb y z = true -> SFltb x z = true.
Proof.
  unfold SFleb, SFltb. float_cases x; float_cases y; cbn [SFcompare]; try discriminate;
    float_cases z; cbn [SFcompare]; try discriminate; try reflexivity;
    intros H1 H2; cmp_cases.
Qed.

Lemma SFltb_false_leb x y :
x <> S754_nan -> y <> S754_nan -> SFltb x y = false -> SFleb y x = true.
Proof.
  unfold SFleb, SFltb. intros Hx Hy.
  float_cases x; float_cases y; cbn [SFcompare]; try discriminate; try reflexivity;
    try congruence; intros H; cmp_cases.
Qed.

Lemma SFleb_ltb_false x y : SFleb x y = true -> SFltb y x = false.
Proof.
  unfold SFleb, SFltb.
  float_cases x; float_cases y; cbn [SFcompare]; try discriminate; try reflexivity;
    intros H; cmp_cases.
Qed.

Lemma SFleb_not_nan x y : SFleb x y = true -> x <> S754_nan /\ y <> S754_nan.
Proof.
  unfold SFleb. destruct x, y; cbn [SFcompare]; try discriminate; split; discriminate.
Qed.

(* ================================================================== *)
(** * Properties of the controller *)
(* ================================================================== *)

(** Projections applied to field updates. *)
Ltac fields :=
  cbn [Kp Ti Kpos Kneg u_logic pos_deg temp_setpoint temp_actual error_k_1
       sampleIndex initial_state_reset servo_angle published serial
       set_Kp set_Ti set_Kpos set_Kneg set_u_logic set_pos_deg set_temp_setpoint
       set_temp_actual set_error_k_1 set_sampleIndex set_initial_state_reset
       set_servo_angle publish println] in *.

(** ** binary32 instances *)

Lemma f32_prec : 0 < F32.prec. Proof. reflexivity. Qed.
Lemma f32_emax : F32.prec < F32.emax. Proof. reflexivity. Qed.

Lemma add_valid x y : valid x = true -> valid y = true -> valid (x + y)%f32 = true.
Proof. apply SFadd_valid; [exact f32_prec]. Qed.
Lemma sub_valid x y : valid x = true -> valid y = true -> valid (x - y)%f32 = true.
Proof. apply SFsub_valid; [exact f32_prec]. Qed.
Lemma mul_valid x y : valid x = true -> valid y = true -> valid (x * y)%f32 = true.
Proof. apply SFmul_valid; [exact f32_prec|exact f32_emax]. Qed.
Lemma div_valid x y : valid x = true -> valid y = true -> valid (x / y)%f32 = true.
Proof. apply SFdiv_valid; [exact f32_prec]. Qed.

Lemma add_f0_mono y1 y2 : (y1 <=? y2)%f32 = true -> (f0 + y1 <=? f0 + y2)%f32 = true.
Proof.
  unfold F32.leb, F32.add, f0.
  destruct y1 as [s1|s1| |s1 m1 e1], y2 as [s2|s2| |s2 m2 e2];
    try destruct s1; try destruct s2; cbn [SFadd]; intros H; try exact H; try reflexivity;
    try discriminate.
Qed.

Lemma degrees_of_mono u1 u2 :
  valid u1 = true -> valid u2 = true ->
  (f0 <=? u1)%f32 = true -> (u1 <=? u2)%f32 = true ->
  (degrees_of u1 <=? degrees_of u2)%f32 = true.
Proof.
  intros V1 V2 H0 Hle. unfold degrees_of.
  change (SERVO_DEG_MAX - SERVO_DEG_MIN)%f32 with f180.
  change SERVO_DEG_MIN with f0.
  assert (Hd : (u1 / f100 <=? u2 / f100)%f32 = true).
  { apply (SFdiv_mono_r F32.prec F32.emax f32_prec); assumption. }
  assert (Hd0 : (f0 <=? u1 / f100)%f32 = true).
  { change f0 with (f0 / f100)%f32 at 1.
    apply (SFdiv_mono_r F32.prec F32.emax f32_prec); try assumption; reflexivity. }
  apply add_f0_mono.
  apply (SFmul_mono_r F32.prec F32.emax f32_prec f32_emax);
    try assumption; try reflexivity; apply div_valid; try assumption; reflexivity.
Qed.

Lemma scaleToDegrees_clamp u : scaleToDegrees u = degrees_of (clamp u f0 f100).
Proof.
  unfold scaleToDegrees, clamp, degrees_of.
  destruct (u <? f0)%f32; reflexivity.
Qed.

Lemma clamp_range u :
  u <> S754_nan -> (f0 <=? clamp u f0 f100)%f32 = true /\ (clamp u f0 f100 <=? f100)%f32 = true.
Proof.
  intros Hn. unfold clamp.
  destruct (u <? f0)%f32 eqn:H0; [split; reflexivity|].
  destruct (f100 <? u)%f32 eqn:H1; [split; reflexivity|].
  split; apply SFltb_false_leb; try assumption; discriminate.
Qed.

Lemma clamp_valid u : valid u = true -> valid (clamp u f0 f100) = true.
Proof.
  intros V. unfold clamp. destruct (u <? f0)%f32; [reflexivity|].
  destruct (f100 <? u)%f32; [reflexivity|assumption].
Qed.

Lemma clamp_mono u1 u2 :
  (u1 <=? u2)%f32 = true -> (clamp u1 f0 f100 <=? clamp u2 f0 f100)%f32 = true.
Proof.
  intros Hle. destruct (SFleb_not_nan _ _ Hle) as [N1 N2].
  destruct (clamp_range u2 N2) as [L2 U2]. destruct (clamp_range u1 N1) as [L1 U1].
  unfold clamp in *.
  destruct (u1 <? f0)%f32 eqn:A1; [exact L2|].
  destruct (f100 <? u1)%f32 eqn:B1.
  - assert (B2 : (f100 <? u2)%f32 = true) by exact (SFltb_leb_trans f100 u1 u2 B1 Hle).
    assert (A2 : (u2 <? f0)%f32 = false).
    { apply SFleb_ltb_false. apply (SFleb_trans _ f100); [reflexivity|]. apply SFltb_leb. exact B2. }
    rewrite A2, B2. reflexivity.
  - destruct (u2 <? f0)%f32 eqn:A2.
    + assert ((u1 <? f0)%f32 = true) by exact (SFleb_ltb_trans u1 u2 f0 Hle A2). congruence.
    + destruct (f100 <? u2)%f32 eqn:B2; [exact U1|exact Hle].
Qed.

(** ** Coefficient engine *)

Lemma pos_not_le0 (x : float32) : (f0 <? x)%f32 = true -> (x <=? f0)%f32 = false.
Proof.
  destruct x as [s|s| |s m e]; try destruct s; simpl; try reflexivity; discriminate.
Qed.

Lemma recalculateCoefficients_accepts (s : state) :
  (f0 <? Kp s)%f32 = true -> (f0 <? Ti s)%f32 = true ->
  recalculateCoefficients s =
    println (LogCoef (Kp s) (Ti s) Tm (tustin_b0 (Kp s) (Ti s)) (tustin_b1 (Kp s) (Ti s)))
      (set_Kneg (tustin_b1 (Kp s) (Ti s)) (set_Kpos (tustin_b0 (Kp s) (Ti s)) s)).
Proof.
  intros HK HT. unfold recalculateCoefficients.
  rewrite (pos_not_le0 _ HK), (pos_not_le0 _ HT). reflexivity.
Qed.

(** C1.  For a gain and an integral time above zero,
    [recalculateCoefficients] stores b0 = Kp * (1 + Tm / (2 * Ti)) and
    b1 = -Kp * (1 - Tm / (2 * Ti)), each operation rounded to binary32;
    the two results depend on Kp and Ti only, so equal inputs give
    equal coefficients. *)
Theorem recalculateCoefficients_tustin (s : state) :
  (f0 <? Kp s)%f32 = true -> (f0 <? Ti s)%f32 = true ->
  Kpos (recalculateCoefficients s) = (Kp s * (f1 + Tm / (f2 * Ti s)))%f32
  /\ Kneg (recalculateCoefficients s) = (- Kp s * (f1 - Tm / (f2 * Ti s)))%f32
  /\ (forall s' : state, Kp s' = Kp s -> Ti s' = Ti s ->
        Kpos (recalculateCoefficients s') = Kpos (recalculateCoefficients s)
        /\ Kneg (recalculateCoefficients s') = Kneg (recalculateCoefficients s)).
Proof.
  intros HK HT. rewrite (recalculateCoefficients_accepts s HK HT).
  split; [reflexivity|]. split; [reflexivity|].
  intros s' EK ET.
  rewrite (recalculateCoefficients_accepts s') by congruence.
  fields. rewrite EK, ET. split; reflexivity.
Qed.

(** The compiled-in tuning, Kp = 5 and Ti = 250. *)
Lemma recalculateCoefficients_tustin_witness :
  Kpos (recalculateCoefficients globals) = (f5 * (f1 + Tm / (f2 * f250)))%f32
  /\ Kneg (recalculateCoefficients globals) = (- f5 * (f1 - Tm / (f2 * f250)))%f32
  /\ (forall s' : state, Kp s' = f5 -> Ti s' = f250 ->
        Kpos (recalculateCoefficients s') = Kpos (recalculateCoefficients globals)
        /\ Kneg (recalculateCoefficients s') = Kneg (recalculateCoefficients globals)).
Proof. apply (recalculateCoefficients_tustin globals); reflexivity. Defined.

(** C4.  When the gain or the integral time is not above zero,
    [recalculateCoefficients] prints its diagnostic and returns: the
    stored coefficients, like every other variable, are unchanged. *)
Theorem recalculateCoefficients_rejects (s : state) :
  (Kp s <=? f0)%f32 = true \/ (Ti s <=? f0)%f32 = true ->
  recalculateCoefficients s = println LogCoefError s
  /\ Kpos (recalculateCoefficients s) = Kpos s
  /\ Kneg (recalculateCoefficients s) = Kneg s.
Proof.
  intros H.
  assert (E : recalculateCoefficients s = println LogCoefError s).
  { unfold recalculateCoefficients.
    destruct H as [H|H]; rewrite H; [rewrite orb_true_r|]; reflexivity. }
  rewrite E. repeat split.
Qed.

(** A gain of -1. *)
Lemma recalculateCoefficients_rejects_witness :
  recalculateCoefficients (set_Kp (- f1)%f32 initial) = println LogCoefError (set_Kp (- f1)%f32 initial)
  /\ Kpos (recalculateCoefficients (set_Kp (- f1)%f32 initial)) = Kpos initial
  /\ Kneg (recalculateCoefficients (set_Kp (- f1)%f32 initial)) = Kneg initial.
Proof. apply (recalculateCoefficients_rejects (set_Kp (- f1)%f32 initial)). left. reflexivity. Defined.

(** ** Control step *)

Lemma clamp_two_steps (x : float32) :
  (let u := if (x <? f0)%f32 then f0 else x in
   if (f100 <? u)%f32 then f100 else u) = clamp x f0 f100.
Proof. unfold clamp. destruct (x <? f0)%f32; reflexivity. Qed.

Lemma clamp_idem (x : float32) : clamp (clamp x f0 f100) f0 f100 = clamp x f0 f100.
Proof.
  unfold clamp. destruct (x <? f0)%f32 eqn:A; [reflexivity|].
  destruct (f100 <? x)%f32 eqn:B; [reflexivity|]. rewrite A, B. reflexivity.
Qed.

Lemma is_nan_false (x : float32) : is_nan x = false -> x <> S754_nan.
Proof. destruct x; simpl; congruence. Qed.

Lemma degrees_of_range (u : float32) :
  valid u = true -> (f0 <=? u)%f32 = true -> (u <=? f100)%f32 = true ->
  (f0 <=? degrees_of u)%f32 = true /\ (degrees_of u <=? f180)%f32 = true.
Proof.
  intros V L U. split.
  - change f0 with (degrees_of f0) at 1. apply degrees_of_mono; try assumption; reflexivity.
  - change f180 with (degrees_of f100). apply degrees_of_mono; try assumption.
    reflexivity.
Qed.

Lemma setServoDegrees_pos (deg : float32) (s : state) :
  pos_deg (setServoDegrees deg s) = clamp deg SERVO_DEG_MIN SERVO_DEG_MAX.
Proof.
  unfold setServoDegrees, clamp. fields.
  destruct (deg <? SERVO_DEG_MIN)%f32; reflexivity.
Qed.

Lemma clamp_id (x lo hi : float32) :
  (x <? lo)%f32 = false -> (hi <? x)%f32 = false -> clamp x lo hi = x.
Proof. intros A B. unfold clamp. rewrite A, B. reflexivity. Qed.

Lemma degrees_of_clamped (u : float32) :
  valid u = true ->
  clamp (degrees_of (clamp u f0 f100)) SERVO_DEG_MIN SERVO_DEG_MAX = degrees_of (clamp u f0 f100).
Proof.
  intros V. destruct (is_nan (clamp u f0 f100)) eqn:N.
  - destruct (clamp u f0 f100); try discriminate. reflexivity.
  - assert (Hu : u <> S754_nan).
    { intros ->. discriminate. }
    destruct (clamp_range u Hu) as [L U].
    destruct (degrees_of_range _ (clamp_valid u V) L U) as [L' U'].
    apply clamp_id; apply SFleb_ltb_false; assumption.
Qed.

Lemma raw_output_valid (s : state) : wf_state s = true -> valid (raw_output s) = true.
Proof.
  unfold wf_state. intros H.
  repeat (apply andb_prop in H; destruct H as [H ?]).
  unfold raw_output. repeat first [apply add_valid | apply mul_valid | apply sub_valid]; assumption.
Qed.

Lemma applyControl_fields (s : state) :
  wf_state s = true ->
  error_k_1 (applyControl s) = (temp_setpoint s - temp_actual s)%f32
  /\ u_logic (applyControl s) = clamp (raw_output s) f0 f100
  /\ pos_deg (applyControl s) = degrees_of (clamp (raw_output s) f0 f100).
Proof.
  intros W. unfold applyControl. fold (raw_output s).
  rewrite setServoDegrees_pos. cbn [error_k_1 u_logic set_u_logic set_error_k_1 setServoDegrees set_servo_angle set_pos_deg].
  rewrite clamp_two_steps, scaleToDegrees_clamp, clamp_idem.
  rewrite degrees_of_clamped by (apply raw_output_valid; assumption).
  repeat split.
Qed.

(** C2.  One control step computes error = setpoint - processVariable
    and rawOutput = currentOutput + b0 * error + b1 * previousError,
    stores the error as the previous error, passes the raw output
    through the two comparisons of the saturation and stores the
    result, and maps the new output linearly to degrees.  The stored
    output is in [0, 100] exactly when the raw output is a number: on a
    NaN both comparisons are false and the NaN is stored, so the step
    does not clamp every raw output to [0, 100].  With b0 = 5.01,
    b1 = -4.99, setpoint 30, process variable 25, output 50 and previous
    error 0 the error is 5, the new output is 75.05 (the binary32
    nearest to it) and the position is 135.09 to within 0.00002 (the
    binary32 next above the one nearest to it).  The state reached from
    start-up by a setpoint of 1e38 and one control period holds binary32
    data, its raw output is a NaN, and the step stores a NaN, which is
    not in [0, 100]. *)
Theorem applyControl_step (s : state) :
  wf_state s = true ->
  let error := (temp_setpoint s - temp_actual s)%f32 in
  let rawOutput := (u_logic s + Kpos s * error + Kneg s * error_k_1 s)%f32 in
  let s' := applyControl s in
  u_logic s' = clamp rawOutput f0 f100
  /\ (is_nan rawOutput = false -> in_range (u_logic s') = true)
  /\ (is_nan rawOutput = true -> u_logic s' = S754_nan /\ in_range (u_logic s') = false)
  /\ error_k_1 s' = error
  /\ pos_deg s' = (SERVO_DEG_MIN + (u_logic s' / f100) * (SERVO_DEG_MAX - SERVO_DEG_MIN))%f32
  /\ (Kpos s = decimal 501 100 -> Kneg s = (- decimal 499 100)%f32 ->
      temp_setpoint s = of_Z 30 -> temp_actual s = of_Z 25 ->
      u_logic s = of_Z 50 -> error_k_1 s = of_Z 0 ->
      error = of_Z 5
      /\ u_logic s' = decimal 7505 100
      /\ near (u_logic s') (7505 # 100) (1 # 100000) = true
      /\ pos_deg s' = SFsucc prec emax (decimal 13509 100)
      /\ near (pos_deg s') (13509 # 100) (2 # 100000) = true)
  /\ (let s1 := run [Message MQTT_SUB_TOPIC_SP (bytes "1e38"); Period true] initial in
      wf_state s1 = true
      /\ is_nan (u_logic s1 + Kpos s1 * (temp_setpoint s1 - temp_actual s1)
                 + Kneg s1 * error_k_1 s1)%f32 = true
      /\ u_logic (applyControl s1) = S754_nan
      /\ in_range (u_logic (applyControl s1)) = false).
Proof.
  intros W error rawOutput s'.
  destruct (applyControl_fields s W) as (He & Hu & Hp).
  fold s' in He, Hu, Hp. unfold raw_output in Hu, Hp.
  fold error in Hu, Hp, He. fold rawOutput in Hu, Hp.
  split; [exact Hu|]. split; [|split].
  - intros N. rewrite Hu.
    destruct (clamp_range rawOutput (is_nan_false _ N)) as [L U].
    unfold in_range. rewrite L, U. reflexivity.
  - intros N. rewrite Hu. destruct rawOutput; try discriminate N. split; reflexivity.
  - split; [exact He|]. split; [rewrite Hp, Hu; reflexivity|]. split.
    + intros Eb0 Eb1 Esp Epv Eu Ee.
      assert (Eerr : error = of_Z 5) by (unfold error; rewrite Esp, Epv; reflexivity).
      assert (Eraw : rawOutput = decimal 7505 100).
      { unfold rawOutput. rewrite Eerr, Eb0, Eb1, Eu, Ee. vm_compute. reflexivity. }
      rewrite Hp, Hu, Eraw. repeat split; try assumption; vm_compute; reflexivity.
    + vm_compute. repeat split; reflexivity.
Qed.

(** The worked scenario. *)
Lemma applyControl_step_witness :
  u_logic (applyControl scenario) = decimal 7505 100
  /\ in_range (u_logic (applyControl scenario)) = true
  /\ near (pos_deg (applyControl scenario)) (13509 # 100) (2 # 100000) = true.
Proof.
  destruct (applyControl_step scenario) as (_ & R & _ & _ & _ & H & _); [reflexivity|].
  destruct H as (_ & Hu & _ & _ & Hd); try reflexivity.
  split; [exact Hu|]. split; [apply R; reflexivity|exact Hd].
Defined.

(** C3.  After a control step the output is in [0, 100] or is a NaN:
    the two comparisons of the saturation are both false on a NaN.
    From start-up, a setpoint of 1e38 followed by two control periods
    leaves a NaN in [u_logic]: the products b0 * e and b1 * e' overflow
    to infinities of opposite signs. *)
Theorem applyControl_output_range :
  (forall s : state,
      is_nan (u_logic (applyControl s)) = true \/ in_range (u_logic (applyControl s)) = true)
  /\ (let s := run [Message MQTT_SUB_TOPIC_SP (bytes "1e38"); Period true; Period true] initial in
      u_logic s = S754_nan /\ in_range (u_logic s) = false).
Proof.
  split.
  - intros s. unfold applyControl. fold (raw_output s).
    cbn [u_logic set_u_logic set_error_k_1 setServoDegrees set_servo_angle set_pos_deg].
    rewrite clamp_two_steps.
    destruct (is_nan (raw_output s)) eqn:N.
    + left. destruct (raw_output s); try discriminate. reflexivity.
    + right. destruct (clamp_range (raw_output s) (is_nan_false _ N)) as [L U].
      unfold in_range. rewrite L, U. reflexivity.
  - vm_compute. split; reflexivity.
Qed.

(** ** Every reachable state holds binary32 data *)

Lemma wf_state_iff (s : state) :
  wf_state s = true <->
  valid (Kp s) = true /\ valid (Ti s) = true /\ valid (Kpos s) = true
  /\ valid (Kneg s) = true /\ valid (u_logic s) = true /\ valid (pos_deg s) = true
  /\ valid (temp_setpoint s) = true /\ valid (temp_actual s) = true
  /\ valid (error_k_1 s) = true.
Proof. unfold wf_state. rewrite !andb_true_iff. tauto. Qed.

Lemma of_bits_valid_f32 (x : Z) : valid (CLib.of_bits 23 8 x) = true.
Proof.
  unfold CLib.of_bits.
  pose proof (Z.mod_pos_bound x (2 ^ 23) ltac:(reflexivity)) as Hf.
  pose proof (Z.mod_pos_bound (x / 2 ^ 23) (2 ^ 8) ltac:(reflexivity)) as Hb.
  set (frac := x mod 2 ^ 23) in *. set (biased := (x / 2 ^ 23) mod 2 ^ 8) in *.
  destruct (Z.eqb_spec biased 0) as [B0|B0].
  - destruct frac as [|m|m] eqn:F; try reflexivity.
    unfold valid. cbn [valid_binary]. unfold bounded, canonical_mantissa.
    change (Z.pos (digits2_pos m)) with (Zdigits2 (Z.pos m)).
    pose proof (Zdigits2_lt_pow (Z.pos m) 23 ltac:(lia) ltac:(lia) ltac:(lia)) as Hd.
    pose proof (Zdigits2_nonneg (Z.pos m)).
    apply andb_true_intro. split; [apply Z.eqb_eq|apply Z.leb_le].
    + unfold fexp, emin, F32.prec, F32.emax. change (1 - (2 ^ (8 - 1) - 1) - 23) with (-149). lia.
    + vm_compute. discriminate.
  - destruct (Z.eqb_spec biased (2 ^ 8 - 1)) as [B1|B1].
    + destruct (frac =? 0); reflexivity.
    + destruct (frac + 2 ^ 23) as [|m|m] eqn:F; try reflexivity.
      unfold valid. cbn [valid_binary]. unfold bounded, canonical_mantissa.
      change (Z.pos (digits2_pos m)) with (Zdigits2 (Z.pos m)).
      assert (Hm : 2 ^ 23 <= Z.pos m < 2 ^ 24).
      { rewrite <- F. change (2 ^ 24) with (2 ^ 23 + 2 ^ 23). lia. }
      pose proof (Zdigits2_lt_pow (Z.pos m) 24 ltac:(lia) ltac:(lia) ltac:(lia)) as Hd1.
      pose proof (Zdigits2_ge_pow (Z.pos m) 23 ltac:(lia) ltac:(lia)) as Hd2.
      change (2 ^ 8 - 1) with 255 in B1. change (2 ^ 8) with 256 in Hb.
      apply andb_true_intro. split; [apply Z.eqb_eq|apply Z.leb_le].
      * unfold fexp, emin, F32.prec, F32.emax. change (2 ^ (8 - 1) - 1) with 127. lia.
      * unfold F32.prec, F32.emax. change (2 ^ (8 - 1) - 1) with 127. lia.
Qed.

Lemma double_to_float_valid (d : spec_float) : valid (CLib.double_to_float d) = true.
Proof.
  destruct d; try reflexivity. apply binary_round_valid. reflexivity.
Qed.

Lemma decode_valid (payload : list byte) (v : float32) (line : serial_line) :
  decode payload = (Some v, line) -> valid v = true.
Proof.
  unfold decode.
  destruct (isAsciiNumber payload); [intros [= <- _]; apply double_to_float_valid|].
  destruct (8 <=? List.length payload)%nat; [intros [= <- _]; apply double_to_float_valid|].
  destruct (4 <=? List.length payload)%nat; [intros [= <- _]; apply of_bits_valid_f32|].
  discriminate.
Qed.

Lemma opp_valid (x : float32) : valid x = true -> valid (- x)%f32 = true.
Proof. destruct x; intros H; exact H. Qed.

Lemma recalculateCoefficients_wf (s : state) :
  wf_state s = true -> wf_state (recalculateCoefficients s) = true.
Proof.
  intros W. unfold recalculateCoefficients.
  destruct ((Ti s <=? f0)%f32 || (Kp s <=? f0)%f32)%bool; [exact W|].
  apply wf_state_iff in W. destruct W as (A & B & C & D & E & F & G & H & I).
  apply wf_state_iff. fields.
  repeat split; try assumption;
    repeat first [apply mul_valid | apply add_valid | apply sub_valid | apply div_valid
                 | apply opp_valid | assumption | reflexivity].
Qed.

Lemma dispatch_wf (topic : string) (v : float32) (s : state) :
  valid v = true -> wf_state s = true -> wf_state (dispatch topic v s) = true.
Proof.
  intros V W. unfold dispatch.
  destruct (negb (isfinite v)); [exact W|].
  assert (WK : wf_state (set_Kp v s) = true).
  { apply wf_state_iff in W. apply wf_state_iff. fields. tauto. }
  assert (WT : wf_state (set_Ti v s) = true).
  { apply wf_state_iff in W. apply wf_state_iff. fields. tauto. }
  destruct (String.eqb topic MQTT_SUB_TOPIC_KP).
  { destruct (f0 <? v)%f32; [apply recalculateCoefficients_wf, WK|exact W]. }
  destruct (String.eqb topic MQTT_SUB_TOPIC_TI).
  { destruct (f0 <? v)%f32; [apply recalculateCoefficients_wf, WT|exact W]. }
  destruct (String.eqb topic MQTT_SUB_TOPIC_SP).
  { apply wf_state_iff in W. apply wf_state_iff. fields. tauto. }
  destruct (String.eqb topic MQTT_SUB_TOPIC_PV).
  { apply wf_state_iff in W. apply wf_state_iff. fields. tauto. }
  exact W.
Qed.

Lemma mqttCallback_wf (topic : string) (payload : list byte) (s : state) :
  wf_state s = true -> wf_state (mqttCallback topic payload s) = true.
Proof.
  intros W. unfold mqttCallback.
  destruct (decode payload) as [[v|] line] eqn:D; [|exact W].
  apply dispatch_wf; [eapply decode_valid; eassumption|exact W].
Qed.

Lemma applyControl_wf (s : state) : wf_state s = true -> wf_state (applyControl s) = true.
Proof.
  intros W. destruct (applyControl_fields s W) as (He & Hu & Hp).
  pose proof (raw_output_valid s W) as Vr.
  apply wf_state_iff in W. destruct W as (A & B & C & D & E & F & G & H & I).
  apply wf_state_iff. rewrite He, Hu, Hp.
  repeat split; try assumption.
  - apply clamp_valid, Vr.
  - unfold degrees_of.
    repeat first [apply mul_valid | apply add_valid | apply sub_valid | apply div_valid
                 | apply clamp_valid | assumption | reflexivity].
  - apply sub_valid; assumption.
Qed.

Lemma pi_reset_wf (s : state) : wf_state s = true -> wf_state (pi_reset s) = true.
Proof.
  intros W. apply wf_state_iff in W. apply wf_state_iff. unfold pi_reset. fields. tauto.
Qed.

Lemma control_step_wf (link : bool) (s : state) :
  wf_state s = true -> wf_state (control_step link s) = true.
Proof.
  intros W. unfold control_step. destruct link; [|exact W].
  unfold control_body.
  apply (applyControl_wf (if (sampleIndex s =? 5) && negb (initial_state_reset s)
                          then pi_reset s else s)).
  destruct ((sampleIndex s =? 5) && negb (initial_state_reset s)); [apply pi_reset_wf|]; exact W.
Qed.

Lemma run_wf (evs : list event) (s : state) :
  wf_state s = true -> wf_state (run evs s) = true.
Proof.
  revert s. induction evs as [|ev evs IH]; intros s W; [exact W|].
  change (run (ev :: evs) s) with (run evs (step s ev)). apply IH.
  destruct ev; [apply control_step_wf|apply mqttCallback_wf]; exact W.
Qed.

Lemma reachable_wf (evs : list event) : wf_state (run evs initial) = true.
Proof. apply run_wf. reflexivity. Qed.

(** ** What each activity leaves alone *)

Lemma resets_println (l : serial_line) (s : state) :
  resets (println l s) = resets s + (if is_reset_line l then 1 else 0).
Proof.
  unfold resets, println. cbn [serial].
  rewrite filter_app, length_app, Nat2Z.inj_add. cbn [filter].
  destruct (is_reset_line l); reflexivity.
Qed.

Lemma same_memory_refl (s : state) : same_memory s s.
Proof. repeat split. Qed.

Lemma same_memory_trans (s1 s2 s3 : state) :
  same_memory s1 s2 -> same_memory s2 s3 -> same_memory s1 s3.
Proof. unfold same_memory. intuition congruence. Qed.

Lemma same_memory_println (l : serial_line) (s : state) :
  is_reset_line l = false -> same_memory s (println l s).
Proof.
  intros H. repeat split. rewrite resets_println, H. lia.
Qed.

Lemma recalculateCoefficients_memory (s : state) : same_memory s (recalculateCoefficients s).
Proof.
  unfold recalculateCoefficients.
  destruct ((Ti s <=? f0)%f32 || (Kp s <=? f0)%f32)%bool.
  - apply same_memory_println. reflexivity.
  - repeat split. rewrite resets_println. cbn [is_reset_line]. unfold resets. fields. lia.
Qed.

Lemma dispatch_memory (topic : string) (v : float32) (s : state) :
  same_memory s (dispatch topic v s).
Proof.
  unfold dispatch.
  destruct (negb (isfinite v)); [apply same_memory_println; reflexivity|].
  destruct (String.eqb topic MQTT_SUB_TOPIC_KP).
  { destruct (f0 <? v)%f32; [|apply same_memory_refl].
    eapply same_memory_trans; [|apply recalculateCoefficients_memory]. repeat split. }
  destruct (String.eqb topic MQTT_SUB_TOPIC_TI).
  { destruct (f0 <? v)%f32; [|apply same_memory_refl].
    eapply same_memory_trans; [|apply recalculateCoefficients_memory]. repeat split. }
  destruct (String.eqb topic MQTT_SUB_TOPIC_SP).
  { repeat split. rewrite resets_println. cbn [is_reset_line]. unfold resets. fields. lia. }
  destruct (String.eqb topic MQTT_SUB_TOPIC_PV).
  { repeat split. rewrite resets_println. cbn [is_reset_line]. unfold resets. fields. lia. }
  apply same_memory_println. reflexivity.
Qed.

Lemma decode_line (payload : list byte) : is_reset_line (snd (decode payload)) = false.
Proof.
  unfold decode. destruct (isAsciiNumber payload); [reflexivity|].
  destruct (8 <=? List.length payload)%nat; [reflexivity|].
  destruct (4 <=? List.length payload)%nat; reflexivity.
Qed.

Lemma mqttCallback_memory (topic : string) (payload : list byte) (s : state) :
  same_memory s (mqttCallback topic payload s).
Proof.
  unfold mqttCallback. pose proof (decode_line payload) as Hl.
  destruct (decode payload) as [[v|] line]; cbn [snd] in Hl.
  - eapply same_memory_trans; [apply same_memory_println; exact Hl|apply dispatch_memory].
  - apply same_memory_println. exact Hl.
Qed.

Lemma control_body_memory (s : state) :
  sampleIndex (control_body s) = (sampleIndex s + 1) mod ULONG_MOD
  /\ initial_state_reset (control_body s) = initial_state_reset s
  /\ resets (control_body s) = resets s.
Proof.
  unfold control_body. repeat split.
  rewrite resets_println. cbn [is_reset_line]. unfold resets, applyControl, setServoDegrees, publishState.
  fields. lia.
Qed.

Lemma pi_reset_effect (s : state) :
  u_logic (pi_reset s) = f50 /\ error_k_1 (pi_reset s) = f0
  /\ temp_actual (pi_reset s) = temp_setpoint s
  /\ initial_state_reset (pi_reset s) = true
  /\ sampleIndex (pi_reset s) = sampleIndex s
  /\ resets (pi_reset s) = resets s + 1.
Proof.
  unfold pi_reset. repeat split.
  unfold resets. fields. rewrite filter_app, length_app, Nat2Z.inj_add. reflexivity.
Qed.

Lemma run_app (evs1 evs2 : list event) (s : state) :
  run (evs1 ++ evs2) s = run evs2 (run evs1 s).
Proof. unfold run. apply fold_left_app. Qed.

Lemma periods_up_app (evs1 evs2 : list event) :
  periods_up (evs1 ++ evs2) = periods_up evs1 + periods_up evs2.
Proof. unfold periods_up. rewrite filter_app, length_app, Nat2Z.inj_add. reflexivity. Qed.

Lemma periods_up_nonneg (evs : list event) : 0 <= periods_up evs.
Proof. unfold periods_up. lia. Qed.

Lemma applyControl_memory (s : state) :
  u_logic (applyControl s) = clamp (raw_output s) f0 f100
  /\ error_k_1 (applyControl s) = (temp_setpoint s - temp_actual s)%f32
  /\ temp_actual (applyControl s) = temp_actual s
  /\ temp_setpoint (applyControl s) = temp_setpoint s.
Proof.
  unfold applyControl. fold (raw_output s). unfold setServoDegrees. fields.
  rewrite clamp_two_steps. repeat split.
Qed.

Lemma sub_self (x : float32) : isfinite x = true -> (x - x)%f32 = f0.
Proof.
  destruct x as [s|s| |s m e]; try discriminate; intros _.
  { destruct s; reflexivity. }
  unfold F32.sub, SFsub. cbv zeta.
  match goal with |- binary_normalize _ _ (?f ?a ?a) _ _ = _ =>
    replace (f a a) with 0 by (symmetry; apply Z.sub_diag)
  end.
  reflexivity.
Qed.

Lemma mul_zero_r (k z : float32) :
  isfinite k = true -> z = f0 -> exists sg, (k * z)%f32 = S754_zero sg.
Proof.
  intros F ->. destruct k as [sk|sk| |sk mk ek]; try discriminate; eexists; reflexivity.
Qed.

Lemma add_zero_r (x : float32) (sg : bool) :
  x = f50 -> (x + S754_zero sg)%f32 = f50.
Proof. intros ->. destruct sg; reflexivity. Qed.

Lemma pi_reset_fields (s : state) :
  temp_setpoint (pi_reset s) = temp_setpoint s
  /\ temp_actual (pi_reset s) = temp_setpoint s
  /\ u_logic (pi_reset s) = f50 /\ error_k_1 (pi_reset s) = f0
  /\ Kpos (pi_reset s) = Kpos s /\ Kneg (pi_reset s) = Kneg s.
Proof. unfold pi_reset. fields. repeat split. Qed.

Lemma control_body_fields (s : state) :
  u_logic (control_body s) = u_logic (applyControl s)
  /\ error_k_1 (control_body s) = error_k_1 (applyControl s)
  /\ temp_actual (control_body s) = temp_actual (applyControl s).
Proof. unfold control_body, publishState. fields. repeat split. Qed.

(** The control step that follows the warm-start block, when the
    setpoint and the coefficients are finite: the error is zero and the
    output stays at 50. *)
Lemma control_body_after_reset (s : state) :
  isfinite (temp_setpoint s) = true -> isfinite (Kpos s) = true -> isfinite (Kneg s) = true ->
  u_logic (control_body (pi_reset s)) = f50
  /\ error_k_1 (control_body (pi_reset s)) = f0
  /\ temp_actual (control_body (pi_reset s)) = temp_setpoint s.
Proof.
  intros Fsp Fp Fn.
  destruct (pi_reset_fields s) as (Esp & Epv & Eu & Ee & Ep & En).
  destruct (control_body_fields (pi_reset s)) as (-> & -> & ->).
  destruct (applyControl_memory (pi_reset s)) as (-> & -> & -> & _).
  unfold raw_output. rewrite Esp, Epv, Eu, Ee, Ep, En.
  rewrite (sub_self _ Fsp).
  destruct (mul_zero_r (Kpos s) f0 Fp eq_refl) as [s1 ->].
  destruct (mul_zero_r (Kneg s) f0 Fn eq_refl) as [s2 ->].
  rewrite (add_zero_r f50 s1 eq_refl), (add_zero_r f50 s2 eq_refl).
  split; [reflexivity|]. split; reflexivity.
Qed.

(** The three counters of a run from start-up, as functions of the
    number of periods with the link up. *)
Lemma run_counters (evs : list event) :
  let s := run evs initial in
  sampleIndex s = periods_up evs mod ULONG_MOD
  /\ initial_state_reset s = (6 <=? periods_up evs)
  /\ resets s = (if 6 <=? periods_up evs then 1 else 0).
Proof.
  induction evs as [|ev evs IH] using rev_ind.
  - repeat split.
  - rewrite run_app, periods_up_app. cbn zeta in IH. destruct IH as (Hi & Hf & Hr).
    pose proof (periods_up_nonneg evs) as Hn.
    set (s := run evs initial) in *. set (n := periods_up evs) in *.
    change (run [ev] s) with (step s ev).
    destruct ev as [[|]|topic payload].
    + change (periods_up [Period true]) with 1.
      cbn [step]. unfold control_step. rewrite Hi, Hf.
      assert (Hmod : 0 <= n mod ULONG_MOD < ULONG_MOD) by (apply Z.mod_pos_bound; reflexivity).
      assert (Hnext : (n mod ULONG_MOD + 1) mod ULONG_MOD = (n + 1) mod ULONG_MOD)
        by (apply Z.add_mod_idemp_l; discriminate).
      destruct (Z.eqb_spec (n mod ULONG_MOD) 5) as [H5|H5];
        destruct (Z.leb_spec 6 n) as [H6|H6]; cbn [andb negb].
      * destruct (control_body_memory s) as (A & B & C).
        rewrite A, B, C, Hi, Hf, Hr, Hnext.
        destruct (Z.leb_spec 6 n); [|lia]. destruct (Z.leb_spec 6 (n + 1)); [|lia].
        repeat split.
      * assert (n = 5).
        { rewrite Z.mod_small in H5; [assumption|]. split; [lia|]. unfold ULONG_MOD. lia. }
        destruct (control_body_memory (pi_reset s)) as (A & B & C).
        destruct (pi_reset_effect s) as (_ & _ & _ & F & I & R).
        rewrite A, B, C, F, I, R, Hi, Hr, Hnext.
        destruct (Z.leb_spec 6 n); [lia|]. destruct (Z.leb_spec 6 (n + 1)); [|lia].
        repeat split.
      * destruct (control_body_memory s) as (A & B & C).
        rewrite A, B, C, Hi, Hf, Hr, Hnext.
        destruct (Z.leb_spec 6 n); [|lia]. destruct (Z.leb_spec 6 (n + 1)); [|lia].
        repeat split.
      * assert (n <> 5).
        { intros ->. apply H5. reflexivity. }
        destruct (control_body_memory s) as (A & B & C).
        rewrite A, B, C, Hi, Hf, Hr, Hnext.
        destruct (Z.leb_spec 6 n); [lia|]. destruct (Z.leb_spec 6 (n + 1)); [lia|].
        repeat split.
    + change (periods_up [Period false]) with 0. rewrite Z.add_0_r.
      cbn [step control_step]. repeat split; assumption.
    + change (periods_up [Message topic payload]) with 0. rewrite Z.add_0_r.
      cbn [step]. destruct (mqttCallback_memory topic payload s) as (_ & _ & A & B & C).
      rewrite A, B, C. repeat split; assumption.
Qed.

(** C5.  In every run from start-up the warm-start block has run once
    when six or more periods have had the link up, and not at all
    before; the flag is set from then on.  After five such periods the
    sample index is 5 and the flag is clear; in such a state the next
    step forces the output to 50, the previous error to 0 and the
    process variable to the setpoint, sets the flag, and goes on with
    the control step, which leaves these three values in place when
    the setpoint and the coefficients are finite.  Once the flag is set
    no step runs the block, whatever the sample index. *)
Theorem warm_start_once (evs : list event) :
  let s := run evs initial in
  resets s = (if 6 <=? periods_up evs then 1 else 0)
  /\ initial_state_reset s = (6 <=? periods_up evs)
  /\ (periods_up evs = 5 -> sampleIndex s = 5 /\ initial_state_reset s = false)
  /\ (forall s0 : state, sampleIndex s0 = 5 -> initial_state_reset s0 = false ->
        control_step true s0 = control_body (pi_reset s0)
        /\ u_logic (pi_reset s0) = f50 /\ error_k_1 (pi_reset s0) = f0
        /\ temp_actual (pi_reset s0) = temp_setpoint s0
        /\ initial_state_reset (pi_reset s0) = true
        /\ (isfinite (temp_setpoint s0) = true -> isfinite (Kpos s0) = true ->
            isfinite (Kneg s0) = true ->
            u_logic (control_step true s0) = f50
            /\ error_k_1 (control_step true s0) = f0
            /\ temp_actual (control_step true s0) = temp_setpoint s0))
  /\ (forall (s0 : state) (link : bool), initial_state_reset s0 = true ->
        control_step link s0 = (if link then control_body s0 else s0)).
Proof.
  destruct (run_counters evs) as (Hi & Hf & Hr). cbn zeta.
  split; [exact Hr|]. split; [exact Hf|]. split; [|split].
  - intros H5. rewrite Hi, Hf, H5. split; reflexivity.
  - intros s0 H5 Hf0.
    assert (E : control_step true s0 = control_body (pi_reset s0)).
    { unfold control_step. rewrite H5, Hf0. reflexivity. }
    destruct (pi_reset_effect s0) as (A & B & C & D & _).
    rewrite E. repeat (split; [assumption|]).
    split; [reflexivity|]. split; [exact A|]. split; [exact B|]. split; [exact C|].
    split; [exact D|]. apply control_body_after_reset.
  - intros s0 link Hf0. unfold control_step. rewrite Hf0, andb_false_r. reflexivity.
Qed.

(** Five periods with the link up. *)
Lemma warm_start_once_witness :
  sampleIndex (run (repeat (Period true) 5) initial) = 5
  /\ initial_state_reset (run (repeat (Period true) 5) initial) = false.
Proof.
  destruct (warm_start_once (repeat (Period true) 5)) as (_ & _ & H & _).
  apply H. reflexivity.
Defined.

Lemma control_task_link_down (n : nat) (s : state) : control_task (repeat false n) s = s.
Proof. induction n; [reflexivity|exact IHn]. Qed.

(** C6.  A period with the link down changes nothing, and so does any
    number of them in a row; over any run without a period with the
    link up, whatever messages are received in between, the output,
    the previous error and the sample index keep their values. *)
Theorem freeze_on_disconnect (evs : list event) (s : state) :
  periods_up evs = 0 ->
  control_step false s = s
  /\ (forall n : nat, control_task (repeat false n) s = s)
  /\ u_logic (run evs s) = u_logic s
  /\ error_k_1 (run evs s) = error_k_1 s
  /\ sampleIndex (run evs s) = sampleIndex s.
Proof.
  intros H. split; [reflexivity|]. split; [intros n; apply control_task_link_down|].
  enough (same_memory s (run evs s)) as (A & B & C & _) by auto.
  revert s. induction evs as [|ev evs IH]; intros s.
  - apply same_memory_refl.
  - change (run (ev :: evs) s) with (run evs (step s ev)).
    change (ev :: evs) with ([ev] ++ evs) in H. rewrite periods_up_app in H.
    pose proof (periods_up_nonneg evs). pose proof (periods_up_nonneg [ev]).
    eapply same_memory_trans; [|apply IH; lia].
    destruct ev as [[|]|topic payload].
    + change (periods_up [Period true]) with 1 in *. lia.
    + apply same_memory_refl.
    + apply mqttCallback_memory.
Qed.

(** Two periods with the link down around a setpoint message. *)
Lemma freeze_on_disconnect_witness :
  control_step false initial = initial
  /\ (forall n : nat, control_task (repeat false n) initial = initial)
  /\ u_logic (run [Period false; Message MQTT_SUB_TOPIC_SP (bytes "30"); Period false] initial) = u_logic initial
  /\ error_k_1 (run [Period false; Message MQTT_SUB_TOPIC_SP (bytes "30"); Period false] initial) = error_k_1 initial
  /\ sampleIndex (run [Period false; Message MQTT_SUB_TOPIC_SP (bytes "30"); Period false] initial) = sampleIndex initial.
Proof. apply freeze_on_disconnect. reflexivity. Defined.

(** ** Servo mapping *)

(** C7.  [scaleToDegrees] is a total function, non-decreasing in its
    argument; it is the linear map applied to the argument clamped to
    [0, 100], and it sends 0 to [SERVO_DEG_MIN] and 100 to
    [SERVO_DEG_MAX]. *)
Theorem scaleToDegrees_monotone (u1 u2 : float32) :
  valid u1 = true -> valid u2 = true -> (u1 <=? u2)%f32 = true ->
  (scaleToDegrees u1 <=? scaleToDegrees u2)%f32 = true
  /\ scaleToDegrees u1 = degrees_of (clamp u1 f0 f100)
  /\ scaleToDegrees u2 = degrees_of (clamp u2 f0 f100)
  /\ scaleToDegrees f0 = SERVO_DEG_MIN
  /\ scaleToDegrees f100 = SERVO_DEG_MAX.
Proof.
  intros V1 V2 Hle. rewrite !scaleToDegrees_clamp.
  destruct (SFleb_not_nan _ _ Hle) as [N1 N2].
  repeat split; try reflexivity.
  apply degrees_of_mono; try (apply clamp_valid; assumption).
  - apply clamp_range; assumption.
  - apply clamp_mono; assumption.
Qed.

(** 25 and 50 percent. *)
Lemma scaleToDegrees_monotone_witness :
  (scaleToDegrees f25 <=? scaleToDegrees f50)%f32 = true
  /\ scaleToDegrees f25 = degrees_of (clamp f25 f0 f100)
  /\ scaleToDegrees f50 = degrees_of (clamp f50 f0 f100)
  /\ scaleToDegrees f0 = SERVO_DEG_MIN
  /\ scaleToDegrees f100 = SERVO_DEG_MAX.
Proof. apply scaleToDegrees_monotone; reflexivity. Defined.

(** ** Decoder *)

Lemma decode_text (payload : list byte) :
  isAsciiNumber payload = true ->
  decode payload =
    (Some (CLib.toFloat (CLib.trim payload)),
     LogAscii (CLib.trim payload) (CLib.toFloat (CLib.trim payload))).
Proof. intros H. unfold decode. rewrite H. reflexivity. Qed.

Lemma decode_short (payload : list byte) :
  isAsciiNumber payload = false -> (List.length payload < 4)%nat ->
  decode payload = (None, LogTooShort (List.length payload)).
Proof.
  intros H L. unfold decode. rewrite H.
  destruct (Nat.leb_spec 8 (List.length payload)); [lia|].
  destruct (Nat.leb_spec 4 (List.length payload)); [lia|]. reflexivity.
Qed.

Lemma same_fields_println (l : serial_line) (s : state) : same_fields s (println l s).
Proof. repeat split. Qed.

(** Characters of the class, read on their codes. *)
Lemma numeric_char_lower (b : byte) :
  numeric_char b = true ->
  CLib.lower b <> 120 /\ CLib.lower b <> 105 /\ CLib.lower b <> 110.
Proof.
  unfold numeric_char, CLib.isdigit, CLib.lower. set (c := CLib.code b). intros H.
  assert (Hc : 48 <= c <= 57 \/ c = 46 \/ c = 45 \/ c = 43 \/ c = 101 \/ c = 69 \/ c = 32).
  { repeat (apply orb_prop in H; destruct H as [H|H]);
      try (apply Z.eqb_eq in H; lia).
    apply andb_prop in H. destruct H as [A B]. apply Z.leb_le in A, B. lia. }
  destruct ((65 <=? c) && (c <=? 90)) eqn:E.
  - apply andb_prop in E. destruct E as [A B]. apply Z.leb_le in A, B. lia.
  - lia.
Qed.

Section Suffix.
Variable P : byte -> bool.

Lemma forallb_skip_space (s : list byte) :
  forallb P s = true -> forallb P (CLib.skip_space s) = true.
Proof.
  induction s as [|b r IH]; intros H; [reflexivity|].
  cbn [CLib.skip_space]. destruct (CLib.isspace b); [|exact H].
  apply IH. cbn [forallb] in H. apply andb_prop in H. tauto.
Qed.

Lemma forallb_drop_space_end (s : list byte) :
  forallb P s = true -> forallb P (CLib.drop_space_end s) = true.
Proof.
  induction s as [|b r IH]; intros H; [reflexivity|].
  cbn [forallb] in H. apply andb_prop in H. destruct H as [Hb Hr].
  specialize (IH Hr). cbn [CLib.drop_space_end].
  destruct (CLib.drop_space_end r) as [|b' r'].
  - destruct (CLib.isspace b); [reflexivity|]. cbn [forallb]. rewrite Hb. reflexivity.
  - cbn [forallb] in *. rewrite Hb. exact IH.
Qed.

Lemma forallb_trim (s : list byte) :
  forallb P s = true -> forallb P (CLib.trim s) = true.
Proof. intros H. apply forallb_drop_space_end, forallb_skip_space, H. Qed.

Lemma forallb_sign (s : list byte) :
  forallb P s = true -> forallb P (snd (CLib.sign s)) = true.
Proof.
  destruct s as [|b r]; intros H; [reflexivity|].
  cbn [CLib.sign]. destruct (CLib.code b =? 45); [|destruct (CLib.code b =? 43)]; cbn [snd];
    try exact H; cbn [forallb] in H; apply andb_prop in H; tauto.
Qed.
End Suffix.

Lemma hex_number_class (s : list byte) :
  forallb numeric_char s = true -> CLib.hex_number s = None.
Proof.
  intros H. destruct s as [|z [|x r]]; try reflexivity.
  cbn [forallb] in H. apply andb_prop in H. destruct H as [_ H].
  apply andb_prop in H. destruct H as [Hx _].
  destruct (numeric_char_lower x Hx) as (N & _).
  unfold CLib.hex_number.
  destruct (Z.eqb_spec (CLib.lower x) 120); [contradiction|].
  rewrite andb_false_r. reflexivity.
Qed.

Lemma spells_class (c1 c2 c3 : Z) (s : list byte) :
  forallb numeric_char s = true -> c1 = 105 \/ c1 = 110 ->
  CLib.spells [c1; c2; c3] s = false.
Proof.
  intros H Hc. destruct s as [|b r]; [reflexivity|].
  cbn [forallb] in H. apply andb_prop in H. destruct H as [Hb _].
  destruct (numeric_char_lower b Hb) as (_ & N1 & N2).
  unfold CLib.spells. cbn [combine forallb fst snd].
  destruct (Z.eqb_spec c1 (CLib.lower b)); [lia|]. reflexivity.
Qed.

Lemma digits_nonneg (s : list byte) (acc cnt : Z) :
  0 <= acc -> 0 <= fst (fst (CLib.digits acc cnt s)).
Proof.
  revert acc cnt. induction s as [|b r IH]; intros acc cnt H; [exact H|].
  cbn [CLib.digits]. destruct (CLib.isdigit b) eqn:D; [|exact H].
  apply IH. unfold CLib.isdigit in D. apply andb_prop in D. destruct D as [A _].
  apply Z.leb_le in A. unfold CLib.digit_val. lia.
Qed.

Lemma decimal_number_nonneg (s : list byte) (m e : Z) :
  CLib.decimal_number s = Some (m, e) -> 0 <= m.
Proof.
  unfold CLib.decimal_number.
  pose proof (digits_nonneg s 0 0 ltac:(lia)) as H1.
  destruct (CLib.digits 0 0 s) as [[ip ni] r1]. cbn [fst] in H1.
  assert (H2 : forall r, 0 <= fst (fst (CLib.digits ip 0 r))) by (intros; apply digits_nonneg, H1).
  destruct r1 as [|b r].
  - destruct (ni + 0 =? 0); intros [= <- _]. exact H1.
  - destruct (CLib.code b =? 46).
    + specialize (H2 r). destruct (CLib.digits ip 0 r) as [[m' nf] r2]. cbn [fst] in H2.
      destruct (ni + nf =? 0); intros [= <- _]. exact H2.
    + destruct (ni + 0 =? 0); intros [= <- _]. exact H1.
Qed.

Lemma double_of_decimal_not_nan (neg : bool) (m e : Z) :
  0 <= m -> CLib.double_of_decimal neg m e <> S754_nan.
Proof.
  intros Hm. unfold CLib.double_of_decimal.
  destruct (Z.eqb_spec m 0); [discriminate|].
  destruct (Z.leb_spec 0 e).
  - unfold binary_normalize.
    destruct (cond_Zopp neg (m * 10 ^ e)); [discriminate| |]; apply binary_round_not_nan.
  - destruct (div_core_spec CLib.dprec CLib.demax ltac:(reflexivity) m 0 (10 ^ (- e)) 0
                ltac:(lia) ltac:(apply Z.pow_pos_nonneg; lia)) as [-> _].
    apply bra_not_nan.
    apply Z.div_pos; [|apply Z.pow_pos_nonneg; lia].
    apply Z.mul_nonneg_nonneg; [lia|apply Z.pow_nonneg; lia].
Qed.

Lemma double_to_float_not_nan (d : spec_float) :
  d <> S754_nan -> CLib.double_to_float d <> S754_nan.
Proof.
  destruct d; cbn [CLib.double_to_float]; try congruence.
  intros _. apply binary_round_not_nan.
Qed.

Lemma strtod_class (s : list byte) :
  forallb numeric_char s = true -> CLib.strtod s <> S754_nan.
Proof.
  intros H. unfold CLib.strtod.
  pose proof (forallb_sign _ _ (forallb_skip_space _ _ H)) as Hr.
  destruct (CLib.sign (CLib.skip_space s)) as [neg r]. cbn [snd] in Hr.
  rewrite (hex_number_class r Hr).
  destruct (CLib.decimal_number r) as [[m e]|] eqn:D.
  - apply double_of_decimal_not_nan. eapply decimal_number_nonneg; eassumption.
  - rewrite !spells_class by auto. discriminate.
Qed.

Lemma toFloat_class (payload : list byte) :
  forallb numeric_char payload = true -> is_nan (CLib.toFloat (CLib.trim payload)) = false.
Proof.
  intros H. unfold CLib.toFloat, CLib.atof.
  pose proof (double_to_float_not_nan _ (strtod_class _ (forallb_trim _ _ H))) as N.
  destruct (CLib.double_to_float _); try reflexivity. congruence.
Qed.

Lemma non_digit_numeric (s : list byte) :
  forallb non_digit_char s = true -> forallb numeric_char s = true.
Proof.
  induction s as [|b r IH]; [reflexivity|]. cbn [forallb]. intros H.
  apply andb_prop in H. destruct H as [Hb Hr]. rewrite (IH Hr), andb_true_r.
  unfold non_digit_char in Hb. apply andb_prop in Hb. tauto.
Qed.

Lemma digits_none (s : list byte) (acc cnt : Z) :
  forallb non_digit_char s = true -> CLib.digits acc cnt s = (acc, cnt, s).
Proof.
  destruct s as [|b r]; [reflexivity|]. cbn [forallb CLib.digits]. intros H.
  apply andb_prop in H. destruct H as [Hb _].
  unfold non_digit_char in Hb. apply andb_prop in Hb. destruct Hb as [_ Hb].
  apply negb_true_iff in Hb. rewrite Hb. reflexivity.
Qed.

Lemma decimal_number_none (s : list byte) :
  forallb non_digit_char s = true -> CLib.decimal_number s = None.
Proof.
  intros H. unfold CLib.decimal_number. rewrite (digits_none s 0 0 H).
  destruct s as [|b r]; [reflexivity|].
  destruct (CLib.code b =? 46); [|reflexivity].
  cbn [forallb] in H. apply andb_prop in H. destruct H as [_ Hr].
  rewrite (digits_none r 0 0 Hr). reflexivity.
Qed.

Lemma toFloat_no_digit (payload : list byte) :
  forallb non_digit_char payload = true -> CLib.toFloat (CLib.trim payload) = f0.
Proof.
  intros H. unfold CLib.toFloat, CLib.atof, CLib.strtod.
  pose proof (forallb_sign _ _ (forallb_skip_space _ _ (forallb_trim _ _ H))) as Hr.
  destruct (CLib.sign (CLib.skip_space (CLib.trim payload))) as [neg r]. cbn [snd] in Hr.
  rewrite (hex_number_class r (non_digit_numeric r Hr)), (decimal_number_none r Hr).
  rewrite !spells_class by (auto using non_digit_numeric). reflexivity.
Qed.

(** C8, as amended.  A payload whose first 64 bytes are in the
    character class is decoded as text: the value is [String::toFloat]
    of the trimmed text and the message is handled as any decoded
    value.  It is rejected, with every controller variable unchanged,
    when that value is not finite.  Text made of class characters only
    never parses to a NaN (so no payload of at most 64 bytes that
    passes the test does), and text without any digit parses to 0.0,
    which on the setpoint topic becomes the setpoint. *)
Theorem text_payload_decoding (topic : string) (payload : list byte) (s : state) :
  isAsciiNumber payload = true ->
  let text := CLib.trim payload in
  let value := CLib.toFloat text in
  decode payload = (Some value, LogAscii text value)
  /\ mqttCallback topic payload s = dispatch topic value (println (LogAscii text value) s)
  /\ (isfinite value = false ->
        mqttCallback topic payload s = println LogInvalid (println (LogAscii text value) s)
        /\ same_fields s (mqttCallback topic payload s))
  /\ ((List.length payload <= 64)%nat -> is_nan value = false)
  /\ (forallb non_digit_char payload = true ->
        value = f0
        /\ mqttCallback MQTT_SUB_TOPIC_SP payload s =
             println (LogNewSP f0) (set_temp_setpoint f0 (println (LogAscii text f0) s))).
Proof.
  intros H text value.
  assert (D : decode payload = (Some value, LogAscii text value)) by (apply decode_text, H).
  assert (M : forall t, mqttCallback t payload s = dispatch t value (println (LogAscii text value) s)).
  { intros t. unfold mqttCallback. rewrite D. reflexivity. }
  split; [exact D|]. split; [apply M|]. split; [|split].
  - intros F. rewrite M. unfold dispatch. rewrite F. cbn [negb]. split; [reflexivity|].
    repeat split.
  - intros L. apply toFloat_class. unfold isAsciiNumber in H.
    rewrite firstn_all2 in H by exact L. exact H.
  - intros Hn. assert (V : value = f0) by (apply toFloat_no_digit, Hn).
    split; [exact V|]. rewrite M, V. reflexivity.
Qed.

(** The one-byte text ["+"] on the setpoint topic. *)
Lemma text_payload_decoding_witness :
  CLib.toFloat (CLib.trim (bytes "+")) = f0
  /\ mqttCallback MQTT_SUB_TOPIC_SP (bytes "+") initial =
       println (LogNewSP f0)
         (set_temp_setpoint f0 (println (LogAscii (CLib.trim (bytes "+")) f0) initial)).
Proof.
  destruct (text_payload_decoding MQTT_SUB_TOPIC_SP (bytes "+") initial) as (_ & _ & _ & _ & H);
    [reflexivity|].
  apply H. reflexivity.
Defined.

(** C8, counterexample.  The payload ["+"] passes the character test
    and is not a number; it does not parse to a NaN and it changes the
    setpoint. *)
Lemma malformed_text_not_rejected :
  isAsciiNumber (bytes "+") = true
  /\ is_nan (CLib.toFloat (CLib.trim (bytes "+"))) = false
  /\ ~ same_fields initial (mqttCallback MQTT_SUB_TOPIC_SP (bytes "+") initial).
Proof.
  split; [reflexivity|]. split; [reflexivity|].
  intros (_ & _ & _ & _ & H & _). vm_compute in H. discriminate.
Qed.

(** C9, as amended.  The text ["23.5"] decodes to 23.5; the eight
    bytes of the binary64 12.0 decode to 12.0; a payload of three bytes
    that fails the character test is rejected with every controller
    variable unchanged. *)
Theorem decoder_disambiguation (topic : string) (payload : list byte) (s : state) :
  List.length payload = 3%nat -> isAsciiNumber payload = false ->
  fst (decode (bytes "23.5")) = Some (decimal 235 10)
  /\ CLib.double_of_bytes double_12 = binary_normalize CLib.dprec CLib.demax 12 0 false
  /\ fst (decode double_12) = Some (of_Z 12)
  /\ mqttCallback topic payload s = println (LogTooShort 3) s
  /\ same_fields s (mqttCallback topic payload s).
Proof.
  intros L A. split; [reflexivity|]. split; [reflexivity|]. split; [reflexivity|].
  assert (E : mqttCallback topic payload s = println (LogTooShort 3) s).
  { unfold mqttCallback. rewrite (decode_short payload A) by lia. rewrite L. reflexivity. }
  rewrite E. split; [reflexivity|apply same_fields_println].
Qed.

(** Three bytes 00 01 02. *)
Lemma decoder_disambiguation_witness :
  mqttCallback MQTT_SUB_TOPIC_SP [Byte.x00; Byte.x01; Byte.x02] initial
    = println (LogTooShort 3) initial.
Proof.
  destruct (decoder_disambiguation MQTT_SUB_TOPIC_SP [Byte.x00; Byte.x01; Byte.x02] initial)
    as (_ & _ & _ & H & _); [reflexivity|reflexivity|exact H].
Defined.

(** C9, counterexample.  The payload ["1.5"] has three bytes and sets
    the setpoint to 1.5. *)
Lemma three_byte_text_accepted :
  List.length (bytes "1.5") = 3%nat
  /\ temp_setpoint (mqttCallback MQTT_SUB_TOPIC_SP (bytes "1.5") initial) = decimal 15 10
  /\ ~ same_fields initial (mqttCallback MQTT_SUB_TOPIC_SP (bytes "1.5") initial).
Proof.
  split; [reflexivity|]. split; [reflexivity|].
  intros (_ & _ & _ & _ & H & _). vm_compute in H. discriminate.
Qed.

(** C10.  An empty payload passes the character test, parses to 0.0,
    which is finite; on the setpoint and process-variable topics it
    sets the variable to 0.0, on the gain and integral-time topics it
    is dropped by the test [value > 0]. *)
Theorem empty_payload_is_zero (s : state) :
  isAsciiNumber [] = true
  /\ CLib.toFloat (CLib.trim []) = f0
  /\ isfinite (CLib.toFloat (CLib.trim [])) = true
  /\ mqttCallback MQTT_SUB_TOPIC_SP [] s =
       println (LogNewSP f0) (set_temp_setpoint f0 (println (LogAscii [] f0) s))
  /\ mqttCallback MQTT_SUB_TOPIC_PV [] s =
       println (LogNewPV f0) (set_temp_actual f0 (println (LogAscii [] f0) s))
  /\ mqttCallback MQTT_SUB_TOPIC_KP [] s = println (LogAscii [] f0) s
  /\ mqttCallback MQTT_SUB_TOPIC_TI [] s = println (LogAscii [] f0) s.
Proof. repeat split. Qed.

(* ================================================================== *)
(** * Further properties of the firmware *)
(* ================================================================== *)

(** ** What a message leaves alone *)

Lemma recalculateCoefficients_frame (s : state) :
  same_actuator s (recalculateCoefficients s)
  /\ Kp (recalculateCoefficients s) = Kp s /\ Ti (recalculateCoefficients s) = Ti s
  /\ temp_setpoint (recalculateCoefficients s) = temp_setpoint s
  /\ temp_actual (recalculateCoefficients s) = temp_actual s.
Proof.
  unfold recalculateCoefficients, same_actuator.
  destruct ((Ti s <=? f0)%f32 || (Kp s <=? f0)%f32)%bool; fields; repeat split.
Qed.

Lemma dispatch_frame (topic : string) (v : float32) (s : state) :
  same_actuator s (dispatch topic v s)
  /\ (topic <> MQTT_SUB_TOPIC_KP -> Kp (dispatch topic v s) = Kp s)
  /\ (topic <> MQTT_SUB_TOPIC_TI -> Ti (dispatch topic v s) = Ti s)
  /\ (topic <> MQTT_SUB_TOPIC_KP -> topic <> MQTT_SUB_TOPIC_TI ->
      Kpos (dispatch topic v s) = Kpos s /\ Kneg (dispatch topic v s) = Kneg s)
  /\ (topic <> MQTT_SUB_TOPIC_SP -> temp_setpoint (dispatch topic v s) = temp_setpoint s)
  /\ (topic <> MQTT_SUB_TOPIC_PV -> temp_actual (dispatch topic v s) = temp_actual s).
Proof.
  unfold dispatch.
  destruct (negb (isfinite v)); [unfold same_actuator; fields; repeat split|].
  destruct (String.eqb_spec topic MQTT_SUB_TOPIC_KP) as [EK|NK].
  { destruct (f0 <? v)%f32; [|unfold same_actuator; repeat split].
    destruct (recalculateCoefficients_frame (set_Kp v s)) as (A & B & C & D & E).
    unfold same_actuator in *. fields. subst topic.
    repeat split; try tauto; try (intros; congruence); try (intros H; discriminate H). }
  destruct (String.eqb_spec topic MQTT_SUB_TOPIC_TI) as [ET|NT].
  { destruct (f0 <? v)%f32; [|unfold same_actuator; repeat split].
    destruct (recalculateCoefficients_frame (set_Ti v s)) as (A & B & C & D & E).
    unfold same_actuator in *. fields. subst topic.
    repeat split; try tauto; try (intros; congruence); try (intros H; discriminate H). }
  destruct (String.eqb_spec topic MQTT_SUB_TOPIC_SP) as [ES|NS].
  { unfold same_actuator. fields. repeat split. intros H. contradiction. }
  destruct (String.eqb_spec topic MQTT_SUB_TOPIC_PV) as [EP|NP].
  { unfold same_actuator. fields. repeat split. intros H. contradiction. }
  unfold same_actuator. fields. repeat split.
Qed.

Lemma mqttCallback_frame (topic : string) (payload : list byte) (s : state) :
  same_actuator s (mqttCallback topic payload s)
  /\ (topic <> MQTT_SUB_TOPIC_KP -> Kp (mqttCallback topic payload s) = Kp s)
  /\ (topic <> MQTT_SUB_TOPIC_TI -> Ti (mqttCallback topic payload s) = Ti s)
  /\ (topic <> MQTT_SUB_TOPIC_KP -> topic <> MQTT_SUB_TOPIC_TI ->
      Kpos (mqttCallback topic payload s) = Kpos s /\ Kneg (mqttCallback topic payload s) = Kneg s)
  /\ (topic <> MQTT_SUB_TOPIC_SP ->
      temp_setpoint (mqttCallback topic payload s) = temp_setpoint s)
  /\ (topic <> MQTT_SUB_TOPIC_PV ->
      temp_actual (mqttCallback topic payload s) = temp_actual s).
Proof.
  unfold mqttCallback. destruct (decode payload) as [[v|] line].
  - exact (dispatch_frame topic v (println line s)).
  - unfold same_actuator. fields. repeat split.
Qed.

(** ** The tuning stays sound *)

Lemma tuned_println (l : serial_line) (s : state) : tuned s -> tuned (println l s).
Proof. intros H. exact H. Qed.

Lemma recalculateCoefficients_tuned (s : state) :
  isfinite (Kp s) = true -> (f0 <? Kp s)%f32 = true ->
  isfinite (Ti s) = true -> (f0 <? Ti s)%f32 = true ->
  tuned (recalculateCoefficients s)
  /\ serial (recalculateCoefficients s) =
       serial s ++ [LogCoef (Kp s) (Ti s) Tm (tustin_b0 (Kp s) (Ti s)) (tustin_b1 (Kp s) (Ti s))].
Proof.
  intros FK HK FT HT. rewrite (recalculateCoefficients_accepts s HK HT).
  unfold tuned. fields. repeat split; assumption.
Qed.

Lemma gt0_finite_dec (v : float32) : (f0 <? v)%f32 = true \/ (f0 <? v)%f32 = false.
Proof. destruct (f0 <? v)%f32; auto. Qed.

Lemma dispatch_tuned (topic : string) (v : float32) (s : state) :
  tuned s -> tuned (dispatch topic v s).
Proof.
  intros T. pose proof T as (FK & HK & FT & HT & EP & EN). unfold dispatch.
  destruct (isfinite v) eqn:Fv; cbn [negb]; [|exact T].
  destruct (String.eqb topic MQTT_SUB_TOPIC_KP).
  { destruct (f0 <? v)%f32 eqn:Hv; [|exact T].
    apply (recalculateCoefficients_tuned (set_Kp v s)); assumption. }
  destruct (String.eqb topic MQTT_SUB_TOPIC_TI).
  { destruct (f0 <? v)%f32 eqn:Hv; [|exact T].
    apply (recalculateCoefficients_tuned (set_Ti v s)); assumption. }
  destruct (String.eqb topic MQTT_SUB_TOPIC_SP); [exact T|].
  destruct (String.eqb topic MQTT_SUB_TOPIC_PV); exact T.
Qed.

Lemma mqttCallback_tuned (topic : string) (payload : list byte) (s : state) :
  tuned s -> tuned (mqttCallback topic payload s).
Proof.
  intros T. unfold mqttCallback. destruct (decode payload) as [[v|] line]; [|exact T].
  apply dispatch_tuned. exact T.
Qed.

Lemma applyControl_tuning (s : state) :
  Kp (applyControl s) = Kp s /\ Ti (applyControl s) = Ti s
  /\ Kpos (applyControl s) = Kpos s /\ Kneg (applyControl s) = Kneg s
  /\ temp_setpoint (applyControl s) = temp_setpoint s
  /\ temp_actual (applyControl s) = temp_actual s
  /\ sampleIndex (applyControl s) = sampleIndex s
  /\ initial_state_reset (applyControl s) = initial_state_reset s
  /\ published (applyControl s) = published s
  /\ serial (applyControl s) = serial s.
Proof. unfold applyControl, setServoDegrees. fields. repeat split. Qed.

Lemma control_body_tuning (s : state) :
  Kp (control_body s) = Kp s /\ Ti (control_body s) = Ti s
  /\ Kpos (control_body s) = Kpos s /\ Kneg (control_body s) = Kneg s
  /\ temp_setpoint (control_body s) = temp_setpoint s
  /\ temp_actual (control_body s) = temp_actual s.
Proof.
  destruct (applyControl_tuning s) as (A & B & C & D & E & F & _).
  unfold control_body, publishState. fields. repeat split; assumption.
Qed.

Lemma pi_reset_tuning (s : state) :
  Kp (pi_reset s) = Kp s /\ Ti (pi_reset s) = Ti s
  /\ Kpos (pi_reset s) = Kpos s /\ Kneg (pi_reset s) = Kneg s.
Proof. unfold pi_reset. fields. repeat split. Qed.

Lemma tuned_ext (s s' : state) :
  Kp s' = Kp s -> Ti s' = Ti s -> Kpos s' = Kpos s -> Kneg s' = Kneg s ->
  tuned s -> tuned s'.
Proof. unfold tuned. intros -> -> -> ->. tauto. Qed.

Lemma control_step_tuned (link : bool) (s : state) : tuned s -> tuned (control_step link s).
Proof.
  intros T. unfold control_step. destruct link; [|exact T].
  destruct ((sampleIndex s =? 5) && negb (initial_state_reset s)).
  - destruct (control_body_tuning (pi_reset s)) as (A & B & C & D & _).
    destruct (pi_reset_tuning s) as (A' & B' & C' & D').
    apply (tuned_ext s); congruence.
  - destruct (control_body_tuning s) as (A & B & C & D & _).
    apply (tuned_ext s); congruence.
Qed.

Lemma tuned_initial : tuned initial.
Proof. unfold tuned. repeat split; reflexivity. Qed.


(** ** What is written to the console *)

Lemma recalculateCoefficients_serial (s : state) :
  exists l, serial (recalculateCoefficients s) = serial s ++ [l]
            /\ message_line l = true
            /\ ((f0 <? Kp s)%f32 = true -> (f0 <? Ti s)%f32 = true -> is_coef_error l = false).
Proof.
  unfold recalculateCoefficients.
  destruct ((Ti s <=? f0)%f32 || (Kp s <=? f0)%f32)%bool eqn:G.
  - exists LogCoefError. repeat split. intros HK HT.
    rewrite (pos_not_le0 _ HK), (pos_not_le0 _ HT) in G. discriminate.
  - eexists. fields. repeat split.
Qed.

Lemma dispatch_serial (topic : string) (v : float32) (s : state) :
  exists ls, serial (dispatch topic v s) = serial s ++ ls
             /\ forallb message_line ls = true
             /\ (tuned s -> existsb is_coef_error ls = false).
Proof.
  unfold dispatch.
  destruct (isfinite v) eqn:Fv; cbn [negb];
    [|exists [LogInvalid]; repeat split].
  destruct (String.eqb topic MQTT_SUB_TOPIC_KP).
  { destruct (f0 <? v)%f32 eqn:Hv.
    - destruct (recalculateCoefficients_serial (set_Kp v s)) as (l & E & M & C).
      exists [l]. fields. split; [exact E|]. cbn [forallb existsb]. rewrite M. split; [reflexivity|].
      intros (FK & HK & FT & HT & EP & EN). rewrite C; [reflexivity|exact Hv|exact HT].
    - exists []. rewrite app_nil_r. repeat split. }
  destruct (String.eqb topic MQTT_SUB_TOPIC_TI).
  { destruct (f0 <? v)%f32 eqn:Hv.
    - destruct (recalculateCoefficients_serial (set_Ti v s)) as (l & E & M & C).
      exists [l]. fields. split; [exact E|]. cbn [forallb existsb]. rewrite M. split; [reflexivity|].
      intros (FK & HK & FT & HT & EP & EN). rewrite C; [reflexivity|exact HK|exact Hv].
    - exists []. rewrite app_nil_r. repeat split. }
  destruct (String.eqb topic MQTT_SUB_TOPIC_SP); [eexists [_]; fields; repeat split|].
  destruct (String.eqb topic MQTT_SUB_TOPIC_PV); eexists [_]; fields; repeat split.
Qed.

Lemma decode_message_line (payload : list byte) :
  message_line (snd (decode payload)) = true /\ is_coef_error (snd (decode payload)) = false.
Proof.
  unfold decode. destruct (isAsciiNumber payload); [split; reflexivity|].
  destruct (8 <=? List.length payload)%nat; [split; reflexivity|].
  destruct (4 <=? List.length payload)%nat; split; reflexivity.
Qed.

Lemma mqttCallback_serial (topic : string) (payload : list byte) (s : state) :
  exists ls, serial (mqttCallback topic payload s) = serial s ++ ls
             /\ forallb message_line ls = true
             /\ (tuned s -> existsb is_coef_error ls = false).
Proof.
  unfold mqttCallback. destruct (decode_message_line payload) as [M C].
  destruct (decode payload) as [[v|] line]; cbn [snd] in M, C.
  - destruct (dispatch_serial topic v (println line s)) as (ls & E & Ms & Cs).
    exists (line :: ls). rewrite E. fields. rewrite <- app_assoc. split; [reflexivity|].
    cbn [forallb existsb]. rewrite M, C, Ms. split; [reflexivity|].
    intros T. apply Cs. exact T.
  - exists [line]. fields. cbn [forallb existsb]. rewrite M, C. repeat split.
Qed.

(** The console lines of one period with the link up: the warm-start
    line when the block runs, then the CSV row. *)
Lemma control_body_serial (s : state) :
  serial (control_body s) =
    serial s ++ [LogCsv (sampleIndex s) (of_Z (sampleIndex s) * Tm)%f32
                   (temp_setpoint s) (temp_actual s)
                   (u_logic (applyControl s)) (pos_deg (applyControl s))].
Proof.
  unfold control_body. cbv zeta.
  pose proof (applyControl_tuning s) as H. revert H.
  generalize (applyControl s). intros s1 (_ & _ & _ & _ & A & B & C & _ & _ & D).
  unfold publishState. fields. rewrite A, B, C, D. reflexivity.
Qed.

Lemma pi_reset_serial (s : state) : serial (pi_reset s) = serial s ++ [LogPIReset].
Proof. reflexivity. Qed.

Lemma csv_rows_app (s : state) (ls : list serial_line) (s' : state) :
  serial s' = serial s ++ ls -> csv_rows s' = csv_rows s ++ flat_map csv_of_line ls.
Proof. intros E. unfold csv_rows. rewrite E. apply flat_map_app. Qed.

Lemma csv_of_message_lines (ls : list serial_line) :
  forallb message_line ls = true -> flat_map csv_of_line ls = [].
Proof.
  induction ls as [|l ls IH]; [reflexivity|]. cbn [forallb flat_map]. intros H.
  apply andb_prop in H. destruct H as [Hl Hs]. rewrite (IH Hs), app_nil_r.
  destruct l; try reflexivity; discriminate.
Qed.

Lemma mqttCallback_csv (topic : string) (payload : list byte) (s : state) :
  csv_rows (mqttCallback topic payload s) = csv_rows s.
Proof.
  destruct (mqttCallback_serial topic payload s) as (ls & E & M & _).
  rewrite (csv_rows_app s ls _ E), (csv_of_message_lines ls M). apply app_nil_r.
Qed.

Lemma control_step_csv (s : state) :
  let s0 := if (sampleIndex s =? 5) && negb (initial_state_reset s) then pi_reset s else s in
  csv_rows (control_step true s) =
    csv_rows s ++ [Build_csv_row (sampleIndex s) (of_Z (sampleIndex s) * Tm)%f32
                     (temp_setpoint s0) (temp_actual s0)
                     (u_logic (control_step true s)) (pos_deg (control_step true s))].
Proof.
  cbv zeta. unfold control_step.
  set (s0 := if (sampleIndex s =? 5) && negb (initial_state_reset s) then pi_reset s else s).
  assert (Es : exists ls, serial s0 = serial s ++ ls /\ flat_map csv_of_line ls = []).
  { unfold s0. destruct ((sampleIndex s =? 5) && negb (initial_state_reset s)).
    - exists [LogPIReset]. split; reflexivity.
    - exists []. rewrite app_nil_r. split; reflexivity. }
  assert (Ek : sampleIndex s0 = sampleIndex s).
  { unfold s0. destruct ((sampleIndex s =? 5) && negb (initial_state_reset s)); reflexivity. }
  destruct Es as (ls & E & C).
  unfold csv_rows. rewrite control_body_serial, flat_map_app, E, flat_map_app, C, app_nil_r, Ek.
  assert (Eu : u_logic (control_body s0) = u_logic (applyControl s0)
               /\ pos_deg (control_body s0) = pos_deg (applyControl s0)).
  { unfold control_body, publishState. fields. split; reflexivity. }
  destruct Eu as [-> ->]. reflexivity.
Qed.

(** ** Console of a run *)

Lemma control_step_serial (link : bool) (s : state) :
  exists ls, serial (control_step link s) = serial s ++ ls
             /\ existsb is_coef_error ls = false.
Proof.
  unfold control_step. destruct link; [|exists []; rewrite app_nil_r; split; reflexivity].
  destruct ((sampleIndex s =? 5) && negb (initial_state_reset s)).
  - eexists. rewrite control_body_serial, pi_reset_serial, <- app_assoc.
    split; [reflexivity|reflexivity].
  - eexists. rewrite control_body_serial. split; reflexivity.
Qed.

Lemma run_no_coef_error (evs : list event) (s : state) :
  tuned s -> existsb is_coef_error (serial s) = false ->
  existsb is_coef_error (serial (run evs s)) = false.
Proof.
  revert s. induction evs as [|ev evs IH]; intros s T H; [exact H|].
  change (run (ev :: evs) s) with (run evs (step s ev)). apply IH.
  - destruct ev; [apply control_step_tuned|apply mqttCallback_tuned]; exact T.
  - destruct ev as [link|topic payload]; cbn [step].
    + destruct (control_step_serial link s) as (ls & -> & C).
      rewrite existsb_app, H, C. reflexivity.
    + destruct (mqttCallback_serial topic payload s) as (ls & -> & _ & C).
      rewrite existsb_app, H, (C T). reflexivity.
Qed.

Lemma control_step_true (s : state) :
  control_step true s =
    control_body (if (sampleIndex s =? 5) && negb (initial_state_reset s) then pi_reset s else s).
Proof. reflexivity. Qed.

Lemma control_step_index (s : state) :
  sampleIndex (control_step true s) = (sampleIndex s + 1) mod ULONG_MOD.
Proof.
  rewrite control_step_true.
  destruct ((sampleIndex s =? 5) && negb (initial_state_reset s)).
  - destruct (control_body_memory (pi_reset s)) as (-> & _). reflexivity.
  - destruct (control_body_memory s) as (-> & _). reflexivity.
Qed.

(** ** The servo follows the output *)

Lemma setServoDegrees_servo (deg : float32) (s : state) :
  servo_angle (setServoDegrees deg s) =
    option_map (fun r => 180 - r) (roundf_int (pos_deg (setServoDegrees deg s))).
Proof. unfold setServoDegrees. fields. reflexivity. Qed.

Lemma setServoDegrees_frame (deg : float32) (s : state) :
  u_logic (setServoDegrees deg s) = u_logic s.
Proof. reflexivity. Qed.

Lemma applyControl_coherent (s : state) :
  wf_state s = true -> actuator_coherent (applyControl s).
Proof.
  intros W. destruct (applyControl_fields s W) as (_ & Hu & Hp). split.
  - rewrite Hp, Hu, scaleToDegrees_clamp, clamp_idem. reflexivity.
  - unfold applyControl. cbv zeta. apply setServoDegrees_servo.
Qed.

Lemma control_body_actuator (s : state) :
  u_logic (control_body s) = u_logic (applyControl s)
  /\ pos_deg (control_body s) = pos_deg (applyControl s)
  /\ servo_angle (control_body s) = servo_angle (applyControl s).
Proof.
  unfold control_body. cbv zeta. generalize (applyControl s). intros s1.
  unfold publishState. fields. repeat split.
Qed.

Lemma actuator_coherent_ext (s s' : state) :
  u_logic s' = u_logic s -> pos_deg s' = pos_deg s -> servo_angle s' = servo_angle s ->
  actuator_coherent s -> actuator_coherent s'.
Proof. unfold actuator_coherent. intros -> -> ->. tauto. Qed.

Lemma control_step_coherent (link : bool) (s : state) :
  wf_state s = true -> actuator_coherent s -> actuator_coherent (control_step link s).
Proof.
  intros W C. destruct link; [|exact C]. rewrite control_step_true.
  set (s0 := if (sampleIndex s =? 5) && negb (initial_state_reset s) then pi_reset s else s).
  assert (W0 : wf_state s0 = true).
  { unfold s0. destruct ((sampleIndex s =? 5) && negb (initial_state_reset s));
      [apply pi_reset_wf|]; exact W. }
  destruct (control_body_actuator s0) as (A & B & D).
  apply (actuator_coherent_ext (applyControl s0)); try assumption.
  apply applyControl_coherent, W0.
Qed.

Lemma run_coherent (evs : list event) (s : state) :
  wf_state s = true -> actuator_coherent s -> actuator_coherent (run evs s).
Proof.
  revert s. induction evs as [|ev evs IH]; intros s W C; [exact C|].
  change (run (ev :: evs) s) with (run evs (step s ev)). apply IH.
  - destruct ev; [apply control_step_wf|apply mqttCallback_wf]; exact W.
  - destruct ev as [link|topic payload]; cbn [step].
    + apply control_step_coherent; assumption.
    + destruct (mqttCallback_frame topic payload s) as ((A & _ & B & D & _) & _).
      apply (actuator_coherent_ext s); assumption.
Qed.

Lemma coherent_initial : actuator_coherent initial.
Proof. split; reflexivity. Qed.

(** ** Rounding to an integer *)

Lemma roundf_scaled (m : positive) (e N : Z) :
  1 <= N -> - N <= e ->
  (if 0 <=? e then Z.pos m * 2 ^ e else (Z.pos m + 2 ^ (- e - 1)) / 2 ^ (- e))
  = (Z.pos m * 2 ^ (e + N) + 2 ^ (N - 1)) / 2 ^ N.
Proof.
  intros HN He.
  assert (HpN : 0 < 2 ^ N) by (apply Z.pow_pos_nonneg; lia).
  assert (HpN1 : 0 < 2 ^ (N - 1)) by (apply Z.pow_pos_nonneg; lia).
  assert (H2 : 2 ^ N = 2 * 2 ^ (N - 1)).
  { replace N with (Z.succ (N - 1)) at 1 by lia. apply Z.pow_succ_r. lia. }
  destruct (Z.leb_spec 0 e) as [Hpos|Hneg].
  - rewrite Z.pow_add_r by lia. rewrite Z.mul_assoc.
    rewrite Z.div_add_l by lia.
    rewrite (Z.div_small (2 ^ (N - 1))) by lia. lia.
  - set (n := - e). assert (Hn : 1 <= n <= N) by (unfold n; lia).
    replace (e + N) with (N - n) by (unfold n; lia).
    assert (Hk : 0 < 2 ^ (N - n)) by (apply Z.pow_pos_nonneg; lia).
    assert (E1 : 2 ^ (N - 1) = 2 ^ (n - 1) * 2 ^ (N - n)).
    { rewrite <- Z.pow_add_r by lia. f_equal. lia. }
    assert (E2 : 2 ^ N = 2 ^ n * 2 ^ (N - n)).
    { rewrite <- Z.pow_add_r by lia. f_equal. lia. }
    rewrite E1, E2, <- Z.mul_add_distr_r.
    rewrite Z.div_mul_cancel_r; [reflexivity| |lia].
    assert (0 < 2 ^ n) by (apply Z.pow_pos_nonneg; lia). lia.
Qed.

Lemma roundf_abs_le (m1 : positive) (e1 : Z) (m2 : positive) (e2 : Z) :
  valid (S754_finite false m1 e1) = true -> valid (S754_finite false m2 e2) = true ->
  (S754_finite false m1 e1 <=? S754_finite false m2 e2)%f32 = true ->
  (if 0 <=? e1 then Z.pos m1 * 2 ^ e1 else (Z.pos m1 + 2 ^ (- e1 - 1)) / 2 ^ (- e1))
  <= (if 0 <=? e2 then Z.pos m2 * 2 ^ e2 else (Z.pos m2 + 2 ^ (- e2 - 1)) / 2 ^ (- e2)).
Proof.
  intros V1 V2 Hle.
  set (N := Z.max 1 (Z.max (- e1) (- e2))).
  rewrite (roundf_scaled m1 e1 N), (roundf_scaled m2 e2 N) by (unfold N; lia).
  pose proof (canonical_le_scaled F32.prec F32.emax f32_prec m1 e1 m2 e2 (- N) V1 V2 Hle
                ltac:(unfold N; lia) ltac:(unfold N; lia)) as Hs.
  replace (e1 - - N) with (e1 + N) in Hs by lia.
  replace (e2 - - N) with (e2 + N) in Hs by lia.
  apply Z.div_le_mono; [apply Z.pow_pos_nonneg; unfold N; lia|lia].
Qed.

Lemma roundf_int_finite (s : bool) (m : positive) (e : Z) :
  roundf_int (S754_finite s m e) =
    let a := if 0 <=? e then Z.pos m * 2 ^ e else (Z.pos m + 2 ^ (- e - 1)) / 2 ^ (- e) in
    if a <? 2 ^ 31 then Some (if s then - a else a) else None.
Proof. reflexivity. Qed.

Lemma roundf_abs_nonneg (m : positive) (e : Z) :
  0 <= (if 0 <=? e then Z.pos m * 2 ^ e else (Z.pos m + 2 ^ (- e - 1)) / 2 ^ (- e)).
Proof.
  destruct (Z.leb_spec 0 e).
  - apply Z.mul_nonneg_nonneg; [lia|apply Z.pow_nonneg; lia].
  - apply Z.div_pos; [|apply Z.pow_pos_nonneg; lia].
    assert (0 <= 2 ^ (- e - 1)) by (apply Z.pow_nonneg; lia). lia.
Qed.

Lemma nonneg_cases (x y : float32) :
  (f0 <=? x)%f32 = true -> (x <=? y)%f32 = true -> isfinite y = true ->
  (exists s, x = S754_zero s) \/ (exists m e, x = S754_finite false m e).
Proof.
  intros H0 H1 Fy.
  destruct x as [sx|sx| |sx m e]; [left; eauto| | |].
  - exfalso. destruct sx; [discriminate H0|]. destruct y as [sy|sy| |sy my ey]; discriminate.
  - discriminate H0.
  - destruct sx; [discriminate H0|]. right; eauto.
Qed.

(** Rounding to an integer keeps the order on [0, 180]. *)
Lemma roundf_int_mono (x1 x2 : float32) :
  valid x1 = true -> valid x2 = true ->
  (f0 <=? x1)%f32 = true -> (x1 <=? x2)%f32 = true -> (x2 <=? f180)%f32 = true ->
  exists r1 r2, roundf_int x1 = Some r1 /\ roundf_int x2 = Some r2
                /\ 0 <= r1 /\ r1 <= r2 /\ r2 <= 180.
Proof.
  intros V1 V2 H0 H12 H2.
  assert (Hf : forall m e, valid (S754_finite false m e) = true ->
                 (S754_finite false m e <=? f180)%f32 = true ->
                 (if 0 <=? e then Z.pos m * 2 ^ e else (Z.pos m + 2 ^ (- e - 1)) / 2 ^ (- e)) <= 180).
  { intros m e V H. exact (roundf_abs_le m e 11796480 (-16) V eq_refl H). }
  assert (H02 : (f0 <=? x2)%f32 = true) by (eapply SFleb_trans; eassumption).
  assert (F2 : isfinite x2 = true).
  { destruct x2 as [s|s| |s m e]; try reflexivity; [destruct s|]; discriminate. }
  destruct (nonneg_cases x1 x2 H0 H12 F2) as [[s1 ->]|(m1 & e1 & ->)];
    destruct (nonneg_cases x2 f180 H02 H2 eq_refl) as [[s2 ->]|(m2 & e2 & ->)].
  - exists 0, 0. repeat split; lia.
  - pose proof (Hf m2 e2 V2 H2) as Hb. pose proof (roundf_abs_nonneg m2 e2) as Hn.
    rewrite roundf_int_finite. cbv zeta.
    set (a := if 0 <=? e2 then _ else _) in *.
    destruct (Z.ltb_spec a (2 ^ 31)) as [_|Hge]; [|exfalso; change (2 ^ 31) with 2147483648 in Hge; lia].
    exists 0, a. repeat split; lia.
  - discriminate H12.
  - pose proof (Hf m2 e2 V2 H2) as Hb. pose proof (roundf_abs_nonneg m1 e1) as Hn.
    pose proof (roundf_abs_le m1 e1 m2 e2 V1 V2 H12) as Hle.
    rewrite !roundf_int_finite. cbv zeta.
    set (a1 := if 0 <=? e1 then _ else _) in *.
    set (a2 := if 0 <=? e2 then _ else _) in *.
    destruct (Z.ltb_spec a1 (2 ^ 31)) as [_|Hge]; [|exfalso; change (2 ^ 31) with 2147483648 in Hge; lia].
    destruct (Z.ltb_spec a2 (2 ^ 31)) as [_|Hge]; [|exfalso; change (2 ^ 31) with 2147483648 in Hge; lia].
    exists a1, a2. repeat split; lia.
Qed.

(** ** Range of the position and of the servo angle *)

Lemma degrees_of_valid (u : float32) : valid u = true -> valid (degrees_of u) = true.
Proof.
  intros V. unfold degrees_of.
  repeat first [apply mul_valid | apply add_valid | apply sub_valid | apply div_valid
               | assumption | reflexivity].
Qed.

Lemma scaleToDegrees_valid (u : float32) : valid u = true -> valid (scaleToDegrees u) = true.
Proof. intros V. rewrite scaleToDegrees_clamp. apply degrees_of_valid, clamp_valid, V. Qed.

Lemma scaleToDegrees_bounds (u : float32) :
  valid u = true -> u <> S754_nan ->
  (f0 <=? scaleToDegrees u)%f32 = true /\ (scaleToDegrees u <=? f180)%f32 = true.
Proof.
  intros V N. rewrite scaleToDegrees_clamp. destruct (clamp_range u N) as [L U].
  apply degrees_of_range; [apply clamp_valid, V|exact L|exact U].
Qed.

Lemma clamp_deg_range (d : float32) :
  d <> S754_nan ->
  (f0 <=? clamp d SERVO_DEG_MIN SERVO_DEG_MAX)%f32 = true
  /\ (clamp d SERVO_DEG_MIN SERVO_DEG_MAX <=? f180)%f32 = true.
Proof.
  intros Hn. unfold clamp.
  destruct (d <? SERVO_DEG_MIN)%f32 eqn:H0; [split; reflexivity|].
  destruct (SERVO_DEG_MAX <? d)%f32 eqn:H1; [split; reflexivity|].
  split; apply SFltb_false_leb; try assumption; discriminate.
Qed.

Lemma clamp_deg_valid (d : float32) :
  valid d = true -> valid (clamp d SERVO_DEG_MIN SERVO_DEG_MAX) = true.
Proof.
  intros V. unfold clamp. destruct (d <? SERVO_DEG_MIN)%f32; [reflexivity|].
  destruct (SERVO_DEG_MAX <? d)%f32; [reflexivity|assumption].
Qed.

Lemma SFleb_refl_valid (x : float32) : x <> S754_nan -> (x <=? x)%f32 = true.
Proof.
  intros N. unfold F32.leb, SFleb. destruct x as [s|s| |s m e]; try congruence.
  - reflexivity.
  - destruct s; reflexivity.
  - destruct s; cbn [SFcompare]; rewrite Z.compare_refl;
      change (Pos.compare_cont Eq m m) with (Pos.compare m m);
      rewrite Pos.compare_refl; reflexivity.
Qed.

(** X1.  The angle returned by [scaleToDegrees] lies in
    [SERVO_DEG_MIN, SERVO_DEG_MAX] for every argument that is a number,
    the two infinities included; a NaN argument gives a NaN. *)
Theorem scaleToDegrees_range (u : float32) :
  valid u = true ->
  (u = S754_nan -> scaleToDegrees u = S754_nan)
  /\ (u <> S754_nan ->
        (SERVO_DEG_MIN <=? scaleToDegrees u)%f32 = true
        /\ (scaleToDegrees u <=? SERVO_DEG_MAX)%f32 = true).
Proof.
  intros V. split.
  - intros ->. reflexivity.
  - apply scaleToDegrees_bounds, V.
Qed.

(** An output of plus infinity. *)
Lemma scaleToDegrees_range_witness :
  (SERVO_DEG_MIN <=? scaleToDegrees (S754_infinity false))%f32 = true
  /\ (scaleToDegrees (S754_infinity false) <=? SERVO_DEG_MAX)%f32 = true.
Proof.
  apply (scaleToDegrees_range (S754_infinity false)); [reflexivity|discriminate].
Defined.

(** X2.  For every angle that is a number, [setServoDegrees]
    stores a position within [0, 180] and writes to the servo 180 minus
    that position rounded to an integer, a value in 0..180.  For a NaN
    the position stored is the NaN and the conversion to an integer has
    no defined value. *)
Theorem setServoDegrees_command (deg : float32) (s : state) :
  valid deg = true ->
  let s' := setServoDegrees deg s in
  (deg = S754_nan -> pos_deg s' = S754_nan /\ servo_angle s' = None)
  /\ (deg <> S754_nan ->
        (SERVO_DEG_MIN <=? pos_deg s')%f32 = true
        /\ (pos_deg s' <=? SERVO_DEG_MAX)%f32 = true
        /\ exists r : Z, roundf_int (pos_deg s') = Some r /\ 0 <= r <= 180
                         /\ servo_angle s' = Some (180 - r)).
Proof.
  intros V s'. split.
  - intros ->. split; reflexivity.
  - intros N. unfold s'. rewrite setServoDegrees_servo, setServoDegrees_pos.
    destruct (clamp_deg_range deg N) as [L U].
    split; [exact L|]. split; [exact U|].
    destruct (roundf_int_mono _ _ (clamp_deg_valid deg V) (clamp_deg_valid deg V) L
                (SFleb_refl_valid _ ltac:(apply (SFleb_not_nan _ _ L))) U)
      as (r1 & r2 & E1 & E2 & A & B & C).
    rewrite E1 in E2. injection E2 as <-.
    exists r1. rewrite E1. cbn [option_map]. split; [reflexivity|]. split; [lia|reflexivity].
Qed.

(** An angle of 1000 degrees. *)
Lemma setServoDegrees_command_witness :
  exists r : Z, roundf_int (pos_deg (setServoDegrees (of_Z 1000) globals)) = Some r
                /\ 0 <= r <= 180
                /\ servo_angle (setServoDegrees (of_Z 1000) globals) = Some (180 - r).
Proof.
  destruct (setServoDegrees_command (of_Z 1000) globals) as [_ H]; [reflexivity|].
  apply H. discriminate.
Defined.

(** X3.  The angle written to the servo does not grow with the
    output (the mounting is inverted): for outputs u1 <= u2 the angles
    written for them satisfy 0 <= a2 <= a1 <= 180. *)
Theorem servo_angle_antitone (u1 u2 : float32) (s1 s2 : state) :
  valid u1 = true -> valid u2 = true -> (u1 <=? u2)%f32 = true ->
  exists a1 a2 : Z,
    servo_angle (setServoDegrees (scaleToDegrees u1) s1) = Some a1
    /\ servo_angle (setServoDegrees (scaleToDegrees u2) s2) = Some a2
    /\ 0 <= a2 /\ a2 <= a1 /\ a1 <= 180.
Proof.
  intros V1 V2 Hle. destruct (SFleb_not_nan _ _ Hle) as [N1 N2].
  destruct (scaleToDegrees_bounds u1 V1 N1) as [L1 U1].
  destruct (scaleToDegrees_bounds u2 V2 N2) as [L2 U2].
  assert (Hd : (scaleToDegrees u1 <=? scaleToDegrees u2)%f32 = true).
  { rewrite !scaleToDegrees_clamp.
    apply degrees_of_mono; try (apply clamp_valid; assumption).
    - apply clamp_range; assumption.
    - apply clamp_mono; assumption. }
  rewrite !setServoDegrees_servo, !setServoDegrees_pos.
  rewrite !clamp_id by (apply SFleb_ltb_false; assumption).
  destruct (roundf_int_mono _ _ (scaleToDegrees_valid u1 V1) (scaleToDegrees_valid u2 V2)
              L1 Hd U2) as (r1 & r2 & -> & -> & A & B & C).
  exists (180 - r1), (180 - r2). cbn [option_map]. repeat split; lia.
Qed.

(** 25 and 50 percent. *)
Lemma servo_angle_antitone_witness :
  exists a1 a2 : Z,
    servo_angle (setServoDegrees (scaleToDegrees f25) globals) = Some a1
    /\ servo_angle (setServoDegrees (scaleToDegrees f50) globals) = Some a2
    /\ 0 <= a2 /\ a2 <= a1 /\ a1 <= 180.
Proof. apply servo_angle_antitone; reflexivity. Defined.

(** ** Invariants of a run *)


(** X5.  In no run from start-up does
    [recalculateCoefficients] print its error line: [setup] and the
    callback never call it with a gain or an integral time that fails
    its guard. *)
Theorem coefficient_error_unreachable (evs : list event) :
  ~ In LogCoefError (serial (run evs initial)).
Proof.
  intros H.
  assert (E : existsb is_coef_error (serial (run evs initial)) = true).
  { apply existsb_exists. exists LogCoefError. split; [exact H|reflexivity]. }
  rewrite (run_no_coef_error evs initial tuned_initial eq_refl) in E. discriminate.
Qed.

Lemma dispatch_finite (topic : string) (v : float32) (s : state) :
  finite_inputs s -> finite_inputs (dispatch topic v s).
Proof.
  intros F. pose proof F as [FS FP].
  destruct (dispatch_frame topic v s) as (_ & _ & _ & _ & HS & HP).
  destruct (String.eqb_spec topic MQTT_SUB_TOPIC_SP) as [ES|NS];
    destruct (String.eqb_spec topic MQTT_SUB_TOPIC_PV) as [EP|NP].
  - subst topic. discriminate EP.
  - split; [|rewrite (HP NP); exact FP]. subst topic. unfold dispatch.
    destruct (isfinite v) eqn:Fv; cbn [negb]; [|exact FS].
    cbn [String.eqb MQTT_SUB_TOPIC_SP MQTT_SUB_TOPIC_KP MQTT_SUB_TOPIC_TI Ascii.eqb Bool.eqb].
    fields. exact Fv.
  - split; [rewrite (HS NS); exact FS|]. subst topic. unfold dispatch.
    destruct (isfinite v) eqn:Fv; cbn [negb]; [|exact FP].
    cbn [String.eqb MQTT_SUB_TOPIC_SP MQTT_SUB_TOPIC_PV MQTT_SUB_TOPIC_KP MQTT_SUB_TOPIC_TI Ascii.eqb Bool.eqb].
    fields. exact Fv.
  - split; [rewrite (HS NS); exact FS|rewrite (HP NP); exact FP].
Qed.

Lemma mqttCallback_finite (topic : string) (payload : list byte) (s : state) :
  finite_inputs s -> finite_inputs (mqttCallback topic payload s).
Proof.
  intros F. unfold mqttCallback. destruct (decode payload) as [[v|] line]; [|exact F].
  apply dispatch_finite. exact F.
Qed.

Lemma control_step_finite (link : bool) (s : state) :
  finite_inputs s -> finite_inputs (control_step link s).
Proof.
  intros [FS FP]. destruct link; [|split; assumption]. rewrite control_step_true.
  destruct ((sampleIndex s =? 5) && negb (initial_state_reset s)).
  - destruct (control_body_tuning (pi_reset s)) as (_ & _ & _ & _ & A & B).
    destruct (pi_reset_fields s) as (C & D & _).
    split; [rewrite A, C|rewrite B, D]; exact FS.
  - destruct (control_body_tuning s) as (_ & _ & _ & _ & A & B).
    split; [rewrite A|rewrite B]; assumption.
Qed.

(** X6.  In every run from start-up the setpoint and the process
    variable are finite: the callback stores finite values only, and
    the warm start copies the setpoint. *)
Theorem inputs_stay_finite (evs : list event) :
  isfinite (temp_setpoint (run evs initial)) = true
  /\ isfinite (temp_actual (run evs initial)) = true.
Proof.
  change (finite_inputs (run evs initial)).
  assert (G : forall s, finite_inputs s -> finite_inputs (run evs s)).
  { induction evs as [|ev evs IH]; intros s F; [exact F|].
    change (run (ev :: evs) s) with (run evs (step s ev)). apply IH.
    destruct ev; [apply control_step_finite|apply mqttCallback_finite]; exact F. }
  apply G. split; reflexivity.
Qed.

(** X7.  In every run from start-up the stored position is
    [scaleToDegrees] of the stored output, and the angle last written
    to the servo is 180 minus the stored position rounded to an
    integer. *)
Theorem servo_follows_output (evs : list event) :
  let s := run evs initial in
  pos_deg s = scaleToDegrees (u_logic s)
  /\ servo_angle s = option_map (fun r => 180 - r) (roundf_int (pos_deg s)).
Proof. exact (run_coherent evs initial eq_refl coherent_initial). Qed.

(** ** Range of the output over a run *)

Lemma clamp_nan_or_range (x : float32) :
  (x = S754_nan /\ clamp x f0 f100 = S754_nan)
  \/ in_range (clamp x f0 f100) = true.
Proof.
  destruct (is_nan x) eqn:N.
  - left. destruct x; try discriminate. split; reflexivity.
  - right. destruct (clamp_range x (is_nan_false _ N)) as [L U].
    unfold in_range. rewrite L, U. reflexivity.
Qed.

Lemma control_step_output (s : state) :
  let s0 := if (sampleIndex s =? 5) && negb (initial_state_reset s) then pi_reset s else s in
  u_logic (control_step true s) = clamp (raw_output s0) f0 f100.
Proof.
  cbv zeta. rewrite control_step_true.
  destruct (control_body_fields
              (if (sampleIndex s =? 5) && negb (initial_state_reset s) then pi_reset s else s))
    as (-> & _).
  destruct (applyControl_memory
              (if (sampleIndex s =? 5) && negb (initial_state_reset s) then pi_reset s else s))
    as (-> & _).
  reflexivity.
Qed.

Lemma run_nan_or_range (evs : list event) (s : state) :
  u_logic s = S754_nan \/ in_range (u_logic s) = true ->
  u_logic (run evs s) = S754_nan \/ in_range (u_logic (run evs s)) = true.
Proof.
  revert s. induction evs as [|ev evs IH]; intros s H; [exact H|].
  change (run (ev :: evs) s) with (run evs (step s ev)). apply IH.
  destruct ev as [[|]|topic payload]; cbn [step].
  - rewrite control_step_output.
    destruct (clamp_nan_or_range
                (raw_output (if (sampleIndex s =? 5) && negb (initial_state_reset s)
                             then pi_reset s else s))) as [[_ E]|E]; [left|right]; exact E.
  - exact H.
  - destruct (mqttCallback_frame topic payload s) as ((-> & _) & _). exact H.
Qed.

(** X8.  In every run from start-up, either the output is a NaN,
    and then the position is a NaN and the angle written to the servo
    is not defined, or the output is in [0, 100], the position in
    [0, 180] and the angle written to the servo an integer in 0..180. *)
Theorem reachable_output_range (evs : list event) :
  let s := run evs initial in
  (u_logic s = S754_nan /\ pos_deg s = S754_nan /\ servo_angle s = None)
  \/ (in_range (u_logic s) = true
      /\ (SERVO_DEG_MIN <=? pos_deg s)%f32 = true /\ (pos_deg s <=? SERVO_DEG_MAX)%f32 = true
      /\ exists a : Z, servo_angle s = Some a /\ 0 <= a <= 180).
Proof.
  cbv zeta.
  destruct (run_coherent evs initial eq_refl coherent_initial) as [Hp Ha].
  pose proof (reachable_wf evs) as W. apply wf_state_iff in W.
  destruct W as (_ & _ & _ & _ & Vu & Vp & _).
  destruct (run_nan_or_range evs initial (or_intror eq_refl)) as [N|R].
  - left. rewrite Ha, Hp, N. repeat split.
  - right. split; [exact R|].
    unfold in_range in R. apply andb_prop in R. destruct R as [L U].
    destruct (SFleb_not_nan _ _ L) as [_ Nu].
    destruct (scaleToDegrees_bounds _ Vu Nu) as [Ld Ud]. rewrite <- Hp in Ld, Ud.
    split; [exact Ld|]. split; [exact Ud|].
    destruct (SFleb_not_nan _ _ Ld) as [_ Np].
    destruct (roundf_int_mono _ _ Vp Vp Ld (SFleb_refl_valid _ Np) Ud)
      as (r1 & r2 & E1 & E2 & A & B & C).
    rewrite E1 in E2. injection E2 as <-.
    exists (180 - r1). rewrite Ha, E1. split; [reflexivity|lia].
Qed.

(** ** A NaN in the output *)

Lemma add_nan_l (y : float32) : (S754_nan + y)%f32 = S754_nan.
Proof. destruct y; reflexivity. Qed.

Lemma raw_output_nan (s : state) : u_logic s = S754_nan -> raw_output s = S754_nan.
Proof. intros H. unfold raw_output. rewrite H, !add_nan_l. reflexivity. Qed.

(** X9.  Once the warm-start block has run, a NaN in the output
    stays there: no control period and no message replaces it. *)
Theorem nan_output_is_permanent (evs : list event) (s : state) :
  initial_state_reset s = true -> u_logic s = S754_nan ->
  u_logic (run evs s) = S754_nan /\ initial_state_reset (run evs s) = true.
Proof.
  revert s. induction evs as [|ev evs IH]; intros s F N; [split; assumption|].
  change (run (ev :: evs) s) with (run evs (step s ev)).
  destruct ev as [[|]|topic payload]; cbn [step].
  - apply IH.
    + rewrite control_step_true, F, andb_false_r.
      destruct (control_body_memory s) as (_ & -> & _). exact F.
    + rewrite control_step_output, F, andb_false_r.
      rewrite (raw_output_nan s N). reflexivity.
  - apply IH; assumption.
  - destruct (mqttCallback_frame topic payload s) as ((A & _ & _ & _ & _ & _ & B) & _).
    apply IH; congruence.
Qed.

(** A NaN reached after the warm start, then a setpoint message and
    one more period. *)
Lemma nan_output_is_permanent_witness :
  let s := run [Message MQTT_SUB_TOPIC_SP (bytes "1e38"); Period true; Period true;
                Period true; Period true; Period true; Period true;
                Message MQTT_SUB_TOPIC_PV (bytes "0"); Period true; Period true] initial in
  u_logic (run [Message MQTT_SUB_TOPIC_SP (bytes "25"); Period true] s) = S754_nan
  /\ initial_state_reset (run [Message MQTT_SUB_TOPIC_SP (bytes "25"); Period true] s) = true.
Proof. cbv zeta. apply nan_output_is_permanent; vm_compute; reflexivity. Defined.

(** ** Overflow and the saturation *)

Lemma binary_normalize_not_nan (m e : Z) (sz : bool) :
  binary_normalize F32.prec F32.emax m e sz <> S754_nan.
Proof.
  unfold binary_normalize. destruct m; [discriminate| |];
    apply binary_round_not_nan; reflexivity.
Qed.

Lemma add_not_nan (x y : float32) :
  x <> S754_nan -> isfinite y = true -> (x + y)%f32 <> S754_nan.
Proof.
  intros N F. unfold F32.add.
  destruct x as [sx|sx| |sx mx ex]; [| |congruence|];
    destruct y as [sy|sy| |sy my ey]; try discriminate F; cbn [SFadd]; try discriminate.
  - destruct sx, sy; discriminate.
  - apply binary_normalize_not_nan.
Qed.

Lemma finite_not_nan (x : float32) : isfinite x = true -> x <> S754_nan.
Proof. intros F ->. discriminate F. Qed.

(** X10.  When the current output and the two products
    b0 * e and b1 * e' of a control step are finite, the output it
    stores is in [0, 100]. *)
Theorem output_in_range_without_overflow (s : state) :
  isfinite (u_logic s) = true ->
  isfinite (Kpos s * (temp_setpoint s - temp_actual s))%f32 = true ->
  isfinite (Kneg s * error_k_1 s)%f32 = true ->
  in_range (u_logic (applyControl s)) = true.
Proof.
  intros Fu Fp Fn. destruct (applyControl_memory s) as (-> & _).
  assert (N : raw_output s <> S754_nan).
  { unfold raw_output. apply add_not_nan; [|exact Fn].
    apply add_not_nan; [apply finite_not_nan, Fu|exact Fp]. }
  destruct (clamp_range _ N) as [L U]. unfold in_range. rewrite L, U. reflexivity.
Qed.

(** The worked scenario. *)
Lemma output_in_range_without_overflow_witness :
  in_range (u_logic (applyControl scenario)) = true.
Proof. apply output_in_range_without_overflow; reflexivity. Defined.

(** ** Steady state *)

Lemma add_zeros_hold (u : float32) (z1 z2 : bool) :
  in_range u = true -> u <> S754_zero true ->
  (u + S754_zero z1 + S754_zero z2)%f32 = u.
Proof.
  intros R N. destruct u as [su|su| |su m e].
  - destruct su; [congruence|]. destruct z1, z2; reflexivity.
  - destruct su; discriminate R.
  - discriminate R.
  - reflexivity.
Qed.

Lemma clamp_in_range (u : float32) : in_range u = true -> clamp u f0 f100 = u.
Proof.
  intros R. unfold in_range in R. apply andb_prop in R. destruct R as [L U].
  apply clamp_id; apply SFleb_ltb_false; assumption.
Qed.

Lemma mul_zero_any (k : float32) (z : bool) :
  isfinite k = true -> exists sg, (k * S754_zero z)%f32 = S754_zero sg.
Proof.
  intros F. destruct k as [sk|sk| |sk mk ek]; try discriminate; eexists; reflexivity.
Qed.

Lemma steady_step (s : state) :
  temp_setpoint s = temp_actual s -> isfinite (temp_setpoint s) = true ->
  error_k_1 s = f0 -> isfinite (Kpos s) = true -> isfinite (Kneg s) = true ->
  in_range (u_logic s) = true -> u_logic s <> S754_zero true ->
  u_logic (applyControl s) = u_logic s /\ error_k_1 (applyControl s) = f0.
Proof.
  intros E Fs E1 Fp Fn R N.
  destruct (applyControl_memory s) as (-> & -> & _).
  unfold raw_output. rewrite <- E, (sub_self _ Fs), E1.
  destruct (mul_zero_any (Kpos s) false Fp) as [z1 H1].
  destruct (mul_zero_any (Kneg s) false Fn) as [z2 H2].
  change f0 with (S754_zero false). rewrite H1, H2.
  rewrite (add_zeros_hold _ z1 z2 R N). split; [apply clamp_in_range, R|reflexivity].
Qed.

Lemma control_task_cons (link : bool) (links : list bool) (s : state) :
  control_task (link :: links) s = control_task links (control_step link s).
Proof. reflexivity. Qed.

(** X11.  With the warm start done, the process variable equal to
    a finite setpoint, a previous error of zero, finite coefficients
    and an output in [0, 100] (other than -0), any number of control
    periods leaves the output as it is and the previous error at zero;
    after the first of them the position is [scaleToDegrees] of that
    output. *)
Theorem steady_state_hold (n : nat) (s : state) :
  wf_state s = true -> initial_state_reset s = true ->
  temp_setpoint s = temp_actual s -> isfinite (temp_setpoint s) = true ->
  error_k_1 s = f0 -> isfinite (Kpos s) = true -> isfinite (Kneg s) = true ->
  in_range (u_logic s) = true -> u_logic s <> S754_zero true ->
  let s' := control_task (repeat true n) s in
  u_logic s' = u_logic s /\ error_k_1 s' = f0
  /\ ((0 < n)%nat -> pos_deg s' = scaleToDegrees (u_logic s)).
Proof.
  revert s. induction n as [|n IH]; intros s W F E Fs E1 Fp Fn R N; cbv zeta.
  - split; [reflexivity|]. split; [exact E1|]. intros H. inversion H.
  - cbn [repeat]. rewrite control_task_cons.
    assert (Ec : control_step true s = control_body s).
    { rewrite control_step_true, F, andb_false_r. reflexivity. }
    destruct (steady_step s E Fs E1 Fp Fn R N) as [Hu He].
    destruct (control_body_fields s) as (Bu & Be & _).
    destruct (control_body_tuning s) as (_ & _ & Bp & Bn & Bs & Ba).
    destruct (control_body_memory s) as (_ & Bf & _).
    destruct (control_body_actuator s) as (_ & Bd & _).
    destruct (applyControl_coherent s W) as [Cd _].
    rewrite <- Ec in Bu, Be, Bp, Bn, Bs, Ba, Bf, Bd.
    pose proof (control_step_wf true s W) as W'.
    set (s1 := control_step true s) in *.
    assert (U1 : u_logic s1 = u_logic s) by congruence.
    assert (H1 : initial_state_reset s1 = true) by congruence.
    assert (H2 : temp_setpoint s1 = temp_actual s1) by congruence.
    assert (H3 : isfinite (temp_setpoint s1) = true) by (rewrite Bs; exact Fs).
    assert (H4 : error_k_1 s1 = f0) by congruence.
    assert (H5 : isfinite (Kpos s1) = true) by (rewrite Bp; exact Fp).
    assert (H6 : isfinite (Kneg s1) = true) by (rewrite Bn; exact Fn).
    assert (H7 : in_range (u_logic s1) = true) by (rewrite U1; exact R).
    assert (H8 : u_logic s1 <> S754_zero true) by (rewrite U1; exact N).
    destruct (IH s1 W' H1 H2 H3 H4 H5 H6 H7 H8) as (A & B & C).
    rewrite A, U1. split; [reflexivity|]. split; [exact B|]. intros _.
    destruct n as [|n'].
    + cbn [repeat control_task fold_left]. rewrite Bd, Cd, Hu. reflexivity.
    + rewrite C by lia. rewrite U1. reflexivity.
Qed.

(** Three periods after the warm start. *)
Lemma steady_state_hold_witness :
  let s := run (repeat (Period true) 6) initial in
  u_logic (control_task (repeat true 3) s) = u_logic s
  /\ error_k_1 (control_task (repeat true 3) s) = f0
  /\ ((0 < 3)%nat -> pos_deg (control_task (repeat true 3) s) = scaleToDegrees (u_logic s)).
Proof.
  cbv zeta. apply steady_state_hold; try (vm_compute; reflexivity). vm_compute. discriminate.
Defined.

(** ** What a message may change *)

(** X12.  A message never changes the output, the previous
    error, the position, the servo angle, the publications, the sample
    index or the warm-start flag.  It changes the gain on the gain
    topic only, the integral time on its topic only, the coefficients
    on these two topics only, the setpoint and the process variable on
    their own topic only. *)
Theorem message_changes_only_its_variable (topic : string) (payload : list byte) (s : state) :
  let s' := mqttCallback topic payload s in
  same_actuator s s'
  /\ (topic <> MQTT_SUB_TOPIC_KP -> Kp s' = Kp s)
  /\ (topic <> MQTT_SUB_TOPIC_TI -> Ti s' = Ti s)
  /\ (topic <> MQTT_SUB_TOPIC_KP -> topic <> MQTT_SUB_TOPIC_TI ->
      Kpos s' = Kpos s /\ Kneg s' = Kneg s)
  /\ (topic <> MQTT_SUB_TOPIC_SP -> temp_setpoint s' = temp_setpoint s)
  /\ (topic <> MQTT_SUB_TOPIC_PV -> temp_actual s' = temp_actual s).
Proof. exact (mqttCallback_frame topic payload s). Qed.

(** ** The CSV log *)

Lemma seq_index_snoc (n : Z) :
  0 <= n ->
  map (fun i => Z.of_nat i mod ULONG_MOD) (seq 0 (Z.to_nat (n + 1))) =
  map (fun i => Z.of_nat i mod ULONG_MOD) (seq 0 (Z.to_nat n)) ++ [n mod ULONG_MOD].
Proof.
  intros Hn. replace (Z.to_nat (n + 1)) with (S (Z.to_nat n)) by lia.
  rewrite seq_S, map_app. cbn [map Nat.add]. rewrite Z2Nat.id by lia. reflexivity.
Qed.

(** X13.  In every run from start-up the CSV rows on the console
    are numbered 0, 1, 2, ... (modulo 2^32), one row for each period
    with the link up and none for the others; the newest row carries
    the current output and position, and its time is its number times
    Tm. *)
Theorem csv_log_rows (evs : list event) :
  let s := run evs initial in
  map row_k (csv_rows s) =
    map (fun i => Z.of_nat i mod ULONG_MOD) (seq 0 (Z.to_nat (periods_up evs)))
  /\ (forall rows r, csv_rows s = rows ++ [r] ->
        row_u r = u_logic s /\ row_deg r = pos_deg s
        /\ row_t r = (of_Z (row_k r) * Tm)%f32).
Proof.
  induction evs as [|ev evs IH] using rev_ind.
  - split; [reflexivity|]. intros rows r H. destruct rows; discriminate H.
  - rewrite run_app, periods_up_app. cbv zeta in IH. destruct IH as [IHk IHl].
    destruct (run_counters evs) as (Hi & _).
    pose proof (periods_up_nonneg evs) as Hn.
    set (s := run evs initial) in *. set (n := periods_up evs) in *.
    change (run [ev] s) with (step s ev). cbv zeta.
    destruct ev as [[|]|topic payload]; cbn [step].
    + change (periods_up [Period true]) with 1.
      rewrite control_step_csv. split.
      * rewrite map_app, IHk, seq_index_snoc by assumption. cbn [map row_k]. rewrite Hi. reflexivity.
      * intros rows r H. apply app_inj_tail in H. destruct H as [_ <-].
        cbn [row_u row_deg row_t row_k]. repeat split.
    + change (periods_up [Period false]) with 0. rewrite Z.add_0_r. split; assumption.
    + change (periods_up [Message topic payload]) with 0. rewrite Z.add_0_r.
      rewrite mqttCallback_csv.
      destruct (mqttCallback_frame topic payload s) as ((A & _ & B & _) & _).
      rewrite A, B. split; assumption.
Qed.

(** The row of the first period. *)
Lemma csv_log_rows_witness :
  row_u (Build_csv_row 0 f0 f25 f25 f25 (of_Z 45)) = u_logic (run [Period true] initial)
  /\ row_deg (Build_csv_row 0 f0 f25 f25 f25 (of_Z 45)) = pos_deg (run [Period true] initial)
  /\ row_t (Build_csv_row 0 f0 f25 f25 f25 (of_Z 45))
     = (of_Z (row_k (Build_csv_row 0 f0 f25 f25 f25 (of_Z 45))) * Tm)%f32.
Proof.
  destruct (csv_log_rows [Period true]) as [_ H]. apply (H []). vm_compute. reflexivity.
Defined.

(** ** What is published *)




(** ** Roundings that are exact *)

Section Exact.
Variables prec emax : Z.
Hypothesis Hprec : 0 < prec.

Abbreviation fexp := (fexp prec emax).

Lemma rne_code_exact (m : Z) : rne_code (4 * m) = m.
Proof. unfold rne_code. Z.div_mod_to_equations. lia. Qed.

(** A canonical mantissa and exponent round to themselves. *)
Lemma bra_canonical (s : bool) (q : positive) (E : Z) :
  fexp (Zdigits2 (Z.pos q) + E) = E -> E <= emax - prec ->
  binary_round_aux prec emax s (Z.pos q) E loc_Exact = S754_finite s q E.
Proof.
  intros C B.
  destruct (bra_spec prec emax Hprec s (Z.pos q) E loc_Exact ltac:(lia) ltac:(lia)) as (-> & _).
  rewrite C, Z.sub_diag. change (Z.to_nat 0) with 0%nat.
  change (ro_shift 0 (4 * Z.pos q + loc_code loc_Exact)) with (4 * Z.pos q + 0).
  rewrite Z.add_0_r, rne_code_exact.
  assert (Hd : Zdigits2 (Z.pos q) <= prec) by (unfold SpecFloat.fexp in C; lia).
  pose proof (Zdigits2_bounds (Z.pos q) ltac:(lia)) as [_ Hhi].
  assert (Z.pos q < 2 ^ prec).
  { eapply Z.lt_le_trans; [exact Hhi|]. apply Z.pow_le_mono_r; lia. }
  destruct (Z.ltb_spec (Z.pos q) (2 ^ prec)); [|lia].
  unfold sf_final. destruct (Z.leb_spec E (emax - prec)); [reflexivity|lia].
Qed.

(** [binary_round] read at any exponent fine enough. *)
Lemma binary_round_fine (s : bool) (m : positive) (e e0 : Z) :
  e0 <= e -> e0 <= fexp (Zdigits2 (Z.pos m) + e) ->
  binary_round prec emax s m e =
    binary_round_aux prec emax s (Z.pos m * 2 ^ (e - e0)) e0 loc_Exact.
Proof.
  intros H1 H2.
  assert (Hp : 0 <= Z.pos m * 2 ^ (e - e0)).
  { apply Z.mul_nonneg_nonneg; [lia|apply Z.pow_nonneg; lia]. }
  unfold binary_round, shl_align.
  change (Z.pos (digits2_pos m)) with (Zdigits2 (Z.pos m)).
  set (E := fexp (Zdigits2 (Z.pos m) + e)) in *.
  destruct (E - e) as [|d|d] eqn:Hd.
  - symmetry. apply (bra_refine prec emax Hprec s _ loc_Exact e0 (Z.pos m) loc_Exact e);
      try assumption.
    + cbn [loc_code]. rewrite !Z.add_0_r.
      rewrite <- (Z2Nat.id (e - e0)) at 2 by lia. rewrite ro_shift_exact. reflexivity.
    + fold E. lia.
  - symmetry. apply (bra_refine prec emax Hprec s _ loc_Exact e0 (Z.pos m) loc_Exact e);
      try assumption.
    + cbn [loc_code]. rewrite !Z.add_0_r.
      rewrite <- (Z2Nat.id (e - e0)) at 2 by lia. rewrite ro_shift_exact. reflexivity.
    + fold E. lia.
  - rewrite iter_xO.
    symmetry.
    apply (bra_refine prec emax Hprec s _ loc_Exact e0 (Z.pos m * 2 ^ Z.pos d) loc_Exact E);
      try assumption.
    + cbn [loc_code]. rewrite !Z.add_0_r.
      replace (Z.pos m * 2 ^ (e - e0)) with (Z.pos m * 2 ^ Z.pos d * 2 ^ Z.of_nat (Z.to_nat (E - e0))).
      * rewrite ro_shift_exact. reflexivity.
      * rewrite Z2Nat.id by lia. rewrite <- Z.mul_assoc, <- Z.pow_add_r by lia.
        f_equal. f_equal. lia.
    + rewrite Zdigits2_mul_pow2 by lia.
      replace (Zdigits2 (Z.pos m) + Z.pos d + E) with (Zdigits2 (Z.pos m) + e) by lia.
      fold E. lia.
Qed.

(** [binary_round] depends on the number it rounds only. *)
Lemma binary_round_value (s : bool) (m1 : positive) (e1 : Z) (m2 : positive) (e2 e0 : Z) :
  e0 <= e1 -> e0 <= e2 ->
  Z.pos m1 * 2 ^ (e1 - e0) = Z.pos m2 * 2 ^ (e2 - e0) ->
  binary_round prec emax s m1 e1 = binary_round prec emax s m2 e2.
Proof.
  intros H1 H2 Hv.
  assert (Hd : Zdigits2 (Z.pos m1) + e1 = Zdigits2 (Z.pos m2) + e2).
  { pose proof (Zdigits2_mul_pow2 (Z.pos m1) (e1 - e0) ltac:(lia) ltac:(lia)) as A.
    pose proof (Zdigits2_mul_pow2 (Z.pos m2) (e2 - e0) ltac:(lia) ltac:(lia)) as B.
    rewrite Hv in A. lia. }
  set (F := fexp (Zdigits2 (Z.pos m1) + e1)).
  set (e' := Z.min e0 F).
  rewrite (binary_round_fine s m1 e1 e') by (unfold e'; fold F; lia).
  rewrite (binary_round_fine s m2 e2 e') by (unfold e'; try rewrite <- Hd; fold F; lia).
  f_equal.
  replace (e1 - e') with ((e1 - e0) + (e0 - e')) by lia.
  replace (e2 - e') with ((e2 - e0) + (e0 - e')) by lia.
  rewrite !Z.pow_add_r by (unfold e'; lia). rewrite !Z.mul_assoc, Hv. reflexivity.
Qed.

(** A number with at most [prec] digits is rounded to itself, with its
    mantissa shifted to [prec] digits. *)
Lemma binary_round_small (s : bool) (m : positive) :
  Zdigits2 (Z.pos m) <= prec -> prec < emax ->
  exists q, binary_round prec emax s m 0 = S754_finite s q (Zdigits2 (Z.pos m) - prec)
            /\ Z.pos q = Z.pos m * 2 ^ (prec - Zdigits2 (Z.pos m)).
Proof.
  intros Hd Hemax.
  pose proof (Zdigits2_ge_pow (Z.pos m) 0 ltac:(lia) ltac:(simpl; lia)) as Hd1.
  set (d := Zdigits2 (Z.pos m)) in *.
  assert (HF : fexp (d + 0) = d - prec).
  { unfold SpecFloat.fexp, SpecFloat.emin. lia. }
  rewrite (binary_round_fine s m 0 (d - prec)) by (fold d; lia).
  replace (0 - (d - prec)) with (prec - d) by lia.
  assert (Hpos : 0 < Z.pos m * 2 ^ (prec - d)).
  { apply Z.mul_pos_pos; [lia|apply Z.pow_pos_nonneg; lia]. }
  destruct (Z.pos m * 2 ^ (prec - d)) as [|q|q] eqn:Hq; try lia.
  exists q. split; [|reflexivity].
  apply bra_canonical.
  - rewrite <- Hq, Zdigits2_mul_pow2 by lia. fold d.
    unfold SpecFloat.fexp, SpecFloat.emin. lia.
  - lia.
Qed.
End Exact.

Lemma mul_one_r (x : float32) : valid x = true -> (x * f1)%f32 = x.
Proof.
  intros V. destruct x as [s|s| |s m e]; try (destruct s; reflexivity); [reflexivity|].
  destruct (canonical_inv F32.prec F32.emax s m e V) as [C B].
  unfold F32.mul, f1. cbn [SFmul]. rewrite xorb_false_r.
  rewrite <- (bra_canonical F32.prec F32.emax f32_prec s m e C B).
  apply (bra_refine F32.prec F32.emax f32_prec s _ loc_Exact _ (Z.pos m) loc_Exact e).
  - lia.
  - lia.
  - cbn [loc_code]. rewrite !Z.add_0_r. rewrite Pos2Z.inj_mul.
    replace (e - (e + -23)) with 23 by lia.
    change (Z.pos 8388608) with (2 ^ Z.of_nat 23). change (Z.to_nat 23) with 23%nat.
    rewrite ro_shift_exact. reflexivity.
  - lia.
Qed.

(** ** Time column of the CSV log *)

Lemma of_Z_valid (n : Z) : valid (of_Z n) = true.
Proof. apply binary_normalize_valid. reflexivity. Qed.

Lemma of_Z_small (k : Z) : 0 <= k <= 2 ^ 24 -> is_integer (of_Z k) k.
Proof.
  intros [H0 H1].
  destruct (Z.eq_dec k 0) as [->|Hk0]; [reflexivity|].
  destruct (Z.eq_dec k (2 ^ 24)) as [->|Hk1]; [reflexivity|].
  destruct k as [|p|p]; try lia.
  assert (Hd : Zdigits2 (Z.pos p) <= F32.prec).
  { apply Zdigits2_lt_pow; unfold F32.prec; lia. }
  destruct (binary_round_small F32.prec F32.emax f32_prec false p Hd f32_emax) as (q & E & Hq).
  unfold of_Z, binary_normalize. rewrite E. cbn [is_integer].
  pose proof (Zdigits2_nonneg (Z.pos p)).
  rewrite Z.max_r by lia. rewrite Z.max_l by lia. rewrite Z.pow_0_r, Z.mul_1_r, Hq.
  f_equal. f_equal. lia.
Qed.

(** X15.  The time column of the CSV row, k * Tm computed in
    binary32, is the sample number k exactly for every k up to 2^24;
    the rows 2^24 and 2^24 + 1 get the same time. *)
Theorem csv_time_exact (s : state) :
  0 <= sampleIndex s <= 2 ^ 24 ->
  (exists t sp pv u deg,
      serial (control_body s) = serial s ++ [LogCsv (sampleIndex s) t sp pv u deg]
      /\ t = (of_Z (sampleIndex s) * Tm)%f32
      /\ is_integer t (sampleIndex s))
  /\ (of_Z (2 ^ 24 + 1) * Tm)%f32 = (of_Z (2 ^ 24) * Tm)%f32.
Proof.
  intros H. split; [|reflexivity].
  do 5 eexists. split; [apply control_body_serial|]. split; [reflexivity|].
  unfold Tm. rewrite mul_one_r by apply of_Z_valid. apply of_Z_small, H.
Qed.

(** The first row. *)
Lemma csv_time_exact_witness :
  exists t sp pv u deg,
    serial (control_body initial) = serial initial ++ [LogCsv (sampleIndex initial) t sp pv u deg]
    /\ t = (of_Z (sampleIndex initial) * Tm)%f32
    /\ is_integer t (sampleIndex initial).
Proof. apply (csv_time_exact initial). vm_compute. split; discriminate. Defined.

(** ** Text payloads that spell a whole number *)

Lemma isdigit_range (b : byte) : CLib.isdigit b = true -> 0 <= CLib.digit_val b <= 9.
Proof.
  unfold CLib.isdigit, CLib.digit_val. intros H. apply andb_prop in H.
  destruct H as [A B]. apply Z.leb_le in A, B. lia.
Qed.

Lemma isdigit_numeric (b : byte) : CLib.isdigit b = true -> numeric_char b = true.
Proof. intros H. unfold numeric_char. rewrite H. reflexivity. Qed.

Lemma isdigit_not_space (b : byte) : CLib.isdigit b = true -> CLib.isspace b = false.
Proof.
  unfold CLib.isdigit, CLib.isspace. intros H. apply andb_prop in H.
  destruct H as [A B]. apply Z.leb_le in A, B.
  destruct (Z.eqb_spec (CLib.code b) 32); [lia|].
  destruct (Z.leb_spec 9 (CLib.code b)), (Z.leb_spec (CLib.code b) 13); try reflexivity; lia.
Qed.

Lemma digits_all (s : list byte) (acc cnt : Z) :
  forallb CLib.isdigit s = true ->
  CLib.digits acc cnt s =
    (fold_left (fun a b => 10 * a + CLib.digit_val b) s acc, cnt + Z.of_nat (List.length s), []).
Proof.
  revert acc cnt. induction s as [|b r IH]; intros acc cnt H.
  - cbn [CLib.digits fold_left List.length]. rewrite Z.add_0_r. reflexivity.
  - cbn [forallb] in H. apply andb_prop in H. destruct H as [Hb Hr].
    cbn [CLib.digits fold_left]. rewrite Hb, (IH _ _ Hr). cbn [List.length].
    rewrite Nat2Z.inj_succ. f_equal. f_equal. lia.
Qed.

Lemma fold_digits_bound (s : list byte) (acc : Z) :
  forallb CLib.isdigit s = true -> 0 <= acc ->
  0 <= fold_left (fun a b => 10 * a + CLib.digit_val b) s acc
    < (acc + 1) * 10 ^ Z.of_nat (List.length s).
Proof.
  revert acc. induction s as [|b r IH]; intros acc H Ha.
  - cbn [fold_left List.length]. change (10 ^ Z.of_nat 0) with 1. lia.
  - cbn [forallb] in H. apply andb_prop in H. destruct H as [Hb Hr].
    pose proof (isdigit_range b Hb) as Hd.
    cbn [fold_left List.length]. rewrite Nat2Z.inj_succ, Z.pow_succ_r by lia.
    pose proof (IH (10 * acc + CLib.digit_val b) Hr ltac:(lia)) as [L U].
    split; [exact L|].
    assert (0 < 10 ^ Z.of_nat (List.length r)) by (apply Z.pow_pos_nonneg; lia).
    nia.
Qed.

Lemma drop_space_end_digits (s : list byte) :
  forallb CLib.isdigit s = true -> CLib.drop_space_end s = s.
Proof.
  induction s as [|b r IH]; intros H; [reflexivity|].
  cbn [forallb] in H. apply andb_prop in H. destruct H as [Hb Hr].
  cbn [CLib.drop_space_end]. rewrite (IH Hr).
  destruct r; [rewrite (isdigit_not_space b Hb)|]; reflexivity.
Qed.

Lemma trim_digits (s : list byte) : forallb CLib.isdigit s = true -> CLib.trim s = s.
Proof.
  intros H. unfold CLib.trim.
  assert (E : CLib.skip_space s = s).
  { destruct s as [|b r]; [reflexivity|]. cbn [forallb] in H.
    apply andb_prop in H. destruct H as [Hb _].
    cbn [CLib.skip_space]. rewrite (isdigit_not_space b Hb). reflexivity. }
  rewrite E. apply drop_space_end_digits, H.
Qed.

Lemma forallb_impl {A} (P Q : A -> bool) (l : list A) :
  (forall a, P a = true -> Q a = true) -> forallb P l = true -> forallb Q l = true.
Proof.
  intros HPQ. induction l as [|a r IH]; [reflexivity|]. cbn [forallb]. intros H.
  apply andb_prop in H. destruct H as [Ha Hr]. rewrite (HPQ a Ha), (IH Hr). reflexivity.
Qed.

Lemma strtod_digits (s : list byte) :
  s <> [] -> forallb CLib.isdigit s = true ->
  CLib.strtod s = CLib.double_of_decimal false (decimal_value s) 0.
Proof.
  intros Hne H. unfold CLib.strtod.
  assert (E : CLib.skip_space s = s).
  { destruct s as [|b r]; [reflexivity|]. cbn [forallb] in H.
    apply andb_prop in H. destruct H as [Hb _].
    cbn [CLib.skip_space]. rewrite (isdigit_not_space b Hb). reflexivity. }
  rewrite E.
  assert (Es : CLib.sign s = (false, s)).
  { destruct s as [|b r]; [reflexivity|]. cbn [forallb] in H.
    apply andb_prop in H. destruct H as [Hb _].
    unfold CLib.isdigit in Hb. apply andb_prop in Hb. destruct Hb as [A B].
    apply Z.leb_le in A, B. cbn [CLib.sign].
    destruct (Z.eqb_spec (CLib.code b) 45); [lia|].
    destruct (Z.eqb_spec (CLib.code b) 43); [lia|]. reflexivity. }
  rewrite Es.
  rewrite (hex_number_class s (forallb_impl _ _ s isdigit_numeric H)).
  unfold CLib.decimal_number. rewrite (digits_all s 0 0 H).
  destruct (Z.eqb_spec (0 + Z.of_nat (List.length s) + 0) 0) as [Hz|_].
  - destruct s; [congruence|]. cbn [List.length] in Hz. lia.
  - reflexivity.
Qed.

Lemma of_Z_pos (p : positive) : of_Z (Z.pos p) = binary_round F32.prec F32.emax false p 0.
Proof. reflexivity. Qed.

(** Narrowing the binary64 nearest to a whole number below 2^53 gives
    the binary32 nearest to that number. *)
Lemma double_to_float_whole (n : Z) :
  0 <= n < 2 ^ 53 ->
  CLib.double_to_float (CLib.double_of_decimal false n 0) = of_Z n.
Proof.
  intros [H0 H1]. unfold CLib.double_of_decimal.
  destruct (Z.eqb_spec n 0) as [->|Hn]; [reflexivity|].
  change (0 <=? 0) with true. cbv iota.
  rewrite Z.pow_0_r, Z.mul_1_r. cbn [cond_Zopp].
  destruct n as [|p|p]; try lia.
  unfold binary_normalize.
  assert (Hd : Zdigits2 (Z.pos p) <= CLib.dprec).
  { apply Zdigits2_lt_pow; unfold CLib.dprec; lia. }
  destruct (binary_round_small CLib.dprec CLib.demax ltac:(reflexivity) false p Hd
              ltac:(reflexivity)) as (q & E & Hq).
  rewrite E. cbn [CLib.double_to_float]. rewrite of_Z_pos.
  pose proof (Zdigits2_nonneg (Z.pos p)).
  apply (binary_round_value F32.prec F32.emax f32_prec false q _ p 0
           (Zdigits2 (Z.pos p) - CLib.dprec)); try lia.
  rewrite Z.sub_diag, Z.pow_0_r, Z.mul_1_r, Hq. f_equal. f_equal. lia.
Qed.

Lemma sf_final_finite (s : bool) (r E : Z) :
  0 <= r -> E <= F32.emax - F32.prec -> isfinite (sf_final F32.prec F32.emax s r E) = true.
Proof.
  intros Hr HE. unfold sf_final. destruct r as [|p|p]; [reflexivity| |lia].
  destruct (Z.leb_spec E (F32.emax - F32.prec)); [reflexivity|lia].
Qed.

Lemma of_Z_finite (n : Z) : 0 <= n < 2 ^ 53 -> isfinite (of_Z n) = true.
Proof.
  intros [H0 H1]. destruct n as [|p|p]; [reflexivity| |lia].
  rewrite of_Z_pos.
  assert (Hd : Zdigits2 (Z.pos p) <= 53) by (apply Zdigits2_lt_pow; lia).
  pose proof (Zdigits2_ge_pow (Z.pos p) 0 ltac:(lia) ltac:(simpl; lia)) as Hd1.
  set (F := fexp F32.prec F32.emax (Zdigits2 (Z.pos p) + 0)).
  assert (HF : F <= 29).
  { unfold F, fexp, emin, F32.prec, F32.emax. lia. }
  set (e0 := Z.min 0 F).
  rewrite (binary_round_fine F32.prec F32.emax f32_prec false p 0 e0) by (unfold e0; fold F; lia).
  assert (Hp : 0 < Z.pos p * 2 ^ (0 - e0)).
  { apply Z.mul_pos_pos; [lia|apply Z.pow_pos_nonneg; unfold e0; lia]. }
  assert (Hdig : Zdigits2 (Z.pos p * 2 ^ (0 - e0)) + e0 = Zdigits2 (Z.pos p) + 0).
  { rewrite Zdigits2_mul_pow2 by (unfold e0; lia). lia. }
  pose proof (bra_spec F32.prec F32.emax f32_prec false (Z.pos p * 2 ^ (0 - e0)) e0 loc_Exact
                ltac:(lia) ltac:(rewrite Hdig; fold F; unfold e0; lia)) as H.
  cbv zeta in H. rewrite Hdig in H. fold F in H. destruct H as (-> & Hr & _).
  match goal with |- isfinite (if ?c then _ else _) = true => destruct c end.
  - apply sf_final_finite; [lia|]. unfold F32.emax, F32.prec. lia.
  - apply sf_final_finite; [apply Z.pow_nonneg; lia|]. unfold F32.emax, F32.prec. lia.
Qed.

(** X16.  A payload of one to fifteen decimal digits is decoded
    as text to the binary32 nearest to the number it spells, which is
    finite; on the setpoint and process-variable topics that number is
    stored. *)
Theorem whole_number_text (payload : list byte) (s : state) :
  payload <> [] -> forallb CLib.isdigit payload = true ->
  (List.length payload <= 15)%nat ->
  let n := decimal_value payload in
  decode payload = (Some (of_Z n), LogAscii payload (of_Z n))
  /\ isfinite (of_Z n) = true
  /\ temp_setpoint (mqttCallback MQTT_SUB_TOPIC_SP payload s) = of_Z n
  /\ temp_actual (mqttCallback MQTT_SUB_TOPIC_PV payload s) = of_Z n.
Proof.
  intros Hne Hd Hl n.
  assert (Hn : 0 <= n < 2 ^ 53).
  { pose proof (fold_digits_bound payload 0 Hd ltac:(lia)) as [L U]. fold (decimal_value payload) in L, U.
    fold n in L, U. split; [exact L|].
    assert (10 ^ Z.of_nat (List.length payload) <= 10 ^ 15) by (apply Z.pow_le_mono_r; lia).
    change (2 ^ 53) with 9007199254740992. change (10 ^ 15) with 1000000000000000 in H. lia. }
  assert (A : isAsciiNumber payload = true).
  { unfold isAsciiNumber. rewrite firstn_all2 by lia.
    exact (forallb_impl _ _ payload isdigit_numeric Hd). }
  assert (V : CLib.toFloat (CLib.trim payload) = of_Z n).
  { rewrite (trim_digits payload Hd). unfold CLib.toFloat, CLib.atof.
    rewrite (strtod_digits payload Hne Hd). apply double_to_float_whole, Hn. }
  assert (D : decode payload = (Some (of_Z n), LogAscii payload (of_Z n))).
  { rewrite (decode_text payload A), V, (trim_digits payload Hd). reflexivity. }
  pose proof (of_Z_finite n Hn) as F.
  split; [exact D|]. split; [exact F|].
  unfold mqttCallback. rewrite D. unfold dispatch. rewrite F. cbn [negb].
  split; reflexivity.
Qed.

(** The payload 30. *)
Lemma whole_number_text_witness :
  decode (bytes "30") = (Some (of_Z 30), LogAscii (bytes "30") (of_Z 30))
  /\ isfinite (of_Z 30) = true
  /\ temp_setpoint (mqttCallback MQTT_SUB_TOPIC_SP (bytes "30") initial) = of_Z 30
  /\ temp_actual (mqttCallback MQTT_SUB_TOPIC_PV (bytes "30") initial) = of_Z 30.
Proof.
  apply (whole_number_text (bytes "30") initial); [discriminate|reflexivity|].
  simpl. lia.
Defined.

(** ** LED *)

Lemma testbit_uint8_high (x n : Z) : 8 <= n -> Z.testbit (uint8 x) n = false.
Proof.
  intros H. unfold uint8. change 256 with (2 ^ 8).
  apply Z.mod_pow2_bits_high. lia.
Qed.

Lemma shiftl_bits_low (a k n : Z) : 0 <= n < k -> Z.testbit (Z.shiftl a k) n = false.
Proof.
  intros H. rewrite Z.shiftl_spec by lia. apply Z.testbit_neg_r. lia.
Qed.

Lemma lor_disjoint (a b : Z) : Z.land a b = 0 -> Z.lor a b = a + b.
Proof.
  intros H. rewrite (Z.add_nocarry_lxor a b H). symmetry. apply Z.lxor_lor. exact H.
Qed.

(** The packed colour is [r * 2^16 + g * 2^8 + b]. *)
Lemma pack_color (r g b : Z) :
  Z.lor (Z.lor (Z.shiftl (uint8 r) 16) (Z.shiftl (uint8 g) 8)) (uint8 b)
  = uint8 r * 2 ^ 16 + uint8 g * 2 ^ 8 + uint8 b.
Proof.
  rewrite (lor_disjoint (Z.lor _ _) (uint8 b)).
  - rewrite lor_disjoint; [rewrite !Z.shiftl_mul_pow2 by lia; reflexivity|].
    apply Z.bits_inj'. intros n Hn. rewrite Z.land_spec, Z.bits_0.
    destruct (Z.lt_ge_cases n 16).
    + rewrite shiftl_bits_low by lia. reflexivity.
    + rewrite (Z.shiftl_spec (uint8 g)) by lia.
      rewrite testbit_uint8_high by lia. apply andb_false_r.
  - apply Z.bits_inj'. intros n Hn. rewrite Z.land_spec, Z.lor_spec, Z.bits_0.
    destruct (Z.lt_ge_cases n 8).
    + rewrite !shiftl_bits_low by lia. reflexivity.
    + rewrite testbit_uint8_high by lia. apply andb_false_r.
Qed.

Lemma uint8_range (x : Z) : 0 <= uint8 x < 256.
Proof. unfold uint8. apply Z.mod_pos_bound. lia. Qed.

Lemma saved_color_arith (l : led) :
  saved_color l =
    ((current_color l / 2 ^ 16) mod 256, (current_color l / 2 ^ 8) mod 256,
     current_color l mod 256).
Proof.
  unfold saved_color, uint8. change 255 with (Z.ones 8).
  rewrite !Z.land_ones, !Z.shiftr_div_pow2 by lia. change (2 ^ 8) with 256.
  rewrite !Z.mod_mod by lia. reflexivity.
Qed.

(** X17.  The three bytes that [control_task] reads out of
    [current_color] after [setLedColor (r, g, b)] are r, g and b (as
    [uint8_t]); the colour fits in 24 bits and the pin is high exactly
    when the colour is not black. *)
Theorem setLedColor_round_trip (r g b : Z) (l : led) :
  let l' := setLedColor r g b l in
  saved_color l' = (uint8 r, uint8 g, uint8 b)
  /\ led_wf l'
  /\ (0 <= r < 256 -> 0 <= g < 256 -> 0 <= b < 256 -> saved_color l' = (r, g, b)).
Proof.
  cbv zeta.
  assert (E : current_color (setLedColor r g b l) = uint8 r * 2 ^ 16 + uint8 g * 2 ^ 8 + uint8 b).
  { unfold setLedColor. cbv zeta. cbn [current_color]. apply pack_color. }
  assert (P : led_pin (setLedColor r g b l)
              = negb (uint8 r =? 0) || negb (uint8 g =? 0) || negb (uint8 b =? 0)) by reflexivity.
  pose proof (uint8_range r) as Hr. pose proof (uint8_range g) as Hg.
  pose proof (uint8_range b) as Hb.
  assert (S : saved_color (setLedColor r g b l) = (uint8 r, uint8 g, uint8 b)).
  { rewrite saved_color_arith, E. clear E P.
    set (R := uint8 r) in *. set (G := uint8 g) in *. set (B := uint8 b) in *.
    change (2 ^ 16) with 65536. change (2 ^ 8) with 256.
    f_equal; [f_equal|]; Z.div_mod_to_equations; lia. }
  split; [exact S|]. split.
  - unfold led_wf. rewrite E, P. clear E P S.
    set (R := uint8 r) in *. set (G := uint8 g) in *. set (B := uint8 b) in *.
    change (2 ^ 16) with 65536. change (2 ^ 8) with 256. change (2 ^ 24) with 16777216.
    split; [lia|].
    destruct (Z.eqb_spec R 0), (Z.eqb_spec G 0), (Z.eqb_spec B 0),
      (Z.eqb_spec (R * 65536 + G * 256 + B) 0); try reflexivity; exfalso; lia.
  - intros Ir Ig Ib. rewrite S. unfold uint8. rewrite !Z.mod_small by lia. reflexivity.
Qed.

(** Green, as [mqtt_task] shows it. *)
Lemma setLedColor_round_trip_witness :
  saved_color (setLedColor 0 RGB_BRIGHTNESS 0 (mkLed 0 false)) = (0, RGB_BRIGHTNESS, 0).
Proof.
  destruct (setLedColor_round_trip 0 RGB_BRIGHTNESS 0 (mkLed 0 false)) as (_ & _ & H).
  apply H; unfold RGB_BRIGHTNESS; lia.
Defined.

(** X18.  The activity pulse of [control_task] shows blue and
    then puts the LED back exactly as it was, colour and pin, when the
    LED was last written by [setLedColor] and no other task writes it
    in between. *)
Theorem led_pulse_restores (l : led) :
  led_wf l ->
  fst (led_pulse l) = mkLed RGB_BRIGHTNESS true
  /\ snd (led_pulse l) = l.
Proof.
  intros [Hc Hp]. unfold led_pulse. rewrite saved_color_arith. cbn [fst snd].
  split; [reflexivity|].
  destruct l as [c p]. cbn [current_color led_pin] in *.
  unfold setLedColor. cbv zeta. rewrite pack_color. subst p.
  unfold uint8. rewrite !Z.mod_mod by lia.
  change (2 ^ 16) with 65536 in *. change (2 ^ 8) with 256 in *.
  change (2 ^ 24) with 16777216 in *.
  set (R := (c / 65536) mod 256). set (G := (c / 256) mod 256). set (B := c mod 256).
  assert (E : R * 65536 + G * 256 + B = c).
  { unfold R, G, B. Z.div_mod_to_equations. lia. }
  assert (HR : 0 <= R < 256) by (unfold R; apply Z.mod_pos_bound; lia).
  assert (HG : 0 <= G < 256) by (unfold G; apply Z.mod_pos_bound; lia).
  assert (HB : 0 <= B < 256) by (unfold B; apply Z.mod_pos_bound; lia).
  rewrite E. f_equal.
  destruct (Z.eqb_spec R 0), (Z.eqb_spec G 0), (Z.eqb_spec B 0), (Z.eqb_spec c 0);
    try reflexivity; exfalso; lia.
Qed.

(** A pulse over green. *)
Lemma led_pulse_restores_witness :
  snd (led_pulse (setLedColor 0 RGB_BRIGHTNESS 0 (mkLed 0 false)))
  = setLedColor 0 RGB_BRIGHTNESS 0 (mkLed 0 false).
Proof.
  apply (led_pulse_restores (setLedColor 0 RGB_BRIGHTNESS 0 (mkLed 0 false))).
  vm_compute. split; [split; [discriminate|reflexivity]|reflexivity].
Defined.

(** ** Communication task *)

Lemma millis_elapsed (t s : Z) :
  s <= t -> 5000 < (millis t - millis s) mod 2 ^ 32 -> 5000 < t - s.
Proof.
  intros H. unfold millis. rewrite <- Zminus_mod.
  pose proof (Z.mod_le (t - s) (2 ^ 32) ltac:(lia) ltac:(lia)). lia.
Qed.

Lemma mqtt_task_step_retry (k : tick) (c : comms) :
  let '(acts, c') := mqtt_task_step k c in
  if existsb is_reconnect acts
  then (5000 <? (millis (t_retry k) - lastReconnect c) mod 2 ^ 32) = true
       /\ lastReconnect c' = millis (t_retry_set k)
  else lastReconnect c' = lastReconnect c.
Proof.
  unfold mqtt_task_step. destruct (wifi_status k =? WL_CONNECTED); cbn [negb].
  - destruct (mqtt_connected k); reflexivity.
  - cbv zeta.
    set (p := 2000 <? (millis (t_print k) - lastPrint c) mod 2 ^ 32).
    assert (E : lastReconnect (if p then mkComms (millis (t_print_set k)) (lastReconnect c) else c)
                = lastReconnect c) by (destruct p; reflexivity).
    rewrite E.
    destruct (5000 <? (millis (t_retry k) - lastReconnect c) mod 2 ^ 32) eqn:R.
    + destruct p; cbn; split; reflexivity.
    + destruct p; cbn; exact E.
Qed.

(** From a state whose last attempt was at time [s], every later
    attempt is made more than 5000 ms after [s]. *)
Lemma retry_after (ks : list tick) (c : comms) (s t0 : Z) :
  lastReconnect c = millis s -> s <= t0 -> chronological t0 ks = true ->
  forall k acts, In (k, acts) (mqtt_task ks c) -> existsb is_reconnect acts = true ->
  5000 < t_retry k - s.
Proof.
  revert c s t0. induction ks as [|k0 r IH]; intros c s t0 Hc Hs Hch k acts Hin Hre;
    [destruct Hin|].
  cbn [chronological] in Hch. repeat (apply andb_prop in Hch; destruct Hch as [Hch ?]).
  apply Z.leb_le in Hch, H0, H1, H2.
  cbn [mqtt_task] in Hin. pose proof (mqtt_task_step_retry k0 c) as Hstep.
  destruct (mqtt_task_step k0 c) as [acts0 c'].
  destruct Hin as [Heq|Hin].
  - injection Heq as <- <-. rewrite Hre in Hstep. destruct Hstep as [Hcond _].
    apply Z.ltb_lt in Hcond. rewrite Hc in Hcond. apply millis_elapsed; [lia|exact Hcond].
  - destruct (existsb is_reconnect acts0).
    + destruct Hstep as [_ Hset].
      pose proof (IH c' (t_retry_set k0) (t_retry_set k0) Hset ltac:(lia) H k acts Hin Hre). lia.
    + rewrite Hc in Hstep.
      exact (IH c' s (t_retry_set k0) Hstep ltac:(lia) H k acts Hin Hre).
Qed.

Lemma retry_spacing (ks : list tick) (c : comms) (s t0 : Z) :
  lastReconnect c = millis s -> s <= t0 -> chronological t0 ks = true ->
  forall before k1 acts1 rest,
    mqtt_task ks c = before ++ (k1, acts1) :: rest ->
    existsb is_reconnect acts1 = true ->
    forall k2 acts2, In (k2, acts2) rest -> existsb is_reconnect acts2 = true ->
    5000 < t_retry k2 - t_retry_set k1.
Proof.
  revert c s t0. induction ks as [|k0 r IH];
    intros c s t0 Hc Hs Hch before k1 acts1 rest Htr R1 k2 acts2 Hin R2.
  { destruct before; discriminate Htr. }
  cbn [chronological] in Hch. repeat (apply andb_prop in Hch; destruct Hch as [Hch ?]).
  apply Z.leb_le in Hch, H0, H1, H2.
  cbn [mqtt_task] in Htr. pose proof (mqtt_task_step_retry k0 c) as Hstep.
  destruct (mqtt_task_step k0 c) as [acts0 c'].
  destruct before as [|b before'].
  - cbn [app] in Htr. injection Htr as <- <- <-. rewrite R1 in Hstep.
    destruct Hstep as [_ Hset].
    exact (retry_after r c' (t_retry_set k0) (t_retry_set k0) Hset ltac:(lia) H
             k2 acts2 Hin R2).
  - cbn [app] in Htr. injection Htr as _ Htr.
    destruct (existsb is_reconnect acts0).
    + destruct Hstep as [_ Hset].
      exact (IH c' (t_retry_set k0) (t_retry_set k0) Hset ltac:(lia) H
               before' k1 acts1 rest Htr R1 k2 acts2 Hin R2).
    + rewrite Hc in Hstep.
      exact (IH c' s (t_retry_set k0) Hstep ltac:(lia) H
               before' k1 acts1 rest Htr R1 k2 acts2 Hin R2).
Qed.

Lemma reconnect_in (acts : list comms_action) :
  In DoReconnect acts -> existsb is_reconnect acts = true.
Proof. intros H. apply existsb_exists. exists DoReconnect. split; [exact H|reflexivity]. Qed.

(** X19.  Over any number of iterations of [mqtt_task] from
    start-up, [WiFi.reconnect()] is not called during the first 5000 ms,
    and a call is made more than 5000 ms after the previous one, also
    across the wrap of the 32-bit [millis()]. *)
Theorem reconnect_throttle (ks : list tick) (c : comms) :
  lastReconnect c = 0 -> chronological 0 ks = true ->
  (forall k acts, In (k, acts) (mqtt_task ks c) -> In DoReconnect acts -> 5000 < t_retry k)
  /\ (forall before k1 acts1 between k2 acts2 after,
        mqtt_task ks c = before ++ (k1, acts1) :: between ++ (k2, acts2) :: after ->
        In DoReconnect acts1 -> In DoReconnect acts2 ->
        5000 < t_retry k2 - t_retry_set k1).
Proof.
  intros Hc Hch. split.
  - intros k acts Hin H.
    pose proof (retry_after ks c 0 0 Hc ltac:(lia) Hch k acts Hin (reconnect_in acts H)). lia.
  - intros before k1 acts1 between k2 acts2 after Htr H1 H2.
    apply (retry_spacing ks c 0 0 Hc ltac:(lia) Hch before k1 acts1 _ Htr
             (reconnect_in acts1 H1) k2 acts2); [|exact (reconnect_in acts2 H2)].
    apply in_or_app. right. left. reflexivity.
Qed.

(** Two iterations without WiFi on either side of the wrap of
    [millis()], 6000 ms apart: both call [WiFi.reconnect()]. *)
Lemma reconnect_throttle_witness :
  5000 < (2 ^ 32 + 3000) - (2 ^ 32 - 3000).
Proof.
  destruct (reconnect_throttle
              [mkTick 6 false (2 ^ 32 - 3000) (2 ^ 32 - 3000) (2 ^ 32 - 3000) (2 ^ 32 - 3000);
               mkTick 6 false (2 ^ 32 + 3000) (2 ^ 32 + 3000) (2 ^ 32 + 3000) (2 ^ 32 + 3000)]
              (mkComms 0 0) eq_refl eq_refl) as [_ H].
  apply (H []
           (mkTick 6 false (2 ^ 32 - 3000) (2 ^ 32 - 3000) (2 ^ 32 - 3000) (2 ^ 32 - 3000))
           [DoLed RGB_BRIGHTNESS 0 0; DoLogNoWifi 6; DoLogRetry; DoReconnect] []
           (mkTick 6 false (2 ^ 32 + 3000) (2 ^ 32 + 3000) (2 ^ 32 + 3000) (2 ^ 32 + 3000))
           [DoLed RGB_BRIGHTNESS 0 0; DoLogNoWifi 6; DoLogRetry; DoReconnect] []).
  - reflexivity.
  - right. right. right. left. reflexivity.
  - right. right. right. left. reflexivity.
Defined.
